(** * Neural Network Arena: the browser front end and the contract of the
      simulation core

    Part I embeds the program. The TypeScript sources of the front end
    (ControlPanel, Application, PerformanceMonitor, the three renderers
    and the types of the WebAssembly interface) are embedded as
    executable definitions; what is drawn on a canvas is embedded as the
    numbers and strings that decide it.
    JavaScript numbers are embedded as exact rationals [Q]: the
    properties proved are order and range properties and properties of
    the control flow, stated so that they do not depend on binary64
    rounding (a single coordinate or channel value may differ from the
    rounded computation), and NaN is not a value of the embedding. The simulation core behind the WebAssembly interface is
    not among the sources and is modelled from the spec (module [Core]).

    Part II states and proves the properties. *)

From Stdlib Require Import ZArith QArith Qabs Qround Qminmax Lia Lqa.
From stdpp Require Import gmap strings list fin_maps.

Local Open Scope Z_scope.

(* ================================================================= *)
(** * Part I: the program *)

(** ** JavaScript number helpers *)

Module Js.

(** [a < b] on numbers, as a boolean. *)
Definition ltb (a b : Q) : bool := negb (Qle_bool b a).

(** [a >= b] on numbers, as a boolean. *)
Definition geb (a b : Q) : bool := Qle_bool b a.

(** [Array.prototype.push] and [Array.prototype.shift], on the array
    alone. *)
Definition push {A} (l : list A) (x : A) : list A := l ++ [x].
Definition shift {A} (l : list A) : list A := tail l.

(** [Math.floor]. *)
Definition floor (x : Q) : Z := Qfloor x.

(** [Number.prototype.toFixed(1)], as the number of tenths that is
    printed: the integer [n] with [n / 10] closest to [x], the larger
    one when two are equally close. *)
Definition toFixed1 (x : Q) : Z := Qfloor (x * 10 + (1 # 2)).

(** The value an element of a [Uint8ClampedArray] takes when an integer
    is stored into it. *)
Definition toUint8Clamped (z : Z) : Z := Z.max 0 (Z.min 255 z).

(** [String.prototype.toLowerCase] on the ASCII letters; every other
    character is left as it is. *)
Definition lowerAscii (c : Ascii.ascii) : Ascii.ascii :=
  let n := Ascii.nat_of_ascii c in
  if ((65 <=? n) && (n <=? 90))%nat then Ascii.ascii_of_nat (n + 32) else c.

Fixpoint toLowerCase (s : string) : string :=
  match s with
  | EmptyString => EmptyString
  | String c rest => String (lowerAscii c) (toLowerCase rest)
  end.

(** [array.forEach((a, i) => ...)] as a fold: [f] gets the state, the
    element and its index, counted from [i]. *)
Fixpoint forEachFrom {A St} (f : St -> A -> nat -> St) (i : nat) (l : list A)
    (s : St) : St :=
  match l with
  | [] => s
  | a :: rest => forEachFrom f (S i) rest (f s a i)
  end.

Definition forEach {A St} (l : list A) (f : St -> A -> nat -> St) (s : St)
    : St :=
  forEachFrom f 0 l s.

(** [Math.abs]. *)
Definition abs (x : Q) : Q := Qabs x.

(** [n.toString(16)] for an integer [n >= 0]: the digits are produced
    from the last one, at most [fuel] of them. *)
Definition zeroDigit : Ascii.ascii := Ascii.ascii_of_nat 48.

Definition hexDigit (d : Z) : Ascii.ascii :=
  nth (Z.to_nat d) (String.list_ascii_of_string "0123456789abcdef") zeroDigit.

Fixpoint toHex (fuel : nat) (n : Z) (acc : string) : string :=
  match fuel with
  | O => acc
  | S fuel =>
      let acc := String (hexDigit (n mod 16)) acc in
      if n / 16 =? 0 then acc else toHex fuel (n / 16) acc
  end.

Definition toString16 (n : Z) : string :=
  toHex (S (Z.to_nat (Z.log2 n))) n EmptyString.

(** [s.padStart(2, '0')]. *)
Definition padStart2 (s : string) : string :=
  match String.length s with
  | O => String zeroDigit (String zeroDigit EmptyString)
  | S O => String zeroDigit s
  | _ => s
  end.

End Js.

(** ** ControlPanel: keyboard speed control *)

Module ControlPanel.

(** The part of the panel that [adjustSpeed] reads and writes: the
    slider's value, the text of the speed label (the number of tenths
    printed by [toFixed(1)]), and the arguments the speed-change
    callback has been called with, oldest first. *)
Record Panel := {
  speedSlider_value : Q;
  speedValue_tenths : Z;
  speedCallbackLog : list Q
}.

Definition minSpeed : Q := 1 # 10.
Definition maxSpeed : Q := 5.

(** [Math.max(0.1, Math.min(5.0, currentSpeed + delta))]. *)
Definition newSpeed (currentSpeed delta : Q) : Q :=
  Qmax minSpeed (Qmin maxSpeed (currentSpeed + delta)).

Definition adjustSpeed (delta : Q) (p : Panel) : Panel :=
  let currentSpeed := speedSlider_value p in
  let s := newSpeed currentSpeed delta in
  {| speedSlider_value := s;
     speedValue_tenths := Js.toFixed1 s;
     speedCallbackLog := speedCallbackLog p ++ [s] |}.

(** The keys [handleKeyboardShortcuts] dispatches on, as far as the
    speed is concerned; [fromInput] is the guard
    [event.target instanceof HTMLInputElement]. *)
Inductive Key := ArrowUp | Plus | ArrowDown | Minus | OtherKey.

Record KeyEvent := { fromInput : bool; key : Key }.

Definition handleKeyboardShortcuts (e : KeyEvent) (p : Panel) : Panel :=
  if fromInput e then p
  else match key e with
       | ArrowUp | Plus => adjustSpeed (1 # 10) p
       | ArrowDown | Minus => adjustSpeed (- (1 # 10)) p
       | OtherKey => p
       end.

Definition handleAll (es : list KeyEvent) (p : Panel) : Panel :=
  fold_left (fun q e => handleKeyboardShortcuts e q) es p.

Definition inRange (s : Q) : Prop := (minSpeed <= s)%Q /\ (s <= maxSpeed)%Q.

(** The callback arguments recorded after the first [n] entries. *)
Definition newCalls (before after : Panel) : list Q :=
  drop (length (speedCallbackLog before)) (speedCallbackLog after).

End ControlPanel.

(** ** PerformanceMonitor: frame, WebAssembly and render timings *)

Module PerformanceMonitor.

Record Monitor := {
  frameStartTime : Q;
  frameEndTime : Q;
  frameTimes : list Q;
  lastFPSUpdate : Q;
  currentFPS : Q;
  frameCount : Z;
  memoryBaseline : Q;
  peakMemory : Q;
  wasmExecutionTimes : list Q;
  renderTimes : list Q
}.

Definition maxFrameHistory : nat := 60.

(** [performance.memory], when the browser has it: [usedJSHeapSize]. *)
Definition Memory := option Q.

(** [memory.usedJSHeapSize || 0]. *)
Definition usedJSHeapSize (mem : Q) : Q := mem.

Definition initializeMemoryBaseline (mem : Memory) (m : Monitor) : Monitor :=
  match mem with
  | Some u =>
      {| frameStartTime := frameStartTime m; frameEndTime := frameEndTime m;
         frameTimes := frameTimes m; lastFPSUpdate := lastFPSUpdate m;
         currentFPS := currentFPS m; frameCount := frameCount m;
         memoryBaseline := usedJSHeapSize u; peakMemory := peakMemory m;
         wasmExecutionTimes := wasmExecutionTimes m;
         renderTimes := renderTimes m |}
  | None => m
  end.

(** The field initialisers followed by the constructor's body; [now] is
    the reading of [performance.now()]. *)
Definition constructor (now : Q) (mem : Memory) : Monitor :=
  let m := initializeMemoryBaseline mem
    {| frameStartTime := 0; frameEndTime := 0; frameTimes := [];
       lastFPSUpdate := 0; currentFPS := 0; frameCount := 0;
       memoryBaseline := 0; peakMemory := 0;
       wasmExecutionTimes := []; renderTimes := [] |} in
  {| frameStartTime := frameStartTime m; frameEndTime := frameEndTime m;
     frameTimes := frameTimes m; lastFPSUpdate := now;
     currentFPS := currentFPS m; frameCount := frameCount m;
     memoryBaseline := memoryBaseline m; peakMemory := peakMemory m;
     wasmExecutionTimes := wasmExecutionTimes m;
     renderTimes := renderTimes m |}.

Definition frameStart (now : Q) (m : Monitor) : Monitor :=
  {| frameStartTime := now; frameEndTime := frameEndTime m;
     frameTimes := frameTimes m; lastFPSUpdate := lastFPSUpdate m;
     currentFPS := currentFPS m; frameCount := frameCount m;
     memoryBaseline := memoryBaseline m; peakMemory := peakMemory m;
     wasmExecutionTimes := wasmExecutionTimes m;
     renderTimes := renderTimes m |}.

Definition updateMemoryStats (mem : Memory) (m : Monitor) : Monitor :=
  match mem with
  | Some u =>
      {| frameStartTime := frameStartTime m; frameEndTime := frameEndTime m;
         frameTimes := frameTimes m; lastFPSUpdate := lastFPSUpdate m;
         currentFPS := currentFPS m; frameCount := frameCount m;
         memoryBaseline := memoryBaseline m;
         peakMemory := Qmax (peakMemory m) (usedJSHeapSize u);
         wasmExecutionTimes := wasmExecutionTimes m;
         renderTimes := renderTimes m |}
  | None => m
  end.

(** A history array after one more sample: the sample is pushed, and the
    first entry is shifted out when the array has become longer than
    [bound]. *)
Definition record (bound : nat) (history : list Q) (sample : Q) : list Q :=
  let pushed := Js.push history sample in
  if (bound <? length pushed)%nat then Js.shift pushed else pushed.

(** [frameEnd]; [tEnd] and [now] are its two readings of
    [performance.now()]. *)
Definition frameEnd (tEnd now : Q) (mem : Memory) (m : Monitor) : Monitor :=
  let frameTime := (tEnd - frameStartTime m)%Q in
  let times := record maxFrameHistory (frameTimes m) frameTime in
  let count := frameCount m + 1 in
  let m1 :=
    {| frameStartTime := frameStartTime m; frameEndTime := tEnd;
       frameTimes := times; lastFPSUpdate := lastFPSUpdate m;
       currentFPS := currentFPS m; frameCount := count;
       memoryBaseline := memoryBaseline m; peakMemory := peakMemory m;
       wasmExecutionTimes := wasmExecutionTimes m;
       renderTimes := renderTimes m |} in
  if Js.geb (now - lastFPSUpdate m) 1000 then
    updateMemoryStats mem
      {| frameStartTime := frameStartTime m1; frameEndTime := frameEndTime m1;
         frameTimes := frameTimes m1; lastFPSUpdate := now;
         currentFPS :=
           (inject_Z count * 1000 / (now - lastFPSUpdate m))%Q;
         frameCount := 0;
         memoryBaseline := memoryBaseline m1; peakMemory := peakMemory m1;
         wasmExecutionTimes := wasmExecutionTimes m1;
         renderTimes := renderTimes m1 |}
  else m1.

(** [measureWasmExecution(fn)]: [tStart] and [tEnd] are the clock
    readings around the call of [fn]; the result of [fn] is returned
    unchanged. *)
Definition measureWasmExecution {T} (fn : unit -> T) (tStart tEnd : Q)
    (m : Monitor) : T * Monitor :=
  let result := fn tt in
  (result,
   {| frameStartTime := frameStartTime m; frameEndTime := frameEndTime m;
      frameTimes := frameTimes m; lastFPSUpdate := lastFPSUpdate m;
      currentFPS := currentFPS m; frameCount := frameCount m;
      memoryBaseline := memoryBaseline m; peakMemory := peakMemory m;
      wasmExecutionTimes :=
        record 100 (wasmExecutionTimes m) (tEnd - tStart)%Q;
      renderTimes := renderTimes m |}).

Definition measureRenderTime {T} (fn : unit -> T) (tStart tEnd : Q)
    (m : Monitor) : T * Monitor :=
  let result := fn tt in
  (result,
   {| frameStartTime := frameStartTime m; frameEndTime := frameEndTime m;
      frameTimes := frameTimes m; lastFPSUpdate := lastFPSUpdate m;
      currentFPS := currentFPS m; frameCount := frameCount m;
      memoryBaseline := memoryBaseline m; peakMemory := peakMemory m;
      wasmExecutionTimes := wasmExecutionTimes m;
      renderTimes := record 100 (renderTimes m) (tEnd - tStart)%Q |}).

Definition startProfiling (now : Q) (mem : Memory) (m : Monitor) : Monitor :=
  initializeMemoryBaseline mem
    {| frameStartTime := frameStartTime m; frameEndTime := frameEndTime m;
       frameTimes := []; lastFPSUpdate := now;
       currentFPS := currentFPS m; frameCount := 0;
       memoryBaseline := memoryBaseline m; peakMemory := peakMemory m;
       wasmExecutionTimes := []; renderTimes := [] |}.

(** The calls that change the monitor, with the clock and memory
    readings each one makes. The getters and the report only read. *)
Inductive Call :=
| CallFrameStart (now : Q)
| CallFrameEnd (tEnd now : Q) (mem : Memory)
| CallMeasureWasmExecution (tStart tEnd : Q)
| CallMeasureRenderTime (tStart tEnd : Q)
| CallStartProfiling (now : Q) (mem : Memory).

Definition call (c : Call) (m : Monitor) : Monitor :=
  match c with
  | CallFrameStart now => frameStart now m
  | CallFrameEnd tEnd now mem => frameEnd tEnd now mem m
  | CallMeasureWasmExecution s e => snd (measureWasmExecution (fun _ => tt) s e m)
  | CallMeasureRenderTime s e => snd (measureRenderTime (fun _ => tt) s e m)
  | CallStartProfiling now mem => startProfiling now mem m
  end.

Definition calls (cs : list Call) (m : Monitor) : Monitor :=
  fold_left (fun acc c => call c acc) cs m.

(** The samples a call sequence records, without any eviction: what the
    three arrays would hold if they were unbounded. [samples] pairs the
    monitor with these three ghost logs. *)
Record Logs := {
  frameLog : list Q;
  wasmLog : list Q;
  renderLog : list Q
}.

Definition noLogs : Logs := {| frameLog := []; wasmLog := []; renderLog := [] |}.

Definition logCall (c : Call) (m : Monitor) (g : Logs) : Logs :=
  match c with
  | CallFrameStart _ => g
  | CallFrameEnd tEnd _ _ =>
      {| frameLog := frameLog g ++ [(tEnd - frameStartTime m)%Q];
         wasmLog := wasmLog g; renderLog := renderLog g |}
  | CallMeasureWasmExecution s e =>
      {| frameLog := frameLog g; wasmLog := wasmLog g ++ [(e - s)%Q];
         renderLog := renderLog g |}
  | CallMeasureRenderTime s e =>
      {| frameLog := frameLog g; wasmLog := wasmLog g;
         renderLog := renderLog g ++ [(e - s)%Q] |}
  | CallStartProfiling _ _ => noLogs
  end.

Definition logged (cs : list Call) (m : Monitor) : Monitor * Logs :=
  fold_left (fun acc c => (call c (fst acc), logCall c (fst acc) (snd acc)))
    cs (m, noLogs).

(** The last [n] entries of a list. *)
Definition lastN (n : nat) (l : list Q) : list Q := drop (length l - n) l.

(** What the three arrays hold, in terms of the unbounded logs. *)
Definition windows (m : Monitor) (g : Logs) : Prop :=
  frameTimes m = lastN maxFrameHistory (frameLog g) /\
  wasmExecutionTimes m = lastN 100 (wasmLog g) /\
  renderTimes m = lastN 100 (renderLog g).

(** ** The getters and the performance analysis *)

(** [Math.min(...times)] and [Math.max(...times)] on a non-empty
    argument list [t :: ts]. *)
Definition minOf (t : Q) (ts : list Q) : Q := fold_left Qmin ts t.
Definition maxOf (t : Q) (ts : list Q) : Q := fold_left Qmax ts t.

Definition getFPS (m : Monitor) : Q := currentFPS m.

Definition getMinFrameTime (m : Monitor) : Q :=
  match frameTimes m with
  | [] => 0%Q
  | t :: ts => minOf t ts
  end.

Definition getMaxFrameTime (m : Monitor) : Q :=
  match frameTimes m with
  | [] => 0%Q
  | t :: ts => maxOf t ts
  end.

Record MemoryUsage := {
  current : Q;
  peak : Q;
  baseline : Q;
  growth : Q
}.

Definition getMemoryUsage (mem : Memory) (m : Monitor) : MemoryUsage :=
  let currentMemory :=
    match mem with
    | Some u => usedJSHeapSize u
    | None => 0%Q
    end in
  {| current := currentMemory; peak := peakMemory m;
     baseline := memoryBaseline m;
     growth := (currentMemory - memoryBaseline m)%Q |}.

(** The [frameTime] argument of [analyzePerformance]. The standard
    deviation is an input of the analysis: it is a square root, which
    the getter computes and the analysis only compares with 5. *)
Record FrameTime := {
  ft_average : Q;
  ft_max : Q;
  ft_stdDev : Q
}.

Inductive Rating := Excellent | Good | Fair | Poor.

Record Analysis := {
  rating : Rating;
  bottleneck : string;
  suggestions : list string
}.

Definition isPoor (r : Rating) : bool :=
  match r with
  | Poor => true
  | _ => false
  end.

Definition lowFrameRate : string :=
  "Frame rate is below 30 FPS - consider reducing simulation complexity".
Definition fairFrameRate : string :=
  "Frame rate is below 45 FPS - some optimizations recommended".
Definition inconsistentFrames : string :=
  "Frame times are inconsistent - consider frame rate limiting".
Definition slowWasm : string :=
  "WebAssembly execution time is high - optimize simulation logic".
Definition slowRendering : string :=
  "Rendering time is high - consider reducing visual complexity".
Definition growingMemory : string :=
  "Memory usage is growing - possible memory leak detected".

(** [analyzePerformance]: the three locals [suggestions], [bottleneck]
    and [rating] are threaded through the checks in the order of the
    source. *)
Definition analyzePerformance (fps : Q) (frameTime : FrameTime)
    (wasmTime renderTime : Q) (memory : MemoryUsage) : Analysis :=
  let s0 : list string := [] in
  let b0 : string := "none" in
  let r0 := Excellent in
  (* FPS analysis *)
  let '(r1, s1) :=
    if Js.ltb fps 30 then (Poor, Js.push s0 lowFrameRate)
    else if Js.ltb fps 45 then (Fair, Js.push s0 fairFrameRate)
    else if Js.ltb fps 55 then (Good, s0)
    else (r0, s0) in
  (* Frame time consistency *)
  let '(b2, s2) :=
    if Js.ltb 5 (ft_stdDev frameTime) then
      (if String.eqb b0 "none" then "frame_consistency" else b0,
       Js.push s1 inconsistentFrames)
    else (b0, s1) in
  (* WebAssembly performance *)
  let '(r3, b3, s3) :=
    if Js.ltb 8 wasmTime then
      (if isPoor r1 then r1 else Fair, "wasm_execution",
       Js.push s2 slowWasm)
    else (r1, b2, s2) in
  (* Rendering performance *)
  let '(r4, b4, s4) :=
    if Js.ltb 12 renderTime then
      (if isPoor r3 then r3 else Fair,
       if String.eqb b3 "none" then "rendering" else b3,
       Js.push s3 slowRendering)
    else (r3, b3, s3) in
  (* Memory growth analysis *)
  let memoryGrowthMB := (growth memory / (1024 * 1024))%Q in
  let '(r5, b5, s5) :=
    if Js.ltb 50 memoryGrowthMB then
      (if isPoor r4 then r4 else Fair,
       if String.eqb b4 "none" then "memory_leak" else b4,
       Js.push s4 growingMemory)
    else (r4, b4, s4) in
  (* Overall performance bottleneck detection *)
  let b6 :=
    if Js.ltb (renderTime * 2) wasmTime then "simulation_logic"
    else if Js.ltb (wasmTime * 2) renderTime then "rendering"
    else b5 in
  {| rating := r5; bottleneck := b6; suggestions := s5 |}.

(** What the frame counters keep: a rate and a count that are not
    negative. *)
Definition counted (m : Monitor) : Prop :=
  (0 <= currentFPS m)%Q /\ 0 <= frameCount m.

(** One of the three checks that lower a rating to fair: a slow
    simulation step, slow rendering, or a heap grown by more than 50 MB. *)
Definition strained (wasmTime renderTime : Q) (memory : MemoryUsage) : Prop :=
  (8 < wasmTime \/ 12 < renderTime \/
   50 < growth memory / (1024 * 1024))%Q.

(** Neither average is more than twice the other. *)
Definition balanced (wasmTime renderTime : Q) : Prop :=
  (wasmTime <= renderTime * 2 /\ renderTime <= wasmTime * 2)%Q.

End PerformanceMonitor.

(** ** HeatmapRenderer: the heat colour map *)

Module HeatmapRenderer.

Record Color := { r : Z; g : Z; b : Z; a : Z }.

(** [Math.max(0, Math.min(1, intensity))]. *)
Definition clamp (intensity : Q) : Q := Qmax 0 (Qmin 1 intensity).

Definition intensityToColor (intensity : Q) : Color :=
  let clamped := clamp intensity in
  let '(r, g, b) :=
    if Js.ltb clamped (1 # 4) then
      let t := (clamped * 4)%Q in
      (Js.floor (255 * t), 0, 0)
    else if Js.ltb clamped (1 # 2) then
      let t := ((clamped - (1 # 4)) * 4)%Q in
      (255, Js.floor (255 * t), 0)
    else if Js.ltb clamped (3 # 4) then
      let t := ((clamped - (1 # 2)) * 4)%Q in
      (255, 255, Js.floor (128 * t))
    else
      let t := ((clamped - (3 # 4)) * 4)%Q in
      (255, 255, 128 + Js.floor (127 * t)) in
  let alpha := Js.floor (255 * Qmin (clamped * (3 # 2)) (8 # 10)) in
  {| r := r; g := g; b := b; a := alpha |}.

(** [heatmapData.data[heatmapIndex] || 0]: a missing entry and a zero
    entry both read as 0. *)
Definition intensityAt (data : list Q) (heatmapIndex : nat) : Q :=
  match data !! heatmapIndex with
  | Some v => v
  | None => 0%Q
  end.

(** The four stores [data[pixelIndex + k] = color...] of the render
    loops, into the [Uint8ClampedArray] of the canvas image. *)
Definition putPixel (image : list Z) (pixelIndex : nat) (c : Color) : list Z :=
  <[(pixelIndex + 3)%nat := Js.toUint8Clamped (a c)]>
    (<[(pixelIndex + 2)%nat := Js.toUint8Clamped (b c)]>
       (<[(pixelIndex + 1)%nat := Js.toUint8Clamped (g c)]>
          (<[pixelIndex := Js.toUint8Clamped (r c)]> image))).

(** One pixel of [renderUpscaled]: look the intensity up, map it to a
    colour, store the colour. *)
Definition renderPixel (data : list Q) (heatmapIndex : nat)
    (image : list Z) (pixelIndex : nat) : list Z :=
  putPixel image pixelIndex (intensityToColor (intensityAt data heatmapIndex)).

Definition validColor (c : Color) : Prop :=
  (0 <= r c <= 255) /\ (0 <= g c <= 255) /\ (0 <= b c <= 255) /\
  (0 <= a c <= 204).

(** ** The render loops *)

(** The heat map handed over by the simulation. *)
Record MemoryHeatmapData := {
  width : Z;
  height : Z;
  data : list Q
}.

(** The renderer: the size of the canvas in pixels and the pre-allocated
    image, four bytes a pixel, row by row. *)
Record Renderer := {
  this_width : nat;
  this_height : nat;
  imageData : option (list Z)
}.

(** [ctx.createImageData(width, height)]: transparent black. *)
Definition createImageData (w h : nat) : list Z := replicate (w * h * 4) 0.

Definition resize (w h : nat) (_ : Renderer) : Renderer :=
  {| this_width := w; this_height := h;
     imageData := Some (createImageData w h) |}.

(** [heatmapData.data[heatmapIndex] || 0] for an integer index, which
    may be negative. *)
Definition intensityAtIndex (values : list Q) (heatmapIndex : Z) : Q :=
  if heatmapIndex <? 0 then 0%Q else intensityAt values (Z.to_nat heatmapIndex).

(** [Math.floor(canvas / scale)], on exact numbers: where the exact
    quotient is an integer the rounded quotient can fall just below it,
    so the cell of a single pixel can differ by one from the one
    computed here; the properties proved about the mapping (its range,
    its order, that it reaches every cell) do not depend on that. *)
Definition heatmapCoordinate (canvas : nat) (scale : Q) : Z :=
  Js.floor (inject_Z (Z.of_nat canvas) / scale).

Definition pixelIndex (w canvasY canvasX : nat) : nat :=
  ((canvasY * w + canvasX) * 4)%nat.

(** The body of the loops of [renderUpscaled]. *)
Definition upscaledPixel (heatmapData : MemoryHeatmapData) (scaleX scaleY : Q)
    (w : nat) (image : list Z) (canvasY canvasX : nat) : list Z :=
  let heatmapX := heatmapCoordinate canvasX scaleX in
  let heatmapY := heatmapCoordinate canvasY scaleY in
  if (heatmapX <? width heatmapData) && (heatmapY <? height heatmapData) then
    let heatmapIndex := heatmapY * width heatmapData + heatmapX in
    let intensity := intensityAtIndex (data heatmapData) heatmapIndex in
    putPixel image (pixelIndex w canvasY canvasX) (intensityToColor intensity)
  else image.

(** The two [for] loops over the canvas, around a loop body. *)
Definition forEachPixel (w h : nat) (body : list Z -> nat -> nat -> list Z)
    (image : list Z) : list Z :=
  fold_left
    (fun image canvasY =>
       fold_left (fun image canvasX => body image canvasY canvasX)
         (seq 0 w) image)
    (seq 0 h) image.

Definition renderUpscaled (heatmapData : MemoryHeatmapData) (scaleX scaleY : Q)
    (w h : nat) (image : list Z) : list Z :=
  forEachPixel w h (upscaledPixel heatmapData scaleX scaleY w) image.

(** [for (i = start; cond(i); i++) body]: a loop that runs at most
    [fuel] times. *)
Fixpoint forWhile {St} (fuel : nat) (i : Z) (cond : Z -> bool)
    (body : St -> Z -> St) (s : St) : St :=
  match fuel with
  | O => s
  | S fuel =>
      if cond i then forWhile fuel (i + 1) cond body (body s i) else s
  end.

(** The sampling loops of [renderDownscaled]: the sum and the number of
    the samples. The bound [h < height] of each loop limits its turns to
    [height - start], which is the fuel given. *)
Definition sampleArea (heatmapData : MemoryHeatmapData)
    (startHeatmapX endHeatmapX startHeatmapY endHeatmapY : Z) : Q * Z :=
  forWhile (Z.to_nat (height heatmapData - startHeatmapY)) startHeatmapY
    (fun hy => (hy <=? endHeatmapY) && (hy <? height heatmapData))
    (fun acc hy =>
       forWhile (Z.to_nat (width heatmapData - startHeatmapX)) startHeatmapX
         (fun hx => (hx <=? endHeatmapX) && (hx <? width heatmapData))
         (fun acc hx =>
            let heatmapIndex := hy * width heatmapData + hx in
            ((fst acc + intensityAtIndex (data heatmapData) heatmapIndex)%Q,
             snd acc + 1))
         acc)
    (0%Q, 0).

Definition averageIntensity (samples : Q * Z) : Q :=
  let '(totalIntensity, sampleCount) := samples in
  if 0 <? sampleCount then (totalIntensity / inject_Z sampleCount)%Q else 0%Q.

(** The body of the loops of [renderDownscaled]. *)
Definition downscaledPixel (heatmapData : MemoryHeatmapData)
    (scaleX scaleY : Q) (w : nat) (image : list Z) (canvasY canvasX : nat)
    : list Z :=
  let startHeatmapX := heatmapCoordinate canvasX scaleX in
  let endHeatmapX := heatmapCoordinate (canvasX + 1) scaleX in
  let startHeatmapY := heatmapCoordinate canvasY scaleY in
  let endHeatmapY := heatmapCoordinate (canvasY + 1) scaleY in
  let avgIntensity :=
    averageIntensity
      (sampleArea heatmapData startHeatmapX endHeatmapX
         startHeatmapY endHeatmapY) in
  putPixel image (pixelIndex w canvasY canvasX) (intensityToColor avgIntensity).

Definition renderDownscaled (heatmapData : MemoryHeatmapData)
    (scaleX scaleY : Q) (w h : nat) (image : list Z) : list Z :=
  forEachPixel w h (downscaledPixel heatmapData scaleX scaleY w) image.

(** [render], for a heat map whose width and height are not 0 (the
    quotients are then finite). Nothing happens without an image or
    without data. *)
Definition render (heatmapData : option MemoryHeatmapData) (this : Renderer)
    : Renderer :=
  match imageData this, heatmapData with
  | Some image, Some heatmapData =>
      let scaleX :=
        (inject_Z (Z.of_nat (this_width this))
         / inject_Z (width heatmapData))%Q in
      let scaleY :=
        (inject_Z (Z.of_nat (this_height this))
         / inject_Z (height heatmapData))%Q in
      let image :=
        if Js.geb scaleX 1 && Js.geb scaleY 1 then
          renderUpscaled heatmapData scaleX scaleY
            (this_width this) (this_height this) image
        else
          renderDownscaled heatmapData scaleX scaleY
            (this_width this) (this_height this) image in
      {| this_width := this_width this; this_height := this_height this;
         imageData := Some image |}
  | _, _ => this
  end.

(** The colour stored at a pixel of the image. *)
Definition pixelAt (image : list Z) (w canvasY canvasX : nat) : option Color :=
  let i := pixelIndex w canvasY canvasX in
  match image !! i, image !! (i + 1)%nat, image !! (i + 2)%nat,
        image !! (i + 3)%nat with
  | Some r, Some g, Some b, Some a => Some {| r := r; g := g; b := b; a := a |}
  | _, _, _, _ => None
  end.

(** The colour stored at the pixel with number [q], counting row by
    row, and the colour that is read back after [c] has been stored:
    each channel goes through the clamping of the byte array. *)
Definition pixelNo (image : list Z) (q : nat) : option Color :=
  pixelAt image 0 0 q.

Definition stored (c : Color) : Color :=
  {| r := Js.toUint8Clamped (r c); g := Js.toUint8Clamped (g c);
     b := Js.toUint8Clamped (b c); a := Js.toUint8Clamped (a c) |}.

(** The image after the loops have visited the pixels before number
    [m]: a visited pixel that [colorAt] gives a colour holds it, every
    other pixel is as it was in [before]. *)
Definition paintedUpTo (w : nat) (colorAt : nat -> nat -> option Color)
    (before : list Z) (m : nat) (image : list Z) : Prop :=
  length image = length before /\
  forall q,
    pixelNo image q
    = if (q <? m)%nat then
        match colorAt (q / w)%nat (q mod w)%nat with
        | Some c => Some (stored c)
        | None => pixelNo before q
        end
      else pixelNo before q.

(** The values a sampling loop goes through: from [start] up to [stop],
    below [bound]. *)
Definition span (start stop bound : Z) : list Z :=
  seqZ start (Z.min (stop + 1) bound - start).

(** The cells [renderDownscaled] samples for one canvas pixel, as
    indices into the data, in the order of the loops. *)
Definition sampledCells (heatmapData : MemoryHeatmapData)
    (startHeatmapX endHeatmapX startHeatmapY endHeatmapY : Z) : list Z :=
  flat_map
    (fun hy =>
       map (fun hx => hy * width heatmapData + hx)
         (span startHeatmapX endHeatmapX (width heatmapData)))
    (span startHeatmapY endHeatmapY (height heatmapData)).

(** The intensities at the given cells, added up in order. *)
Definition sumIntensity (heatmapData : MemoryHeatmapData) (cells : list Z) : Q :=
  fold_left
    (fun total heatmapIndex =>
       (total + intensityAtIndex (data heatmapData) heatmapIndex)%Q)
    cells 0%Q.

(** A heat map of two cells and a canvas of three pixels in a row. *)
Definition sampleHeatmap : MemoryHeatmapData :=
  {| width := 2; height := 1; data := [(1 # 2)%Q; 1%Q] |}.

Definition sampleRenderer : Renderer :=
  resize 3 1 {| this_width := 0; this_height := 0; imageData := None |}.

(** The heat map cell a canvas pixel shows when the heat map is scaled
    up: the nearest one towards the origin. *)
Definition cellOf (cells pixels : Z) (canvas : nat) : Z :=
  Z.of_nat canvas * cells / pixels.

End HeatmapRenderer.

(** ** ControlPanel.ts: buttons, toggles and keyboard shortcuts *)

Module Controls.

Inductive Button :=
| StartButton | PauseButton | ResetButton | StepButton | GenerationButton
| HeatmapButton | TopologyButton | TerritoriesButton | ResourcesButton
| ExportJsonButton | ExportCsvButton.

(** The part of the page the panel reads and writes: the [disabled]
    flag of the five simulation buttons, whether the class list of the
    four toggle buttons contains ['active'], and the speed slider with
    its label. The other buttons are never disabled by the panel. The
    text an export button shows for 1.5 s after a click is not part of
    this state. *)
Record Dom := {
  startDisabled : bool;
  pauseDisabled : bool;
  resetDisabled : bool;
  stepDisabled : bool;
  generationDisabled : bool;
  heatmapActive : bool;
  topologyActive : bool;
  territoriesActive : bool;
  resourcesActive : bool;
  slider : ControlPanel.Panel
}.

Definition withDisabled (start pause reset step generation : bool)
    (d : Dom) : Dom :=
  {| startDisabled := start; pauseDisabled := pause; resetDisabled := reset;
     stepDisabled := step; generationDisabled := generation;
     heatmapActive := heatmapActive d; topologyActive := topologyActive d;
     territoriesActive := territoriesActive d;
     resourcesActive := resourcesActive d; slider := slider d |}.

Definition withActive (heatmap topology territories resources : bool)
    (d : Dom) : Dom :=
  {| startDisabled := startDisabled d; pauseDisabled := pauseDisabled d;
     resetDisabled := resetDisabled d; stepDisabled := stepDisabled d;
     generationDisabled := generationDisabled d;
     heatmapActive := heatmap; topologyActive := topology;
     territoriesActive := territories; resourcesActive := resources;
     slider := slider d |}.

Definition withSlider (p : ControlPanel.Panel) (d : Dom) : Dom :=
  {| startDisabled := startDisabled d; pauseDisabled := pauseDisabled d;
     resetDisabled := resetDisabled d; stepDisabled := stepDisabled d;
     generationDisabled := generationDisabled d;
     heatmapActive := heatmapActive d; topologyActive := topologyActive d;
     territoriesActive := territoriesActive d;
     resourcesActive := resourcesActive d; slider := p |}.

(** The registered callbacks; [W] is the state they act on. A callback
    that was never registered is [None]. *)
Record Callbacks (W : Type) := {
  onStartCallback : option (W -> W);
  onPauseCallback : option (W -> W);
  onResetCallback : option (W -> W);
  onStepCallback : option (W -> W);
  onGenerationCallback : option (W -> W);
  onSpeedChangeCallback : option (Q -> W -> W);
  onHeatmapToggleCallback : option (W -> W);
  onTopologyToggleCallback : option (W -> W);
  onTerritoriesToggleCallback : option (W -> W);
  onResourcesToggleCallback : option (W -> W);
  onExportJsonCallback : option (W -> W);
  onExportCsvCallback : option (W -> W)
}.

Arguments onStartCallback {W}.
Arguments onPauseCallback {W}.
Arguments onResetCallback {W}.
Arguments onStepCallback {W}.
Arguments onGenerationCallback {W}.
Arguments onSpeedChangeCallback {W}.
Arguments onHeatmapToggleCallback {W}.
Arguments onTopologyToggleCallback {W}.
Arguments onTerritoriesToggleCallback {W}.
Arguments onResourcesToggleCallback {W}.
Arguments onExportJsonCallback {W}.
Arguments onExportCsvCallback {W}.

(** [callback?.()]. *)
Definition invoke {W} (callback : option (W -> W)) (w : W) : W :=
  match callback with
  | Some f => f w
  | None => w
  end.

Inductive State := Running | Paused | Reset.

Definition updateButtonStates (state : State) (d : Dom) : Dom :=
  match state with
  | Running => withDisabled true false false true true d
  | Paused => withDisabled false true false false false d
  | Reset => withDisabled false true true false false d
  end.

(** [button.classList.toggle('active')] on one of the four toggle
    buttons. *)
Definition toggleButtonState (button : Button) (d : Dom) : Dom :=
  match button with
  | HeatmapButton =>
      withActive (negb (heatmapActive d)) (topologyActive d)
        (territoriesActive d) (resourcesActive d) d
  | TopologyButton =>
      withActive (heatmapActive d) (negb (topologyActive d))
        (territoriesActive d) (resourcesActive d) d
  | TerritoriesButton =>
      withActive (heatmapActive d) (topologyActive d)
        (negb (territoriesActive d)) (resourcesActive d) d
  | ResourcesButton =>
      withActive (heatmapActive d) (topologyActive d)
        (territoriesActive d) (negb (resourcesActive d)) d
  | _ => d
  end.

(** [initializeUI] on the page as the markup gives it. *)
Definition initializeUI (html : Dom) : Dom :=
  let d := updateButtonStates Reset html in
  withActive (heatmapActive d) (topologyActive d) true true d.

Definition constructor (html : Dom) : Dom := initializeUI html.

Definition isDisabled (button : Button) (d : Dom) : bool :=
  match button with
  | StartButton => startDisabled d
  | PauseButton => pauseDisabled d
  | ResetButton => resetDisabled d
  | StepButton => stepDisabled d
  | GenerationButton => generationDisabled d
  | _ => false
  end.

Section Listeners.

Context {W : Type} (callbacks : Callbacks W).

(** The click listeners [setupEventListeners] installs. *)
Definition clickListener (button : Button) (s : Dom * W) : Dom * W :=
  let '(d, w) := s in
  match button with
  | StartButton =>
      let w := invoke (onStartCallback callbacks) w in
      (updateButtonStates Running d, w)
  | PauseButton =>
      let w := invoke (onPauseCallback callbacks) w in
      (updateButtonStates Paused d, w)
  | ResetButton =>
      let w := invoke (onResetCallback callbacks) w in
      (updateButtonStates Reset d, w)
  | StepButton => (d, invoke (onStepCallback callbacks) w)
  | GenerationButton => (d, invoke (onGenerationCallback callbacks) w)
  | HeatmapButton =>
      let w := invoke (onHeatmapToggleCallback callbacks) w in
      let d := toggleButtonState HeatmapButton d in
      (if heatmapActive d then
         withActive (heatmapActive d) false (territoriesActive d)
           (resourcesActive d) d
       else d, w)
  | TopologyButton =>
      let w := invoke (onTopologyToggleCallback callbacks) w in
      let d := toggleButtonState TopologyButton d in
      (if topologyActive d then
         withActive false (topologyActive d) (territoriesActive d)
           (resourcesActive d) d
       else d, w)
  | TerritoriesButton =>
      let w := invoke (onTerritoriesToggleCallback callbacks) w in
      (toggleButtonState TerritoriesButton d, w)
  | ResourcesButton =>
      let w := invoke (onResourcesToggleCallback callbacks) w in
      (toggleButtonState ResourcesButton d, w)
  | ExportJsonButton => (d, invoke (onExportJsonCallback callbacks) w)
  | ExportCsvButton => (d, invoke (onExportCsvCallback callbacks) w)
  end.

(** A click on a button, by the pointer or by [button.click()]: a
    disabled button dispatches no click event. *)
Definition click (button : Button) (s : Dom * W) : Dom * W :=
  if isDisabled button (fst s) then s else clickListener button s.

(** The slider's [input] listener; [value] is [parseFloat] of the value
    the slider has taken. The value is passed on as it is. *)
Definition inputListener (value : Q) (s : Dom * W) : Dom * W :=
  let '(d, w) := s in
  let p := slider d in
  let p :=
    {| ControlPanel.speedSlider_value := value;
       ControlPanel.speedValue_tenths := Js.toFixed1 value;
       ControlPanel.speedCallbackLog :=
         ControlPanel.speedCallbackLog p ++ [value] |} in
  (withSlider p d,
   match onSpeedChangeCallback callbacks with
   | Some f => f value w
   | None => w
   end).

(** [adjustSpeed] with the callback it ends with. *)
Definition adjustSpeed (delta : Q) (s : Dom * W) : Dom * W :=
  let '(d, w) := s in
  let p := ControlPanel.adjustSpeed delta (slider d) in
  (withSlider p d,
   match onSpeedChangeCallback callbacks with
   | Some f => f (ControlPanel.speedSlider_value p) w
   | None => w
   end).

(** [handleKeyboardShortcuts]; [targetIsInput] is
    [event.target instanceof HTMLInputElement] and [key] is
    [event.key]. *)
Definition handleKeyboardShortcuts (targetIsInput : bool) (key : string)
    (s : Dom * W) : Dom * W :=
  if targetIsInput then s
  else
    let k := Js.toLowerCase key in
    if String.eqb k " " || String.eqb k "enter" then
      if negb (startDisabled (fst s)) then click StartButton s
      else if negb (pauseDisabled (fst s)) then click PauseButton s
      else s
    else if String.eqb k "r" then click ResetButton s
    else if String.eqb k "s" then click StepButton s
    else if String.eqb k "g" then click GenerationButton s
    else if String.eqb k "h" then click HeatmapButton s
    else if String.eqb k "t" then click TopologyButton s
    else if String.eqb k "m" then click TerritoriesButton s
    else if String.eqb k "n" then click ResourcesButton s
    else if String.eqb k "j" then click ExportJsonButton s
    else if String.eqb k "c" then click ExportCsvButton s
    else if String.eqb k "arrowup" || String.eqb k "+" then
      adjustSpeed (1 # 10) s
    else if String.eqb k "arrowdown" || String.eqb k "-" then
      adjustSpeed (- (1 # 10)) s
    else s.

(** What can happen to the panel. *)
Inductive Event :=
| Click (button : Button)
| Input (value : Q)
| KeyDown (targetIsInput : bool) (key : string).

Definition handle (e : Event) (s : Dom * W) : Dom * W :=
  match e with
  | Click button => click button s
  | Input value => inputListener value s
  | KeyDown targetIsInput key => handleKeyboardShortcuts targetIsInput key s
  end.

Definition handleEvents (es : list Event) (s : Dom * W) : Dom * W :=
  fold_left (fun acc e => handle e acc) es s.

(** What an event can come to: nothing, the listener of an enabled
    button, a speed adjustment, or the slider's listener. *)
Inductive Outcome (s : Dom * W) : Dom * W -> Prop :=
| Ignored : Outcome s s
| Clicked button :
    isDisabled button (fst s) = false ->
    Outcome s (clickListener button s)
| Adjusted delta : Outcome s (adjustSpeed delta s)
| Slid value : Outcome s (inputListener value s).

End Listeners.

(** [setSimulationState]. *)
Definition setSimulationState (running : bool) (d : Dom) : Dom :=
  updateButtonStates (if running then Running else Paused) d.

(** The panel shows a running simulation: start is disabled. *)
Definition showsRunning (d : Dom) : bool := startDisabled d.

(** What the five [disabled] flags keep: exactly one of start and pause
    is enabled, step and generation are enabled together with start,
    and reset is disabled only while start is enabled. *)
Definition coherentButtons (d : Dom) : Prop :=
  pauseDisabled d = negb (startDisabled d) /\
  stepDisabled d = startDisabled d /\
  generationDisabled d = startDisabled d /\
  (resetDisabled d = true -> startDisabled d = false).

End Controls.

(** ** Application.ts: the page behind the panel *)

Module Application.

Record VisualizationSettings := {
  showHeatmap : bool;
  showTopology : bool;
  showTerritories : bool;
  showResources : bool;
  showTrails : bool;
  simulationSpeed : Q
}.

(** The calls the application makes on the WebAssembly simulation that
    change it or export from it. *)
Inductive WasmCall :=
| InitializePopulation (size : Z)
| Start
| Pause
| Reset
| Step
| RunGeneration
| ExportData (format : string).

(** The application: [simulation] tells whether [this.simulation] has
    been created, the two [Shown] flags whether the overlay canvas has
    [display: block] rather than [none], and [wasmCalls] lists the calls
    made on the simulation, oldest first. What is drawn on the canvases
    and written into the header is not part of this state. *)
Record App := {
  simulation : bool;
  isRunning : bool;
  lastFrameTime : Q;
  frameCount : Z;
  settings : VisualizationSettings;
  heatmapShown : bool;
  networkShown : bool;
  wasmCalls : list WasmCall
}.

Definition withSettings (v : VisualizationSettings) (a : App) : App :=
  {| simulation := simulation a; isRunning := isRunning a;
     lastFrameTime := lastFrameTime a; frameCount := frameCount a;
     settings := v; heatmapShown := heatmapShown a;
     networkShown := networkShown a; wasmCalls := wasmCalls a |}.

Definition withShown (heatmap network : bool) (a : App) : App :=
  {| simulation := simulation a; isRunning := isRunning a;
     lastFrameTime := lastFrameTime a; frameCount := frameCount a;
     settings := settings a; heatmapShown := heatmap;
     networkShown := network; wasmCalls := wasmCalls a |}.

(** The simulation is called and [isRunning] is set. *)
Definition called (cs : list WasmCall) (running : bool) (a : App) : App :=
  {| simulation := simulation a; isRunning := running;
     lastFrameTime := lastFrameTime a; frameCount := frameCount a;
     settings := settings a; heatmapShown := heatmapShown a;
     networkShown := networkShown a; wasmCalls := wasmCalls a ++ cs |}.

Definition start (a : App) : App :=
  if simulation a then called [Start] true a else a.

Definition pause (a : App) : App :=
  if simulation a then called [Pause] false a else a.

Definition reset (a : App) : App :=
  if simulation a then called [Reset; InitializePopulation 100] false a
  else a.

Definition step (a : App) : App :=
  if simulation a then called [Step] (isRunning a) a else a.

Definition runGeneration (a : App) : App :=
  if simulation a then called [RunGeneration] (isRunning a) a else a.

Definition exportData (format : string) (a : App) : App :=
  if simulation a then called [ExportData format] (isRunning a) a else a.

Definition toggleHeatmap (a : App) : App :=
  let v := settings a in
  let shown := negb (showHeatmap v) in
  if shown then
    withShown true false
      (withSettings
         {| showHeatmap := shown; showTopology := false;
            showTerritories := showTerritories v;
            showResources := showResources v; showTrails := showTrails v;
            simulationSpeed := simulationSpeed v |} a)
  else
    withShown false (networkShown a)
      (withSettings
         {| showHeatmap := shown; showTopology := showTopology v;
            showTerritories := showTerritories v;
            showResources := showResources v; showTrails := showTrails v;
            simulationSpeed := simulationSpeed v |} a).

Definition toggleTopology (a : App) : App :=
  let v := settings a in
  let shown := negb (showTopology v) in
  if shown then
    withShown false true
      (withSettings
         {| showHeatmap := false; showTopology := shown;
            showTerritories := showTerritories v;
            showResources := showResources v; showTrails := showTrails v;
            simulationSpeed := simulationSpeed v |} a)
  else
    withShown (heatmapShown a) false
      (withSettings
         {| showHeatmap := showHeatmap v; showTopology := shown;
            showTerritories := showTerritories v;
            showResources := showResources v; showTrails := showTrails v;
            simulationSpeed := simulationSpeed v |} a).

Definition toggleTerritories (a : App) : App :=
  let v := settings a in
  withSettings
    {| showHeatmap := showHeatmap v; showTopology := showTopology v;
       showTerritories := negb (showTerritories v);
       showResources := showResources v; showTrails := showTrails v;
       simulationSpeed := simulationSpeed v |} a.

Definition toggleResources (a : App) : App :=
  let v := settings a in
  withSettings
    {| showHeatmap := showHeatmap v; showTopology := showTopology v;
       showTerritories := showTerritories v;
       showResources := negb (showResources v); showTrails := showTrails v;
       simulationSpeed := simulationSpeed v |} a.

Definition setSpeed (speed : Q) (a : App) : App :=
  let v := settings a in
  withSettings
    {| showHeatmap := showHeatmap v; showTopology := showTopology v;
       showTerritories := showTerritories v;
       showResources := showResources v; showTrails := showTrails v;
       simulationSpeed := speed |} a.

(** The callbacks [setupEventListeners] registers on the panel. *)
Definition callbacks : Controls.Callbacks App :=
  {| Controls.onStartCallback := Some start;
     Controls.onPauseCallback := Some pause;
     Controls.onResetCallback := Some reset;
     Controls.onStepCallback := Some step;
     Controls.onGenerationCallback := Some runGeneration;
     Controls.onSpeedChangeCallback := Some setSpeed;
     Controls.onHeatmapToggleCallback := Some toggleHeatmap;
     Controls.onTopologyToggleCallback := Some toggleTopology;
     Controls.onTerritoriesToggleCallback := Some toggleTerritories;
     Controls.onResourcesToggleCallback := Some toggleResources;
     Controls.onExportJsonCallback := Some (exportData "json");
     Controls.onExportCsvCallback := Some (exportData "csv") |}.

(** [setupCanvases], as far as the state goes: both overlays are
    hidden. *)
Definition setupCanvases (a : App) : App := withShown false false a.

(** [initialize], when the WebAssembly module loads: the simulation is
    created and populated, and the canvases are set up. *)
Definition initialize (a : App) : App :=
  setupCanvases
    {| simulation := true; isRunning := isRunning a;
       lastFrameTime := lastFrameTime a; frameCount := frameCount a;
       settings := settings a; heatmapShown := heatmapShown a;
       networkShown := networkShown a;
       wasmCalls := wasmCalls a ++ [InitializePopulation 100] |}.

(** [1000 / (60 * simulationSpeed)]; [None] stands for the infinite
    quotient a speed of 0 gives. *)
Definition targetFrameTime (v : VisualizationSettings) : option Q :=
  let d := (60 * simulationSpeed v)%Q in
  if Qeq_bool d 0 then None else Some (1000 / d)%Q.

(** One turn of the render loop at time [currentTime]; the calls on the
    performance monitor are those of [PerformanceMonitor]. *)
Definition render (currentTime : Q) (a : App) : App :=
  let a :=
    if isRunning a && simulation a then
      let deltaTime := (currentTime - lastFrameTime a)%Q in
      match targetFrameTime (settings a) with
      | Some target =>
          if Js.geb deltaTime target then
            {| simulation := simulation a; isRunning := isRunning a;
               lastFrameTime := currentTime; frameCount := frameCount a;
               settings := settings a; heatmapShown := heatmapShown a;
               networkShown := networkShown a;
               wasmCalls := wasmCalls a ++ [Step] |}
          else a
      | None => a
      end
    else a in
  {| simulation := simulation a; isRunning := isRunning a;
     lastFrameTime := lastFrameTime a; frameCount := frameCount a + 1;
     settings := settings a; heatmapShown := heatmapShown a;
     networkShown := networkShown a; wasmCalls := wasmCalls a |}.

(** The page: the panel's part of the document and the application. *)
Definition Page : Type := Controls.Dom * App.

(** The field initialisers and the constructor. [html] is the panel's
    part of the document as the markup gives it, and the two flags tell
    whether the style sheet shows the overlay canvases. *)
Definition constructor (html : Controls.Dom) (heatmap network : bool) : Page :=
  (Controls.constructor html,
   {| simulation := false; isRunning := false; lastFrameTime := 0;
      frameCount := 0;
      settings :=
        {| showHeatmap := false; showTopology := false;
           showTerritories := true; showResources := true;
           showTrails := false; simulationSpeed := 1 |};
      heatmapShown := heatmap; networkShown := network; wasmCalls := [] |}).

Inductive Event :=
| Panel (e : Controls.Event)
| Resize
| Initialized
| AnimationFrame (currentTime : Q).

Definition handle (e : Event) (p : Page) : Page :=
  match e with
  | Panel e => Controls.handle callbacks e p
  | Resize => (fst p, setupCanvases (snd p))
  | Initialized => (fst p, initialize (snd p))
  | AnimationFrame currentTime => (fst p, render currentTime (snd p))
  end.

Definition handleEvents (es : list Event) (p : Page) : Page :=
  fold_left (fun acc e => handle e acc) es p.

(** A request to step by hand: the step or generation button, or its
    shortcut. *)
Definition manualStep (e : Event) : bool :=
  match e with
  | Panel (Controls.Click Controls.StepButton)
  | Panel (Controls.Click Controls.GenerationButton) => true
  | Panel (Controls.KeyDown _ key) =>
      let k := Js.toLowerCase key in String.eqb k "s" || String.eqb k "g"
  | _ => false
  end.

Definition isInitialized (e : Event) : bool :=
  match e with
  | Initialized => true
  | _ => false
  end.

Definition isInput (e : Event) : bool :=
  match e with
  | Panel (Controls.Input _) => true
  | _ => false
  end.

Definition isResize (e : Event) : bool :=
  match e with
  | Resize => true
  | _ => false
  end.

(** While the application runs, the panel shows it and the simulation
    exists. *)
Definition guarded (p : Page) : Prop :=
  Controls.coherentButtons (fst p) /\
  (isRunning (snd p) = true ->
   Controls.startDisabled (fst p) = true /\ simulation (snd p) = true).

(** The simulation exists and the panel shows whether it runs. *)
Definition synced (p : Page) : Prop :=
  simulation (snd p) = true /\
  isRunning (snd p) = Controls.showsRunning (fst p).

(** Nothing has been asked of the simulation, which does not exist. *)
Definition pristine (p : Page) : Prop :=
  simulation (snd p) = false /\ isRunning (snd p) = false /\
  wasmCalls (snd p) = [].

(** The panel and the settings agree on the four toggles. *)
Definition togglesAgree (p : Page) : Prop :=
  Controls.heatmapActive (fst p) = showHeatmap (settings (snd p)) /\
  Controls.topologyActive (fst p) = showTopology (settings (snd p)) /\
  Controls.territoriesActive (fst p) = showTerritories (settings (snd p)) /\
  Controls.resourcesActive (fst p) = showResources (settings (snd p)).

(** A list of calls in which every reset is followed at once by the
    population being initialised with 100 warriors. *)
Definition repopulating (calls : list WasmCall) : Prop :=
  forall i, calls !! i = Some Reset ->
    calls !! S i = Some (InitializePopulation 100).

(** The discipline of the calls made on the simulation: the first call
    populates it, and so does the call after every reset. *)
Definition disciplined (calls : list WasmCall) : Prop :=
  repopulating calls /\
  forall c, calls !! 0%nat = Some c -> c = InitializePopulation 100.

(** The calls are disciplined, and there are none before the
    simulation exists. *)
Definition orderly (a : App) : Prop :=
  disciplined (wasmCalls a) /\
  (simulation a = true -> wasmCalls a <> []) /\
  (simulation a = false -> wasmCalls a = []).

(** At most one of the two overlays is switched on. *)
Definition oneOverlay (v : VisualizationSettings) : Prop :=
  showHeatmap v && showTopology v = false.

(** An overlay canvas is shown only while its setting is on. *)
Definition shownWhenOn (a : App) : Prop :=
  (heatmapShown a = true -> showHeatmap (settings a) = true) /\
  (networkShown a = true -> showTopology (settings a) = true).

(** Each overlay canvas is shown exactly when its setting is on. *)
Definition shownAsSet (a : App) : Prop :=
  heatmapShown a = showHeatmap (settings a) /\
  networkShown a = showTopology (settings a).

Definition staysLaidOut (e : Event) : bool :=
  negb (isResize e) && negb (isInitialized e).

(** A page whose markup disables nothing and marks no button active,
    with the slider at 1.0, and a short session on it. *)
Definition sampleMarkup : Controls.Dom :=
  {| Controls.startDisabled := false; Controls.pauseDisabled := false;
     Controls.resetDisabled := false; Controls.stepDisabled := false;
     Controls.generationDisabled := false;
     Controls.heatmapActive := false; Controls.topologyActive := false;
     Controls.territoriesActive := false; Controls.resourcesActive := false;
     Controls.slider :=
       {| ControlPanel.speedSlider_value := 1;
          ControlPanel.speedValue_tenths := 10;
          ControlPanel.speedCallbackLog := [] |} |}.

Definition sampleSession : list Event :=
  [Panel (Controls.Click Controls.StartButton);
   Panel (Controls.KeyDown false "H");
   AnimationFrame 20;
   Panel (Controls.KeyDown false "ArrowUp");
   Panel (Controls.Click Controls.TopologyButton);
   AnimationFrame 40].

End Application.

(** ** MainRenderer.ts: the arena view *)

Module MainRenderer.

Record WarriorData := {
  id : Q;
  x : Q;
  y : Q;
  energy : Q;
  age : Q;
  fitness : Q;
  lineage_depth : Q;
  species_id : option Q;
  action : string
}.

Record ResourceData := {
  resource_x : Q;
  resource_y : Q;
  energy_value : Q;
  resource_type : string
}.

Record TerritoryData := {
  center_x : Q;
  center_y : Q;
  radius : Q;
  owner_id : option Q;
  resource_multiplier : Q
}.

(** [render]: the scale and the offsets that place the 64 x 64 arena on
    a canvas of the given size, on exact numbers (a rounded coordinate
    can differ in its last digits). *)
Definition scale (width height : Q) : Q :=
  (Qmin (width / 64) (height / 64) * (8 # 10))%Q.

Definition offsetX (width height : Q) : Q :=
  ((width - 64 * scale width height) / 2)%Q.

Definition offsetY (width height : Q) : Q :=
  ((height - 64 * scale width height) / 2)%Q.

(** Where the renderers put an arena coordinate on the canvas:
    [warrior.x * scale + offsetX] and the like. *)
Definition canvasX (width height c : Q) : Q :=
  (c * scale width height + offsetX width height)%Q.

Definition canvasY (width height c : Q) : Q :=
  (c * scale width height + offsetY width height)%Q.

(** [renderTerritories]: whether [territory.owner_id] is truthy, and the
    opacity of the fill. *)
Definition owned (t : TerritoryData) : bool :=
  match owner_id t with
  | Some o => negb (Qeq_bool o 0)
  | None => false
  end.

Definition territoryAlpha (t : TerritoryData) : Q :=
  Qmin (resource_multiplier t * (1 # 10)) (3 # 10).

(** [renderResources]: the radius of the resource core. *)
Definition resourceSize (r : ResourceData) : Q :=
  Qmax 2 (Qmin 6 (energy_value r / 10)).

(** [renderWarriors]: the energy ratio, the radius and the colour of a
    warrior, and the number of lineage dots under it. *)
Definition energyRatio (w : WarriorData) : Q := Qmin (energy w / 100) 1.

Definition warriorSize (w : WarriorData) : Q := (3 + energyRatio w * 4)%Q.

Definition warriorColor (w : WarriorData) : string :=
  if Js.ltb (7 # 10) (energyRatio w) then "#00ff88"
  else if Js.ltb (4 # 10) (energyRatio w) then "#0088ff"
  else "#ff8800".

Definition glowRadius (w : WarriorData) : option Q :=
  if Js.ltb 50 (fitness w) then Some (warriorSize w + fitness w / 20)%Q
  else None.

Definition lineageDots (w : WarriorData) : Q :=
  if Js.ltb 0 (lineage_depth w) then Qmin (lineage_depth w) 5 else 0%Q.

(** [calculatePopulationDensity]. *)
Definition gridSize : Z := 8.

Definition noDensity : list (list Q) :=
  replicate (Z.to_nat gridSize) (replicate (Z.to_nat gridSize) 0%Q).

(** [Math.floor((c / 64) * gridSize)], on exact numbers (the rounded
    computation gives the same cell, except that a negative coordinate
    too small for the quotient to be represented rounds to cell 0). *)
Definition gridCoordinate (c : Q) : Z :=
  Js.floor ((c / 64) * inject_Z gridSize).

Definition onGrid (gridX gridY : Z) : bool :=
  (0 <=? gridX) && (gridX <? gridSize) && (0 <=? gridY) && (gridY <? gridSize).

(** One turn of the loop: [density[gridY][gridX] += warrior.energy]
    under the bounds check. *)
Definition addDensity (density : list (list Q)) (w : WarriorData)
    : list (list Q) :=
  let gridX := gridCoordinate (x w) in
  let gridY := gridCoordinate (y w) in
  if onGrid gridX gridY then
    alter (alter (fun d => (d + energy w)%Q) (Z.to_nat gridX))
      (Z.to_nat gridY) density
  else density.

Definition calculatePopulationDensity (warriors : list WarriorData)
    : list (list Q) :=
  fold_left addDensity warriors noDensity.

(** The warrior lies off the arena: at or beyond 64 in some direction,
    or a unit or more below 0. *)
Definition offArena (w : WarriorData) : Prop :=
  (64 <= x w \/ 64 <= y w \/ x w <= -1 \/ y w <= -1)%Q.

(** No cell of the grid is negative. *)
Definition nonNegative (density : list (list Q)) : Prop :=
  Forall (Forall (fun d => 0 <= d)%Q) density.

(** A grid of [gridSize] rows of [gridSize] cells. *)
Definition square (density : list (list Q)) : Prop :=
  length density = Z.to_nat gridSize /\
  Forall (fun row => length row = Z.to_nat gridSize) density.

End MainRenderer.

(** ** NetworkRenderer.ts: the network view *)

Module NetworkRenderer.

(** A node of the topology; identifiers are integers. *)
Record NetworkNode := {
  id : Z;
  x : Q;
  y : Q;
  activation : Q;
  node_type : string
}.

Record NetworkConnection := {
  from : Z;
  to : Z;
  weight : Q
}.

(** An entry of the layout map. *)
Record Placed := {
  placed_x : Q;
  placed_y : Q;
  node : NetworkNode
}.

Definition minNodeRadius : Q := 5.
Definition maxNodeRadius : Q := 15.

(** [organizeNodesByLayers]: a map from node type to the nodes of that
    type. *)
Definition addToLayer (layers : gmap string (list NetworkNode))
    (n : NetworkNode) : gmap string (list NetworkNode) :=
  let nodeType := node_type n in
  let layers :=
    match layers !! nodeType with
    | Some _ => layers
    | None => <[nodeType := []]> layers
    end in
  alter (fun layer => Js.push layer n) nodeType layers.

Definition organizeNodesByLayers (nodes : list NetworkNode)
    : gmap string (list NetworkNode) :=
  fold_left addToLayer nodes ∅.

Definition layerOrder : list string := ["input"; "hidden"; "output"].

Definition layerX (width : Q) (layerIndex : nat) : Q :=
  (width / (inject_Z (Z.of_nat (length layerOrder)) + 1)
   * (inject_Z (Z.of_nat layerIndex) + 1))%Q.

Definition layerY (height : Q) (count nodeIndex : nat) : Q :=
  (height / (inject_Z (Z.of_nat count) + 1)
   * (inject_Z (Z.of_nat nodeIndex) + 1))%Q.

(** [calculateLayout]: the two nested [forEach] loops; a later node
    replaces an earlier one with the same identifier. *)
Definition calculateLayout (width height : Q)
    (layers : gmap string (list NetworkNode)) : gmap Z Placed :=
  Js.forEach layerOrder
    (fun layoutNodes layerType layerIndex =>
       let layerNodes := default [] (layers !! layerType) in
       Js.forEach layerNodes
         (fun layoutNodes n nodeIndex =>
            <[id n := {| placed_x := layerX width layerIndex;
                         placed_y := layerY height (length layerNodes) nodeIndex;
                         node := n |}]> layoutNodes)
         layoutNodes)
    ∅.

(** [renderConnections]: whether a connection is drawn, and how. *)
Definition drawn (layoutNodes : gmap Z Placed) (c : NetworkConnection) : bool :=
  match layoutNodes !! from c, layoutNodes !! to c with
  | Some _, Some _ => true
  | _, _ => false
  end.

Definition connectionAlpha (c : NetworkConnection) : Q :=
  Qmin (Js.abs (weight c) * (8 # 10) + (2 # 10)) 1.

Definition connectionColor (c : NetworkConnection) : string :=
  if Js.geb (weight c) 0 then "#00ff88" else "#ff4444".

Definition connectionWidth (c : NetworkConnection) : Q :=
  Qmax (1 # 2) (Qmin 4 (Js.abs (weight c) * 3)).

(** The first colour stop of the gradient:
    [color + Math.floor(alpha * 255).toString(16).padStart(2, '0')]. *)
Definition alphaHex (c : NetworkConnection) : string :=
  Js.padStart2 (Js.toString16 (Js.floor (connectionAlpha c * 255))).

Definition gradientStart (c : NetworkConnection) : string :=
  (connectionColor c ++ alphaHex c)%string.

(** [renderNodes]: the radius and the colour of a node. *)
Definition nodeRadius (n : NetworkNode) : Q :=
  (minNodeRadius + (maxNodeRadius - minNodeRadius) * Js.abs (activation n))%Q.

Definition nodeColor (n : NetworkNode) : string :=
  if String.eqb (node_type n) "input" then "#0088ff"
  else if String.eqb (node_type n) "output" then "#ff8800"
  else "#00ff88".

(** [renderInfoPanel]: the count of the nodes of a type,
    [nodes.filter(n => n.node_type === t).length]. *)
Definition ofType (layerType : string) (n : NetworkNode) : bool :=
  String.eqb (node_type n) layerType.

Definition countOfType (layerType : string) (nodes : list NetworkNode) : nat :=
  length (List.filter (ofType layerType) nodes).

(** A character is a lower-case hexadecimal digit. *)
Definition isHexDigit (c : Ascii.ascii) : bool :=
  existsb (Ascii.eqb c) (String.list_ascii_of_string "0123456789abcdef").

(** What the layout holds under a key: a node of the topology with
    that identifier, in the column of its layer, at one of the evenly
    spaced heights of that layer. *)
Definition slotted (width height : Q) (nodes : list NetworkNode) (key : Z)
    (p : Placed) : Prop :=
  In (node p) nodes /\ id (node p) = key /\
  exists layerIndex nodeIndex,
    layerOrder !! layerIndex = Some (node_type (node p)) /\
    (nodeIndex < countOfType (node_type (node p)) nodes)%nat /\
    placed_x p = layerX width layerIndex /\
    placed_y p
      = layerY height (countOfType (node_type (node p)) nodes) nodeIndex.

(** A placed node lies strictly inside the canvas. *)
Definition inside (width height : Q) (p : Placed) : Prop :=
  (0 < placed_x p /\ placed_x p < width /\
   0 < placed_y p /\ placed_y p < height)%Q.

(** A small topology: one node in each layer and one of an unknown
    type. *)
Definition sampleHidden : NetworkNode :=
  {| id := 2; x := 0; y := 0; activation := 1 # 2; node_type := "hidden" |}.

Definition sampleNodes : list NetworkNode :=
  [ {| id := 1; x := 0; y := 0; activation := 1; node_type := "input" |};
    sampleHidden;
    {| id := 3; x := 0; y := 0; activation := - (3 # 2);
       node_type := "output" |};
    {| id := 4; x := 0; y := 0; activation := 0; node_type := "bias" |} ].

End NetworkRenderer.

(** ** The simulation core, from the spec *)

Module Core.

(** The simulation core (the Rust engine behind [WasmSimulation]) is not
    among the sources: the front end only declares and calls it. The
    definitions of this module are modelled from the spec. What the spec
    leaves open is a parameter ([Policy], [Config]). *)

(** Modelled from the spec: the fixed genome size in bytes (at most 64). *)
Definition GENOME_SIZE : nat := 64.

(** Modelled from the spec: the network has 8 sensor inputs and 4 action
    scores. *)
Definition INPUTS : nat := 8.
Definition OUTPUTS : nat := 4.

(** Modelled from the spec: a genome is a byte sequence. *)
Definition Genome := list Byte.byte.

(** Modelled from the spec: the closed set of actions, in the fixed
    priority order move > replicate > attack > defend. *)
Inductive Action := Move | Replicate | Attack | Defend.

Definition priority : list Action := [Move; Replicate; Attack; Defend].

(** Modelled from the spec: the two opcodes that are hooks for learning
    and self-modification within a life. *)
Inductive Hook := BACKPROP | MUTATE.

(** Modelled from the spec: the decoded network, an input layer of 8
    values, one hidden layer and an output layer of 4 scores; a row of
    [hidden_weights] holds the weights into one hidden neuron, a row of
    [output_weights] the weights into one output. *)
Record Network := {
  n_inputs : nat;
  n_hidden : nat;
  n_outputs : nat;
  hidden_weights : list (list Q);
  output_weights : list (list Q)
}.

(** Modelled from the spec: a position in the bounded cell grid. *)
Definition Pos : Type := Z * Z.

(** Modelled from the spec: the stable id of a warrior, unique for the
    lifetime of the simulation. *)
Definition WarriorId := nat.

(** Modelled from the spec: what a cell holds besides nothing: a
    resource with its energy value and type tag, a warrior, or a terrain
    feature. An empty cell is a position without entry. *)
Inductive Cell :=
| Resource (energy_value : Z) (resource_type : string)
| Occupant (id : WarriorId)
| Terrain.

(** Modelled from the spec: a warrior. [w_network] is the cached
    network and [w_learned] tells whether BACKPROP has nudged it since it
    was decoded from [w_genome]; [w_resources] is the
    resource-acquisition total, [w_action] the last action and
    [w_action_tick] the tick it was taken in. *)
Record Warrior := {
  w_id : WarriorId;
  w_genome : Genome;
  w_network : Network;
  w_learned : bool;
  w_pos : Pos;
  w_energy : Z;
  w_age : nat;
  w_resources : Z;
  w_generation : nat;
  w_lineage_depth : nat;
  w_action : option Action;
  w_action_tick : nat
}.

(** Modelled from the spec: the configuration record, with the grid
    dimensions, the population bound, the hidden-layer size, the energy
    costs (that of MUTATE among them), whether BACKPROP is configured to
    write back into the genome, and the options of the evolution
    engine. *)
Record Config := {
  grid_width : Z;
  grid_height : Z;
  max_population : nat;
  hidden_size : nat;
  initial_energy : Z;
  survival_cost : Z;
  move_cost : Z;
  attack_cost : Z;
  defend_cost : Z;
  replication_cost : Z;
  mutate_cost : Z;
  write_back : bool;
  attack_damage : Z;
  defend_reduction : Z;
  mutation_rate : Q;
  ticks_per_generation : nat;
  tournament_size : nat;
  elitism_rate : Q;
  fitness_sharing : bool;
  compatibility_threshold : Q;
  survival_weight : Q;
  resource_weight : Q
}.

(** Modelled from the spec: an effect of Environment Dynamics on one
    cell: a resource spawn, or the deletion or relocation of a resource
    by a compaction event. *)
Inductive EnvEvent :=
| Spawn (p : Pos) (energy_value : Z) (resource_type : string)
| Clear (p : Pos)
| Relocate (p q : Pos).

(** Modelled from the spec: what the spec leaves to configuration or to
    the implementer: the layout of the genome (the gene that encodes a
    connection) and its quantization table, the activation function, the
    sensor semantics, the neighbourhood of a cell in scan order, the
    random generator, a draw read as a probability, the perturbation of
    a weight byte, the parent each byte of a child is taken from
    (single-point, uniform, ...), the environment's events per tick and
    the cell a new warrior is seeded at (both may read the grid), the
    genome distance, the hooks a warrior executes in a cycle (from its
    state and the sensor values), the local reward signal of BACKPROP
    (the nudge for the weight in a layer, row and column) and the byte a
    gene takes when BACKPROP writes back. *)
Class Policy := {
  gene_of_connection : nat -> nat;
  weight_of_byte : Byte.byte -> Q;
  activation : Q -> Q;
  read_sensors : gmap Pos Cell -> Pos -> list Q;
  adjacent : Pos -> list Pos;
  rng_next : Z -> Z;
  chance : Z -> Q;
  perturb : Byte.byte -> Z -> Byte.byte;
  crossover_mask : Z -> nat -> bool;
  environment : gmap Pos Cell -> Z -> nat -> list EnvEvent;
  spawn_site : gmap Pos Cell -> Z -> Pos;
  compatibility : Genome -> Genome -> Q;
  hooks : Warrior -> list Q -> list Hook;
  reward_signal : Network -> list Q -> nat -> nat -> nat -> Q;
  requantize : Network -> nat -> Byte.byte -> Byte.byte
}.

(** Modelled from the spec: an out-of-range weight is clamped into
    [-1, 1]. *)
Definition clamp_weight (q : Q) : Q := Qmax (-1) (Qmin 1 q).

(** Modelled from the spec: the byte that encodes connection [k]: the
    index of the connection's gene is wrapped around the fixed size, and
    the byte is read from the byte sequence at that index; there is no
    byte to read when the sequence ends before it. *)
Definition gene `{Policy} (bytes : Genome) (k : nat) : option Byte.byte :=
  bytes !! (gene_of_connection k mod GENOME_SIZE)%nat.

(** Modelled from the spec: the weight of connection [k]: the quantized
    value of its byte, clamped. *)
Definition weight `{Policy} (bytes : Genome) (k : nat) : option Q :=
  b ← gene bytes k; Some (clamp_weight (weight_of_byte b)).

(** The weights of the [n] connections from [first] on. *)
Definition weights `{Policy} (bytes : Genome) (first n : nat) : option (list Q) :=
  mapM (fun i => weight bytes (first + i)%nat) (seq 0 n).

(** Modelled from the spec: [decode(genome) -> Network], from the bytes
    and the configured hidden size: the connections into the hidden
    neurons come first, neuron by neuron, then those into the outputs.
    Decoding fails when a byte is missing. *)
Definition decode `{Policy} (hidden : nat) (bytes : Genome) : option Network :=
  hw ← mapM (fun j => weights bytes (j * INPUTS) INPUTS) (seq 0 hidden);
  ow ← mapM (fun k => weights bytes (INPUTS * hidden + k * hidden) hidden)
          (seq 0 OUTPUTS);
  Some {| n_inputs := INPUTS; n_hidden := hidden; n_outputs := OUTPUTS;
          hidden_weights := hw; output_weights := ow |}.

(** The weighted sum of a neuron's inputs. *)
Definition dot (ws xs : list Q) : Q :=
  fold_right Qplus 0%Q (zip_with Qmult ws xs).

(** Modelled from the spec: Infer, the forward pass of the network with
    the configured activation on the hidden layer. *)
Definition forward (act : Q -> Q) (n : Network) (sensors : list Q) : list Q :=
  let hidden := map (fun row => act (dot row sensors)) (hidden_weights n) in
  map (fun row => dot row hidden) (output_weights n).

(** Modelled from the spec: Decode-Action, the highest score wins and a
    tie goes to the action that comes first in the priority order. *)
Fixpoint best_action (best : Action) (score : Q) (rest : list (Action * Q)) : Action :=
  match rest with
  | [] => best
  | (a, s) :: rest' =>
      if Qle_bool s score then best_action best score rest'
      else best_action a s rest'
  end.

Definition decode_action (scores : list Q) : Action :=
  match zip priority scores with
  | [] => Move
  | (a, s) :: rest => best_action a s rest
  end.

(** Modelled from the spec: the Arena: the cell grid, the live
    population, the warriors removed since the last generation boundary
    (with the energy they were removed at), the next fresh id, the tick
    and generation counters, and the state of the random generator. *)
Record Arena := {
  cells : gmap Pos Cell;
  warriors : gmap WarriorId Warrior;
  fallen : list Warrior;
  next_id : WarriorId;
  tick : nat;
  generation : nat;
  rng : Z
}.

(** Field updates of the arena record. *)
Definition set_cells (cs : gmap Pos Cell) (a : Arena) : Arena :=
  {| cells := cs; warriors := warriors a; fallen := fallen a;
     next_id := next_id a; tick := tick a; generation := generation a;
     rng := rng a |}.

Definition set_warriors (ws : gmap WarriorId Warrior) (a : Arena) : Arena :=
  {| cells := cells a; warriors := ws; fallen := fallen a;
     next_id := next_id a; tick := tick a; generation := generation a;
     rng := rng a |}.

Definition set_fallen (f : list Warrior) (a : Arena) : Arena :=
  {| cells := cells a; warriors := warriors a; fallen := f;
     next_id := next_id a; tick := tick a; generation := generation a;
     rng := rng a |}.

Definition set_next_id (n : WarriorId) (a : Arena) : Arena :=
  {| cells := cells a; warriors := warriors a; fallen := fallen a;
     next_id := n; tick := tick a; generation := generation a;
     rng := rng a |}.

Definition set_tick (t : nat) (a : Arena) : Arena :=
  {| cells := cells a; warriors := warriors a; fallen := fallen a;
     next_id := next_id a; tick := t; generation := generation a;
     rng := rng a |}.

Definition set_rng (r : Z) (a : Arena) : Arena :=
  {| cells := cells a; warriors := warriors a; fallen := fallen a;
     next_id := next_id a; tick := tick a; generation := generation a;
     rng := r |}.

(** Field updates of the warrior record. *)
Definition with_pos (p : Pos) (w : Warrior) : Warrior :=
  {| w_id := w_id w; w_genome := w_genome w; w_network := w_network w;
     w_learned := w_learned w;
     w_pos := p; w_energy := w_energy w; w_age := w_age w;
     w_resources := w_resources w; w_generation := w_generation w;
     w_lineage_depth := w_lineage_depth w; w_action := w_action w;
     w_action_tick := w_action_tick w |}.

Definition with_energy (e : Z) (w : Warrior) : Warrior :=
  {| w_id := w_id w; w_genome := w_genome w; w_network := w_network w;
     w_learned := w_learned w;
     w_pos := w_pos w; w_energy := e; w_age := w_age w;
     w_resources := w_resources w; w_generation := w_generation w;
     w_lineage_depth := w_lineage_depth w; w_action := w_action w;
     w_action_tick := w_action_tick w |}.

(** The warrior after it has taken up [gain] units of resource. *)
Definition with_gain (gain : Z) (w : Warrior) : Warrior :=
  {| w_id := w_id w; w_genome := w_genome w; w_network := w_network w;
     w_learned := w_learned w;
     w_pos := w_pos w; w_energy := w_energy w + gain; w_age := w_age w;
     w_resources := w_resources w + gain; w_generation := w_generation w;
     w_lineage_depth := w_lineage_depth w; w_action := w_action w;
     w_action_tick := w_action_tick w |}.

Definition with_age (n : nat) (w : Warrior) : Warrior :=
  {| w_id := w_id w; w_genome := w_genome w; w_network := w_network w;
     w_learned := w_learned w;
     w_pos := w_pos w; w_energy := w_energy w; w_age := n;
     w_resources := w_resources w; w_generation := w_generation w;
     w_lineage_depth := w_lineage_depth w; w_action := w_action w;
     w_action_tick := w_action_tick w |}.

Definition with_action (act : Action) (t : nat) (w : Warrior) : Warrior :=
  {| w_id := w_id w; w_genome := w_genome w; w_network := w_network w;
     w_learned := w_learned w;
     w_pos := w_pos w; w_energy := w_energy w; w_age := w_age w;
     w_resources := w_resources w; w_generation := w_generation w;
     w_lineage_depth := w_lineage_depth w; w_action := Some act;
     w_action_tick := t |}.

(** Modelled from the spec: bounds checking of a position. *)
Definition in_bounds (cfg : Config) (p : Pos) : bool :=
  (0 <=? p.1) && (p.1 <? grid_width cfg) &&
  (0 <=? p.2) && (p.2 <? grid_height cfg).

(** Modelled from the spec: a cell a warrior can be placed at: one that
    holds neither a warrior nor a terrain feature. *)
Definition free_cell (cs : gmap Pos Cell) (p : Pos) : bool :=
  match cs !! p with
  | None | Some (Resource _ _) => true
  | Some (Occupant _) | Some Terrain => false
  end.

(** Modelled from the spec: [consume_resource(position) -> energy_delta];
    the resource is removed from the grid on consumption. *)
Definition consume_resource (p : Pos) (cs : gmap Pos Cell) : Z * gmap Pos Cell :=
  match cs !! p with
  | Some (Resource v _) => (v, delete p cs)
  | _ => (0, cs)
  end.

(** Modelled from the spec: [place(warrior, position) -> bool], which
    fails if the position is occupied or out of bounds; a resource at
    the position is consumed by the warrior placed there. *)
Definition place (cfg : Config) (w : Warrior) (p : Pos) (a : Arena) : option Arena :=
  if in_bounds cfg p && free_cell (cells a) p then
    let '(gain, cs) := consume_resource p (cells a) in
    Some (set_warriors (<[w_id w := with_gain gain (with_pos p w)]> (warriors a))
            (set_cells (<[p := Occupant (w_id w)]> cs) a))
  else None.

(** Modelled from the spec: [remove(warrior)]. *)
Definition remove (id : WarriorId) (a : Arena) : Arena :=
  match warriors a !! id with
  | Some w => set_warriors (delete id (warriors a))
                (set_cells (delete (w_pos w) (cells a)) a)
  | None => a
  end.

(** Modelled from the spec: removal of a warrior whose energy is
    exhausted; the warrior is kept in [fallen] for the fitness
    computation at the generation boundary. *)
Definition kill (w : Warrior) (a : Arena) : Arena :=
  set_fallen (fallen a ++ [w]) (remove (w_id w) a).

(** The first adjacent cell, in scan order, that is in bounds and free. *)
Definition first_free `{Policy} (cfg : Config) (cs : gmap Pos Cell) (p : Pos) : option Pos :=
  List.find (fun q => in_bounds cfg q && free_cell cs q) (adjacent p).

(** The id of the warrior a cell holds, if it holds one. *)
Definition occupant (cs : gmap Pos Cell) (p : Pos) : option WarriorId :=
  match cs !! p with
  | Some (Occupant id) => Some id
  | _ => None
  end.

(** The first neighbouring warrior, in scan order. *)
Definition first_neighbour `{Policy} (a : Arena) (p : Pos) : option Warrior :=
  head
    (omap (fun q => id ← occupant (cells a) q; warriors a !! id) (adjacent p)).

(** Modelled from the spec: the error taxonomy. *)
Inductive Error :=
| ConfigurationError
| BoundsViolation
| CapacityExceeded
| InvalidGenome
| DegenerateEvolutionState.

(** [x < y] on rationals, as a boolean. *)
Definition Qlt_bool (x y : Q) : bool := negb (Qle_bool y x).

(** Modelled from the spec: [mutate(genome, rate)]: independently per
    byte, a perturbation gated by [rate]; the generator is advanced once
    per byte. *)
Fixpoint mutate `{Policy} (rate : Q) (g : Genome) (r : Z) : Genome * Z :=
  match g with
  | [] => ([], r)
  | b :: g' =>
      let r1 := rng_next r in
      let b' := if Qlt_bool (chance r1) rate then perturb b r1 else b in
      let '(g'', r2) := mutate rate g' r1 in
      (b' :: g'', r2)
  end.

(** Modelled from the spec: [crossover(genomeA, genomeB)]: segment-wise
    mixing over the fixed-size encoding, each byte of the child taken
    from one of the parents at the same index. *)
Definition crossover `{Policy} (ga gb : Genome) (r : Z) : Genome * Z :=
  let r1 := rng_next r in
  (imap (fun i ab => if crossover_mask r1 i then ab.1 else ab.2) (zip ga gb), r1).

(** Modelled from the spec: a warrior at the start of its life, with its
    network decoded from its genome; there is no warrior when the genome
    does not decode. *)
Definition new_warrior `{Policy} (cfg : Config) (id : WarriorId) (g : Genome) (p : Pos)
    (gen depth : nat) : option Warrior :=
  n ← decode (hidden_size cfg) g;
  Some {| w_id := id; w_genome := g; w_network := n; w_learned := false;
          w_pos := p; w_energy := initial_energy cfg; w_age := 0;
          w_resources := 0; w_generation := gen; w_lineage_depth := depth;
          w_action := None; w_action_tick := 0 |}.

(** Modelled from the spec: Apply-Effect for [move]: the warrior is
    relocated to an adjacent free cell, or stays when there is none. *)
Definition move `{Policy} (cfg : Config) (w : Warrior) (a : Arena) : Arena :=
  match first_free cfg (cells a) (w_pos w) with
  | Some q =>
      match place cfg w q (remove (w_id w) a) with
      | Some a' => a'
      | None => a
      end
  | None => a
  end.

(** Modelled from the spec: Apply-Effect for [replicate]. The result is
    the arena and the energy the action costs: the configured
    replication cost when a child was created, nothing when the parent's
    energy is below that cost, when the population is at its maximum, or
    when no adjacent cell is free. *)
Definition replicate `{Policy} (cfg : Config) (w : Warrior) (a : Arena) : Arena * Z :=
  if w_energy w <? replication_cost cfg then (a, 0)
  else if (max_population cfg <=? size (warriors a))%nat then (a, 0)
  else
    match first_free cfg (cells a) (w_pos w) with
    | None => (a, 0)
    | Some q =>
        let '(g, r) := mutate (mutation_rate cfg) (w_genome w) (rng a) in
        match new_warrior cfg (next_id a) g q
                (S (w_generation w)) (S (w_lineage_depth w)) with
        | Some child =>
            match place cfg child q (set_next_id (S (next_id a)) (set_rng r a)) with
            | Some a' => (a', replication_cost cfg)
            | None => (a, 0)
            end
        | None => (a, 0)
        end
    end.

(** The warrior chose [defend] in the current tick. *)
Definition defending (t : nat) (v : Warrior) : bool :=
  match w_action v with
  | Some Defend => (w_action_tick v =? t)%nat
  | _ => false
  end.

(** Modelled from the spec: Apply-Effect for [attack]: the energy of a
    neighbouring warrior is reduced, by less if it defends in this tick,
    and the neighbour is removed when its energy reaches zero. *)
Definition attack `{Policy} (cfg : Config) (w : Warrior) (a : Arena) : Arena :=
  match first_neighbour a (w_pos w) with
  | Some v =>
      let damage :=
        if defending (tick a) v
        then Z.max 0 (attack_damage cfg - defend_reduction cfg)
        else attack_damage cfg in
      let v' := with_energy (w_energy v - damage) v in
      if w_energy v' <=? 0 then kill v' a
      else set_warriors (<[w_id v := v']> (warriors a)) a
  | None => a
  end.

(** Modelled from the spec: Apply-Effect: the arena after the action and
    the action-specific cost; a move or an attack without target is a
    no-op with no refund. *)
Definition apply_effect `{Policy} (cfg : Config) (act : Action) (w : Warrior)
    (a : Arena) : Arena * Z :=
  match act with
  | Move => (move cfg w a, move_cost cfg)
  | Replicate => replicate cfg w a
  | Attack => (attack cfg w a, attack_cost cfg)
  | Defend => (a, defend_cost cfg)
  end.

(** Modelled from the spec: Charge-Cost: the per-tick survival cost and
    the action-specific cost are deducted, and a warrior whose energy
    drops to 0 or below is removed at once. *)
Definition charge_cost (cfg : Config) (id : WarriorId) (cost : Z) (a : Arena) : Arena :=
  match warriors a !! id with
  | Some w =>
      let w' := with_age (S (w_age w))
                  (with_energy (w_energy w - (survival_cost cfg + cost)) w) in
      if w_energy w' <=? 0 then kill w' a
      else set_warriors (<[id := w']> (warriors a)) a
  | None => a
  end.

(** The warrior with another cached network. *)
Definition with_network (n : Network) (learned : bool) (w : Warrior) : Warrior :=
  {| w_id := w_id w; w_genome := w_genome w; w_network := n;
     w_learned := learned;
     w_pos := w_pos w; w_energy := w_energy w; w_age := w_age w;
     w_resources := w_resources w; w_generation := w_generation w;
     w_lineage_depth := w_lineage_depth w; w_action := w_action w;
     w_action_tick := w_action_tick w |}.

(** The warrior with another genome and the network decoded from it. *)
Definition with_genome (g : Genome) (n : Network) (w : Warrior) : Warrior :=
  {| w_id := w_id w; w_genome := g; w_network := n; w_learned := false;
     w_pos := w_pos w; w_energy := w_energy w; w_age := w_age w;
     w_resources := w_resources w; w_generation := w_generation w;
     w_lineage_depth := w_lineage_depth w; w_action := w_action w;
     w_action_tick := w_action_tick w |}.

(** Every weight of a layer moved by [delta row column] and clamped. *)
Definition nudge_rows (delta : nat -> nat -> Q) (rows : list (list Q))
    : list (list Q) :=
  imap (fun j row => imap (fun i x => clamp_weight (x + delta j i)%Q) row) rows.

(** Modelled from the spec: the nudge of BACKPROP: the weights of the
    live network move toward the local reward signal; layer 0 holds the
    weights into the hidden neurons and layer 1 those into the
    outputs. *)
Definition nudge `{Policy} (n : Network) (sensors : list Q) : Network :=
  {| n_inputs := n_inputs n; n_hidden := n_hidden n; n_outputs := n_outputs n;
     hidden_weights :=
       nudge_rows (reward_signal n sensors 0) (hidden_weights n);
     output_weights :=
       nudge_rows (reward_signal n sensors 1) (output_weights n) |}.

(** Modelled from the spec: BACKPROP nudges the live network and leaves
    the stored genome as it is, unless it is configured to write back:
    then the genes are requantized from the nudged network and the
    network is decoded again from the new genome. *)
Definition backprop `{Policy} (cfg : Config) (sensors : list Q) (w : Warrior)
    : Warrior :=
  let n := nudge (w_network w) sensors in
  if write_back cfg then
    let g := imap (requantize n) (w_genome w) in
    match decode (hidden_size cfg) g with
    | Some n' => with_genome g n' w
    | None => w
    end
  else with_network n true w.

(** Modelled from the spec: MUTATE forces a mutation of the warrior's
    own genome at once; the network is decoded again from the new
    genome. *)
Definition self_mutate `{Policy} (cfg : Config) (w : Warrior) (r : Z)
    : option (Warrior * Z) :=
  let '(g, r') := mutate (mutation_rate cfg) (w_genome w) r in
  n ← decode (hidden_size cfg) g; Some (with_genome g n w, r').

(** Modelled from the spec: one hook executed by warrior [id]. *)
Definition run_hook `{Policy} (cfg : Config) (id : WarriorId) (sensors : list Q)
    (h : Hook) (a : Arena) : Arena :=
  match warriors a !! id with
  | Some w =>
      match h with
      | BACKPROP =>
          set_warriors (<[id := backprop cfg sensors w]> (warriors a)) a
      | MUTATE =>
          match self_mutate cfg w (rng a) with
          | Some (w', r) =>
              set_warriors (<[id := w']> (warriors a)) (set_rng r a)
          | None => a
          end
      end
  | None => a
  end.

(** The hooks of one cycle, in order. *)
Definition run_hooks `{Policy} (cfg : Config) (id : WarriorId) (sensors : list Q)
    (hs : list Hook) (a : Arena) : Arena :=
  fold_left (fun acc h => run_hook cfg id sensors h acc) hs a.

(** Modelled from the spec: MUTATE costs energy, BACKPROP does not. *)
Definition hook_cost (cfg : Config) (h : Hook) : Z :=
  match h with
  | BACKPROP => 0
  | MUTATE => mutate_cost cfg
  end.

(** What the hooks of one cycle cost together. *)
Definition hooks_cost (cfg : Config) (hs : list Hook) : Z :=
  fold_right Z.add 0 (map (hook_cost cfg) hs).




(** Modelled from the spec: the decision cycle of one warrior,
    Sense -> Infer -> Decode-Action -> Apply-Effect -> Charge-Cost, with
    the hooks the warrior executes run before the costs of the cycle
    are charged. *)
Definition vm_cycle `{Policy} (cfg : Config) (id : WarriorId) (a : Arena) : Arena :=
  match warriors a !! id with
  | Some w =>
      let sensors := read_sensors (cells a) (w_pos w) in
      let scores := forward activation (w_network w) sensors in
      let act := decode_action scores in
      let w0 := with_action act (tick a) w in
      let a0 := set_warriors (<[id := w0]> (warriors a)) a in
      let '(a1, cost) := apply_effect cfg act w0 a0 in
      let hs := hooks w sensors in
      charge_cost cfg id (cost + hooks_cost cfg hs) (run_hooks cfg id sensors hs a1)
  | None => a
  end.

(** The cell holds a resource; the cell holds nothing. *)
Definition is_resource (cs : gmap Pos Cell) (p : Pos) : bool :=
  match cs !! p with
  | Some (Resource _ _) => true
  | _ => false
  end.

Definition is_empty (cs : gmap Pos Cell) (p : Pos) : bool :=
  match cs !! p with
  | None => true
  | Some _ => false
  end.

(** Modelled from the spec: one effect of Environment Dynamics, applied
    only to a valid target: a resource of non-negative value spawns at
    an empty cell in bounds; a compaction event deletes a resource or relocates it to an
    empty cell in bounds. *)
Definition env_event (cfg : Config) (ev : EnvEvent) (a : Arena) : Arena :=
  match ev with
  | Spawn p v ty =>
      if in_bounds cfg p && is_empty (cells a) p && (0 <=? v)
      then set_cells (<[p := Resource v ty]> (cells a)) a
      else a
  | Clear p =>
      if is_resource (cells a) p then set_cells (delete p (cells a)) a else a
  | Relocate p q =>
      match cells a !! p with
      | Some (Resource v ty) =>
          if in_bounds cfg q && is_empty (cells a) q
          then set_cells (<[q := Resource v ty]> (delete p (cells a))) a
          else a
      | _ => a
      end
  end.

(** Modelled from the spec: the per-tick hook of Environment Dynamics. *)
Definition environment_update `{Policy} (cfg : Config) (a : Arena) : Arena :=
  let r := rng_next (rng a) in
  fold_left (fun acc ev => env_event cfg ev acc)
    (environment (cells a) r (tick a))
    (set_rng r a).

(** Modelled from the spec: one scheduling pass, round-robin over the
    warriors alive at their turn, in id order. *)
Definition scheduling_pass `{Policy} (cfg : Config) (a : Arena) : Arena :=
  fold_left (fun acc id => vm_cycle cfg id acc) (seq 0 (next_id a)) a.

(** Modelled from the spec: [step()]: exactly one tick, the environment
    update and then one scheduling pass. *)
Definition step `{Policy} (cfg : Config) (a : Arena) : Arena :=
  let a1 := scheduling_pass cfg (environment_update cfg a) in
  set_tick (S (tick a1)) a1.

(** The live warriors, in id order. *)
Definition survivors (a : Arena) : list Warrior :=
  omap (fun id => warriors a !! id) (seq 0 (next_id a)).

(** Modelled from the spec: the final fitness, a configured combination
    of survival ticks and resource-acquisition total. *)
Definition final_fitness (cfg : Config) (w : Warrior) : Q :=
  (survival_weight cfg * inject_Z (Z.of_nat (w_age w))
   + resource_weight cfg * inject_Z (w_resources w))%Q.

(** The index, counted from [i], of the first representative within the
    threshold of [g]. *)
Fixpoint find_species `{Policy} (threshold : Q) (reps : list Genome) (g : Genome)
    (i : nat) : option nat :=
  match reps with
  | [] => None
  | rep :: reps' =>
      if Qle_bool (compatibility rep g) threshold then Some i
      else find_species threshold reps' g (S i)
  end.

(** Modelled from the spec: speciation: a warrior joins the first
    species whose representative is within the threshold, else founds a
    new species. The result is the species index of every genome. *)
Fixpoint speciate `{Policy} (threshold : Q) (reps : list Genome) (gs : list Genome)
    : list nat :=
  match gs with
  | [] => []
  | g :: gs' =>
      match find_species threshold reps g 0 with
      | Some i => i :: speciate threshold reps gs'
      | None => length reps :: speciate threshold (reps ++ [g]) gs'
      end
  end.

(** The size of species [i]. *)
Definition count_species (i : nat) (species : list nat) : nat :=
  length (filter (fun j => j = i) species).

(** Modelled from the spec: the candidates of the generation boundary,
    surviving and deceased, each with the fitness that selection uses:
    the final fitness, divided by the size of the species when fitness
    sharing is enabled. *)
Definition scored `{Policy} (cfg : Config) (a : Arena) : list (Warrior * Q) :=
  let candidates := survivors a ++ fallen a in
  let species := speciate (compatibility_threshold cfg) [] (map w_genome candidates) in
  zip_with
    (fun w i =>
       let f := final_fitness cfg w in
       (w, if fitness_sharing cfg
           then (f / inject_Z (Z.of_nat (count_species i species)))%Q
           else f))
    candidates species.

(** The candidate a draw of the generator samples. *)
Definition pick (pool : list (Warrior * Q)) (r : Z) (d : Warrior * Q) : Warrior * Q :=
  nth (Z.to_nat (r mod Z.of_nat (length pool))) pool d.

(** Modelled from the spec: tournament selection: [k] more candidates
    are sampled and the one of maximal fitness among those seen is
    kept. *)
Fixpoint tournament `{Policy} (k : nat) (pool : list (Warrior * Q))
    (best : Warrior * Q) (r : Z) : (Warrior * Q) * Z :=
  match k with
  | O => (best, r)
  | S k' =>
      let r1 := rng_next r in
      let c := pick pool r1 best in
      tournament k' pool (if Qle_bool (snd c) (snd best) then best else c) r1
  end.

(** Modelled from the spec: one parent, the winner of a tournament of
    the configured size. *)
Definition select_parent `{Policy} (cfg : Config) (pool : list (Warrior * Q))
    (first : Warrior * Q) (r : Z) : Warrior * Z :=
  let r1 := rng_next r in
  let '(best, r2) :=
    tournament (tournament_size cfg - 1) pool (pick pool r1 first) r1 in
  (fst best, r2).

(** Modelled from the spec: one child: crossover of two selected parents
    followed by mutation at the configured rate. The child is paired
    with its lineage depth. *)
Definition breed `{Policy} (cfg : Config) (pool : list (Warrior * Q))
    (first : Warrior * Q) (r : Z) : (Genome * nat) * Z :=
  let '(pa, r1) := select_parent cfg pool first r in
  let '(pb, r2) := select_parent cfg pool first r1 in
  let '(g, r3) := crossover (w_genome pa) (w_genome pb) r2 in
  let '(g', r4) := mutate (mutation_rate cfg) g r3 in
  ((g', S (Nat.max (w_lineage_depth pa) (w_lineage_depth pb))), r4).

(** Modelled from the spec: one child per child slot, each from its own
    tournaments. *)
Fixpoint breed_many `{Policy} (cfg : Config) (n : nat) (pool : list (Warrior * Q))
    (first : Warrior * Q) (r : Z) : list (Genome * nat) * Z :=
  match n with
  | O => ([], r)
  | S n' =>
      let '(c, r1) := breed cfg pool first r in
      let '(cs, r2) := breed_many cfg n' pool first r1 in
      (c :: cs, r2)
  end.

(** Insertion into a list ordered by decreasing fitness, after the
    entries of equal fitness. *)
Fixpoint insert_by_fitness (x : Warrior * Q) (l : list (Warrior * Q))
    : list (Warrior * Q) :=
  match l with
  | [] => [x]
  | y :: l' =>
      if Qle_bool (snd x) (snd y) then y :: insert_by_fitness x l'
      else x :: l
  end.

(** The candidates by decreasing fitness, earlier candidates first among
    equals. *)
Definition by_fitness (pool : list (Warrior * Q)) : list (Warrior * Q) :=
  fold_right insert_by_fitness [] pool.

(** Modelled from the spec: elitism carries forward a fixed top fraction
    of the population unchanged; this is the size of that fraction. *)
Definition elite_count (cfg : Config) : nat :=
  Z.to_nat (Qfloor (elitism_rate cfg * inject_Z (Z.of_nat (max_population cfg)))).

(** Modelled from the spec: the genomes of the next generation: the
    elite, carried forward unchanged, then children, up to the
    configured maximum size. *)
Definition next_genomes `{Policy} (cfg : Config) (pool : list (Warrior * Q)) (r : Z)
    : list (Genome * nat) * Z :=
  match pool with
  | [] => ([], r)
  | first :: _ =>
      let elite :=
        map (fun c => (w_genome (fst c), w_lineage_depth (fst c)))
          (take (Nat.min (elite_count cfg) (max_population cfg)) (by_fitness pool)) in
      let '(children, r') :=
        breed_many cfg (max_population cfg - length elite) pool first r in
      (elite ++ children, r')
  end.

(** Modelled from the spec: a new warrior is seeded at a cell drawn for
    it; when that cell is occupied or out of bounds the placement fails
    and the warrior is not created. *)
Definition seed `{Policy} (cfg : Config) (gen : nat) (g : Genome * nat) (a : Arena) : Arena :=
  let r := rng_next (rng a) in
  let p := spawn_site (cells a) r in
  match new_warrior cfg (next_id a) (fst g) p gen (snd g) with
  | Some w =>
      match place cfg w p (set_next_id (S (next_id a)) (set_rng r a)) with
      | Some a' => a'
      | None => set_rng r a
      end
  | None => set_rng r a
  end.

(** The cell holds a warrior. *)
Definition is_occupant (c : Cell) : bool :=
  match c with
  | Occupant _ => true
  | _ => false
  end.

(** Modelled from the spec: the evolution transition at a generation
    boundary: the population is replaced by the next generation. *)
Definition evolve `{Policy} (cfg : Config) (a : Arena) : Arena :=
  let '(genomes, r) := next_genomes cfg (scored cfg a) (rng a) in
  let cleared :=
    {| cells := filter (fun pc => is_occupant (snd pc) = false) (cells a);
       warriors := ∅; fallen := []; next_id := next_id a; tick := tick a;
       generation := S (generation a); rng := r |} in
  fold_left (fun acc g => seed cfg (S (generation a)) g acc) genomes cleared.

(** The ticks left until the generation boundary. *)
Definition ticks_left (cfg : Config) (a : Arena) : nat :=
  ticks_per_generation cfg - tick a mod ticks_per_generation cfg.

(** Modelled from the spec: [run_generation()]: ticks until the
    generation boundary, then the evolution transition. *)
Definition run_generation `{Policy} (cfg : Config) (a : Arena) : Arena :=
  evolve cfg (Nat.iter (ticks_left cfg a) (step cfg) a).

(** The byte a draw of the generator gives, by wrap-around. *)
Definition byte_of_draw (r : Z) : Byte.byte :=
  match Byte.of_N (Z.to_N (r mod 256)) with
  | Some b => b
  | None => Byte.x00
  end.

(** Modelled from the spec: a random genome of [n] bytes. *)
Fixpoint random_genome `{Policy} (n : nat) (r : Z) : Genome * Z :=
  match n with
  | O => ([], r)
  | S n' =>
      let r1 := rng_next r in
      let '(g, r2) := random_genome n' r1 in
      (byte_of_draw r1 :: g, r2)
  end.

(** Modelled from the spec: [initialize_population(size)]: [size]
    warriors with random genomes, seeded at free cells. *)
Fixpoint initialize_population `{Policy} (cfg : Config) (size : nat) (a : Arena) : Arena :=
  match size with
  | O => a
  | S size' =>
      let '(g, r) := random_genome GENOME_SIZE (rng a) in
      initialize_population cfg size' (seed cfg (generation a) (g, 0%nat) (set_rng r a))
  end.

(** Modelled from the spec: the check of [configure(config)]. *)
Definition valid_config (cfg : Config) : bool :=
  (0 <? grid_width cfg) && (0 <? grid_height cfg) &&
  (0 <? max_population cfg)%nat &&
  (16 <=? hidden_size cfg)%nat && (hidden_size cfg <=? 32)%nat &&
  (0 <? initial_energy cfg) &&
  (0 <=? survival_cost cfg) && (0 <=? move_cost cfg) &&
  (0 <=? attack_cost cfg) && (0 <=? defend_cost cfg) &&
  (0 <=? replication_cost cfg) && (0 <=? mutate_cost cfg) &&
  (0 <=? attack_damage cfg) &&
  (0 <? ticks_per_generation cfg)%nat && (0 <? tournament_size cfg)%nat.

(** Modelled from the spec: the arena before any warrior is seeded, with
    the explicit seed of the generator. *)
Definition empty_arena (seed : Z) : Arena :=
  {| cells := ∅; warriors := ∅; fallen := []; next_id := 0%nat; tick := 0%nat;
     generation := 0%nat; rng := seed |}.

(** Modelled from the spec: [configure(config)], with the explicit
    seed. *)
Definition configure (cfg : Config) (seed : Z) : Error + Arena :=
  if valid_config cfg then inr (empty_arena seed) else inl ConfigurationError.


(** The cells of the grid in scan order, row by row. *)
Definition grid_cells (cfg : Config) : list Pos :=
  flat_map (fun y => map (fun x => (x, y)) (seqZ 0 (grid_width cfg)))
    (seqZ 0 (grid_height cfg)).

(** The first cell of the grid, in scan order, that a warrior can be
    placed at. *)
Definition first_vacancy (cfg : Config) (cs : gmap Pos Cell) : option Pos :=
  List.find (free_cell cs) (grid_cells cfg).

(** Modelled from the spec: [import_genome(bytes) -> warrior_id]: the
    fixed size is validated before insertion; a warrior with the
    imported genome is then placed at the first vacant cell of the grid
    and its id is returned. A byte sequence of another size is rejected
    as [InvalidGenome], and the import is refused as [CapacityExceeded]
    when the population is at its maximum or no cell is vacant; a
    rejected or refused import leaves the arena as it was. *)
Definition import_genome `{Policy} (cfg : Config) (bytes : Genome) (a : Arena)
    : Arena * (Error + WarriorId) :=
  if negb (length bytes =? GENOME_SIZE)%nat then (a, inl InvalidGenome)
  else if (max_population cfg <=? size (warriors a))%nat
  then (a, inl CapacityExceeded)
  else
    match first_vacancy cfg (cells a) with
    | None => (a, inl CapacityExceeded)
    | Some p =>
        match new_warrior cfg (next_id a) bytes p (generation a) 0 with
        | None => (a, inl InvalidGenome)
        | Some w =>
            match place cfg w p (set_next_id (S (next_id a)) a) with
            | Some a' => (a', inr (next_id a))
            | None => (a, inl CapacityExceeded)
            end
        end
    end.


(** A warrior whose genome has the fixed size and whose network is the
    one its genome decodes to unless BACKPROP has nudged it, which
    cannot be when BACKPROP writes back. *)
Definition coherent `{Policy} (cfg : Config) (w : Warrior) : Prop :=
  length (w_genome w) = GENOME_SIZE /\
  (w_learned w = false ->
   decode (hidden_size cfg) (w_genome w) = Some (w_network w)) /\
  (write_back cfg = true -> w_learned w = false).

(** A candidate of the generation boundary whose genome has the fixed
    size. *)
Definition sized (c : Warrior * Q) : Prop :=
  length (w_genome c.1) = GENOME_SIZE.

(** The invariant of the arena: the population and the cell grid agree
    (a live warrior stands in bounds on the cell that holds its id, and
    a cell that holds an id is the position of that live warrior), live
    warriors have positive energy, ids below [next_id] and coherent
    networks, resources have non-negative value, and the warriors in
    [fallen] were removed at energy 0 or below. *)
Record wf `{Policy} (cfg : Config) (a : Arena) : Prop := {
  wf_warrior : forall id w, warriors a !! id = Some w ->
    w_id w = id /\ cells a !! w_pos w = Some (Occupant id) /\
    in_bounds cfg (w_pos w) = true /\ 0 < w_energy w /\
    (id < next_id a)%nat /\ coherent cfg w;
  wf_occupant : forall p id, cells a !! p = Some (Occupant id) ->
    exists w, warriors a !! id = Some w /\ w_pos w = p;
  wf_resource : forall p v ty, cells a !! p = Some (Resource v ty) -> 0 <= v;
  wf_fallen : Forall (fun w => coherent cfg w /\ w_energy w <= 0) (fallen a)
}.

(** The states of the arena: what [configure] returns, and what the
    operations of the interface, of the scheduler, of the virtual
    machine, of Environment Dynamics and of the evolution engine make of
    a state. *)
Inductive reachable `{Policy} (cfg : Config) : Arena -> Prop :=
| reach_configure seed :
    reachable cfg (empty_arena seed)
| reach_initialize_population size a :
    reachable cfg a -> reachable cfg (initialize_population cfg size a)
| reach_import_genome bytes a :
    reachable cfg a -> reachable cfg (fst (import_genome cfg bytes a))
| reach_step a :
    reachable cfg a -> reachable cfg (step cfg a)
| reach_run_generation a :
    reachable cfg a -> reachable cfg (run_generation cfg a)
| reach_environment_update a :
    reachable cfg a -> reachable cfg (environment_update cfg a)
| reach_env_event ev a :
    reachable cfg a -> reachable cfg (env_event cfg ev a)
| reach_vm_cycle id a :
    reachable cfg a -> reachable cfg (vm_cycle cfg id a)
| reach_apply_effect act id w a :
    reachable cfg a -> warriors a !! id = Some w ->
    reachable cfg (fst (apply_effect cfg act w a))
| reach_run_hook id sensors h a :
    reachable cfg a -> reachable cfg (run_hook cfg id sensors h a)
| reach_charge_cost id cost a :
    reachable cfg a -> 0 <= cost -> reachable cfg (charge_cost cfg id cost a)
| reach_evolve a :
    reachable cfg a -> reachable cfg (evolve cfg a).

(** What a stretch of a tick does to the warriors: no id is reused; for a
    warrior that is still alive, the energy has not grown by more than
    the resources it took up, and these have not shrunk; [fallen] has
    only grown, and a warrior that is gone is among the newly fallen,
    removed at energy 0 or below. *)
Record progress (a a' : Arena) : Prop := {
  pr_next_id : (next_id a <= next_id a')%nat;
  pr_alive : forall id w', warriors a' !! id = Some w' -> (id < next_id a)%nat ->
    exists w, warriors a !! id = Some w /\
      w_energy w' - w_energy w <= w_resources w' - w_resources w /\
      w_resources w <= w_resources w';
  pr_fallen : exists newly, fallen a' = fallen a ++ newly /\
    forall id w, warriors a !! id = Some w -> warriors a' !! id = None ->
      exists w', In w' newly /\ w_id w' = id /\ w_energy w' <= 0
}.

(** Modelled from the spec: a structurally valid bounded network: 8
    inputs, the given hidden size, 4 outputs, one row of 8 weights per
    hidden neuron and one row of hidden-size weights per output, every
    weight in [-1, 1]. *)
Definition bounded_weight (q : Q) : Prop := (-1 <= q)%Q /\ (q <= 1)%Q.

Definition valid_network (hidden : nat) (n : Network) : Prop :=
  n_inputs n = 8%nat /\ n_hidden n = hidden /\ n_outputs n = 4%nat /\
  length (hidden_weights n) = hidden /\
  Forall (fun row => length row = 8%nat /\ Forall bounded_weight row)
    (hidden_weights n) /\
  length (output_weights n) = 4%nat /\
  Forall (fun row => length row = hidden /\ Forall bounded_weight row)
    (output_weights n).


(** No two live warriors stand on the same cell, and the cell of a live
    warrior is in bounds and holds that warrior. *)
Definition exclusive_cells (cfg : Config) (a : Arena) : Prop :=
  (forall id1 id2 w1 w2,
     warriors a !! id1 = Some w1 -> warriors a !! id2 = Some w2 ->
     id1 <> id2 -> w_pos w1 <> w_pos w2) /\
  (forall id w, warriors a !! id = Some w ->
     in_bounds cfg (w_pos w) = true /\ cells a !! w_pos w = Some (Occupant id)).

(** A sample instance: connection [k] encoded by gene [k], the byte [b]
    standing for [(b - 128) / 127], rectified activation, sensors that
    read the eight surrounding cells, the four-neighbourhood, a linear
    congruential generator, single-point crossover, one resource spawn
    per tick, and the Hamming distance of genomes. Every warrior
    executes BACKPROP in every cycle, and MUTATE as well in its second;
    the reward signal favours [Defend]; a gene is written back from the
    first weight it encodes. *)
Definition sample_sensors (cs : gmap Pos Cell) (p : Pos) : list Q :=
  map (fun q => match cs !! q with
                | None => 0%Q
                | Some (Resource v _) => inject_Z v
                | Some (Occupant _) => (-1)%Q
                | Some Terrain => (-2)%Q
                end)
    [(p.1, p.2 - 1); (p.1 + 1, p.2); (p.1, p.2 + 1); (p.1 - 1, p.2);
     (p.1 + 1, p.2 - 1); (p.1 + 1, p.2 + 1); (p.1 - 1, p.2 + 1);
     (p.1 - 1, p.2 - 1)].

(** The number of positions at which two genomes differ. *)
Definition hamming (ga gb : Genome) : Q :=
  inject_Z (Z.of_nat (length
    (List.filter (fun ab => negb (Byte.eqb ab.1 ab.2)) (zip ga gb)))).

Definition sample_policy : Policy := {|
  gene_of_connection := fun k => k;
  weight_of_byte := fun b => (Z.of_N (Byte.to_N b) - 128) # 127;
  activation := Qmax 0;
  read_sensors := sample_sensors;
  adjacent := fun p => [(p.1, p.2 - 1); (p.1 + 1, p.2); (p.1, p.2 + 1); (p.1 - 1, p.2)];
  rng_next := fun r => (r * 1103515245 + 12345) mod 2147483648;
  chance := fun r => (r mod 10000) # 10000;
  perturb := fun b r => byte_of_draw (Z.of_N (Byte.to_N b) + r mod 17 - 8);
  crossover_mask := fun r i => (Z.of_nat i <? r mod 65);
  environment := fun _ r t => [Spawn (r mod 8, (r / 8) mod 8) 20 "energy"];
  spawn_site := fun _ r => (r mod 8, (r / 8) mod 8);
  compatibility := hamming;
  hooks := fun w _ =>
    if (w_age w =? 1)%nat then [BACKPROP; MUTATE] else [BACKPROP];
  reward_signal := fun _ _ layer row _ =>
    if (layer =? 0)%nat then 0%Q else if (row =? 3)%nat then 1%Q else (-1)%Q;
  requantize := fun n i b =>
    match hidden_weights n !! (i / 8)%nat ≫= (.!! (i mod 8)%nat) with
    | Some q => byte_of_draw (Qfloor (q * 127) + 128)
    | None => b
    end
|}.

Definition sample_config : Config := {|
  grid_width := 8; grid_height := 8; max_population := 6; hidden_size := 16;
  initial_energy := 50; survival_cost := 1; move_cost := 1; attack_cost := 2;
  defend_cost := 1; replication_cost := 20; mutate_cost := 3;
  write_back := false; attack_damage := 10;
  defend_reduction := 5; mutation_rate := 5 # 100; ticks_per_generation := 3;
  tournament_size := 3; elitism_rate := 1 # 6; fitness_sharing := true;
  compatibility_threshold := 10; survival_weight := 1; resource_weight := 1
|}.


(** The arenas of the two configurations after four warriors were
    seeded from seed 42. *)
Definition sample_arena : Arena :=
  @initialize_population sample_policy sample_config 4 (empty_arena 42).





(** The warrior with the given id, for an id that is alive. *)
Definition warrior_at (id : WarriorId) (a : Arena) : Warrior :=
  match warriors a !! id with
  | Some w => w
  | None =>
      {| w_id := id; w_genome := [];
         w_network := {| n_inputs := INPUTS; n_hidden := 0; n_outputs := OUTPUTS;
                         hidden_weights := []; output_weights := [] |};
         w_learned := false; w_pos := (0, 0); w_energy := 0; w_age := 0;
         w_resources := 0; w_generation := 0; w_lineage_depth := 0;
         w_action := None; w_action_tick := 0 |}
  end.

(** The all-zero and the all-0xFF genome. *)
Definition zero_genome : Genome := repeat Byte.x00 GENOME_SIZE.
Definition max_genome : Genome := repeat Byte.xff GENOME_SIZE.

End Core.

(* ================================================================= *)
(** * Part II: properties *)

Module JsFacts.

Lemma ltb_lt (a b : Q) : Js.ltb a b = true <-> (a < b)%Q.
Proof.
  unfold Js.ltb. rewrite negb_true_iff. split.
  - intros H. apply Qnot_le_lt. intros Hle.
    apply Qle_bool_iff in Hle. congruence.
  - intros H. destruct (Qle_bool b a) eqn:E; [|reflexivity].
    apply Qle_bool_iff in E. exfalso. exact (Qlt_not_le _ _ H E).
Qed.

Lemma ltb_ge (a b : Q) : Js.ltb a b = false <-> (b <= a)%Q.
Proof.
  unfold Js.ltb. rewrite negb_false_iff. apply Qle_bool_iff.
Qed.

Lemma floor_nonneg (x : Q) : (0 <= x)%Q -> 0 <= Js.floor x.
Proof.
  intros H. unfold Js.floor.
  change 0 with (Qfloor 0). now apply Qfloor_resp_le.
Qed.

Lemma floor_le_Z (x : Q) (n : Z) : (x <= inject_Z n)%Q -> Js.floor x <= n.
Proof.
  intros H. unfold Js.floor.
  rewrite <- (Qfloor_Z n). now apply Qfloor_resp_le.
Qed.

Lemma floor_ge_Z (x : Q) (n : Z) : (inject_Z n <= x)%Q -> n <= Js.floor x.
Proof.
  intros H. unfold Js.floor.
  rewrite <- (Qfloor_Z n). now apply Qfloor_resp_le.
Qed.

Lemma floor_lt_Z (x : Q) (n : Z) : (x < inject_Z n)%Q -> Js.floor x < n.
Proof.
  intros H. unfold Js.floor.
  rewrite Zlt_Qlt. apply Qle_lt_trans with (y := x); [apply Qfloor_le|exact H].
Qed.

End JsFacts.

(** ** ControlPanel *)

Module ControlPanelFacts.
Import ControlPanel.

Lemma newSpeed_inRange (currentSpeed delta : Q) :
  inRange (newSpeed currentSpeed delta).
Proof.
  unfold inRange, newSpeed. split.
  - apply Q.le_max_l.
  - apply Q.max_lub.
    + unfold minSpeed, maxSpeed. lra.
    + apply Q.le_min_l.
Qed.

Lemma toFixed1_inRange (s : Q) :
  inRange s -> 1 <= Js.toFixed1 s <= 50.
Proof.
  unfold inRange, minSpeed, maxSpeed, Js.toFixed1. intros [Hlo Hhi]. split.
  - apply (JsFacts.floor_ge_Z _ 1). unfold inject_Z. lra.
  - assert (Js.floor (s * 10 + (1 # 2)) < 51); [|unfold Js.floor in *; lia].
    apply JsFacts.floor_lt_Z. unfold inject_Z. lra.
Qed.

Lemma adjustSpeed_log (delta : Q) (p : Panel) :
  speedCallbackLog (adjustSpeed delta p)
  = speedCallbackLog p ++ [newSpeed (speedSlider_value p) delta].
Proof. reflexivity. Qed.

Lemma handleKeyboardShortcuts_log (e : KeyEvent) (p : Panel) :
  exists l, speedCallbackLog (handleKeyboardShortcuts e p)
            = speedCallbackLog p ++ l /\ Forall inRange l.
Proof.
  unfold handleKeyboardShortcuts.
  destruct (fromInput e); [exists []; split; [by rewrite app_nil_r|constructor]|].
  destruct (key e);
    try (eexists [_]; split; [apply adjustSpeed_log|];
         repeat constructor; apply newSpeed_inRange);
    exists []; split; [by rewrite app_nil_r|constructor].
Qed.

Lemma handleAll_log (es : list KeyEvent) (p : Panel) :
  exists l, speedCallbackLog (handleAll es p) = speedCallbackLog p ++ l
            /\ Forall inRange l.
Proof.
  revert p. induction es as [|e es IH]; intros p.
  - exists []. split; [by rewrite app_nil_r|constructor].
  - destruct (handleKeyboardShortcuts_log e p) as (l1 & E1 & F1).
    destruct (IH (handleKeyboardShortcuts e p)) as (l2 & E2 & F2).
    exists (l1 ++ l2). split.
    + unfold handleAll in *. simpl. rewrite E2, E1. by rewrite app_assoc.
    + by apply Forall_app.
Qed.

(** At the upper bound a further increase leaves the speed at 5.0, and
    at the lower bound a further decrease leaves it at 0.1. *)
Example adjustSpeed_saturates :
  speedSlider_value
    (adjustSpeed (1 # 10)
       {| speedSlider_value := 5; speedValue_tenths := 50;
          speedCallbackLog := [] |}) = 5%Q /\
  speedSlider_value
    (adjustSpeed (- (1 # 10))
       {| speedSlider_value := 1 # 10; speedValue_tenths := 1;
          speedCallbackLog := [] |}) = (1 # 10)%Q.
Proof. split; reflexivity. Qed.

(** C8. Whatever keys were handled before, [adjustSpeed] with any delta
    sets the slider to [max(0.1, min(5.0, currentSpeed + delta))]; that
    value, the value printed on the label and every value passed to the
    speed-change callback since the start lie in [0.1, 5.0]. *)
Theorem adjustSpeed_clamps_speed :
  forall (es : list KeyEvent) (p0 : Panel) (delta : Q),
    let p := handleAll es p0 in
    let p' := adjustSpeed delta p in
    speedSlider_value p'
      = Qmax (1 # 10) (Qmin 5 (speedSlider_value p + delta)) /\
    inRange (speedSlider_value p') /\
    speedValue_tenths p' = Js.toFixed1 (speedSlider_value p') /\
    1 <= speedValue_tenths p' <= 50 /\
    speedCallbackLog p' = speedCallbackLog p ++ [speedSlider_value p'] /\
    Forall inRange (newCalls p0 p').
Proof.
  intros es p0 delta p p'.
  assert (Hr : inRange (speedSlider_value p')) by apply newSpeed_inRange.
  split; [reflexivity|]. split; [exact Hr|]. split; [reflexivity|].
  split; [apply toFixed1_inRange, Hr|]. split; [reflexivity|].
  unfold newCalls. subst p'. rewrite adjustSpeed_log.
  destruct (handleAll_log es p0) as (l & E & F). subst p. rewrite E.
  rewrite <- app_assoc, drop_app_length.
  apply Forall_app. split; [exact F|].
  repeat constructor; apply newSpeed_inRange.
Qed.

End ControlPanelFacts.

(** ** PerformanceMonitor *)

Module PerformanceMonitorFacts.
Import PerformanceMonitor.

Lemma lastN_length (n : nat) (l : list Q) : (length (lastN n l) <= n)%nat.
Proof. unfold lastN. rewrite length_drop. lia. Qed.

(** Recording into the window of the last [n] samples gives the window
    of the last [n] samples of the longer log. *)
Lemma record_lastN (n : nat) (l : list Q) (x : Q) :
  (0 < n)%nat -> record n (lastN n l) x = lastN n (l ++ [x]).
Proof.
  intros Hn. unfold record, lastN, Js.push, Js.shift.
  rewrite !length_app, length_drop. simpl.
  destruct (Nat.ltb_spec n (length l - (length l - n) + 1)) as [Hlt|Hge].
  - assert (Hl : (n <= length l)%nat) by lia.
    replace (length l + 1 - n)%nat with (S (length l - n)) by lia.
    rewrite drop_app_le by lia.
    destruct (drop (length l - n) l) as [|y t] eqn:E.
    + apply (f_equal length) in E. rewrite length_drop in E. simpl in E. lia.
    + simpl. f_equal.
      change t with (drop 1 (y :: t)). rewrite <- E, drop_drop.
      f_equal. lia.
  - replace (length l - n)%nat with 0%nat by lia.
    replace (length l + 1 - n)%nat with 0%nat by lia.
    reflexivity.
Qed.

Lemma initializeMemoryBaseline_arrays (mem : Memory) (m : Monitor) :
  frameTimes (initializeMemoryBaseline mem m) = frameTimes m /\
  wasmExecutionTimes (initializeMemoryBaseline mem m) = wasmExecutionTimes m /\
  renderTimes (initializeMemoryBaseline mem m) = renderTimes m.
Proof. destruct mem; auto. Qed.

Lemma updateMemoryStats_arrays (mem : Memory) (m : Monitor) :
  frameTimes (updateMemoryStats mem m) = frameTimes m /\
  wasmExecutionTimes (updateMemoryStats mem m) = wasmExecutionTimes m /\
  renderTimes (updateMemoryStats mem m) = renderTimes m.
Proof. destruct mem; auto. Qed.

Lemma frameEnd_arrays (tEnd now : Q) (mem : Memory) (m : Monitor) :
  frameTimes (frameEnd tEnd now mem m)
    = record maxFrameHistory (frameTimes m) (tEnd - frameStartTime m)%Q /\
  wasmExecutionTimes (frameEnd tEnd now mem m) = wasmExecutionTimes m /\
  renderTimes (frameEnd tEnd now mem m) = renderTimes m.
Proof.
  unfold frameEnd. destruct (Js.geb _ _); [|auto].
  match goal with |- context [updateMemoryStats ?x ?y] =>
    destruct (updateMemoryStats_arrays x y) as (-> & -> & ->) end.
  auto.
Qed.

Lemma windows_constructor (now : Q) (mem : Memory) :
  windows (constructor now mem) noLogs.
Proof. destruct mem; repeat split. Qed.

Lemma windows_call (c : Call) (m : Monitor) (g : Logs) :
  windows m g -> windows (call c m) (logCall c m g).
Proof.
  intros (Hf & Hw & Hr). unfold windows. destruct c; simpl.
  - repeat split; assumption.
  - destruct (frameEnd_arrays tEnd now mem m) as (-> & -> & ->).
    repeat split; try assumption.
    rewrite Hf. apply record_lastN. unfold maxFrameHistory. lia.
  - repeat split; try assumption. simpl.
    rewrite Hw. apply record_lastN. lia.
  - repeat split; try assumption. simpl.
    rewrite Hr. apply record_lastN. lia.
  - unfold startProfiling.
    match goal with |- context [initializeMemoryBaseline ?x ?y] =>
      destruct (initializeMemoryBaseline_arrays x y) as (E1 & E2 & E3) end.
    rewrite E1, E2, E3. repeat split.
Qed.

Lemma logged_spec (cs : list Call) (m : Monitor) (g : Logs) :
  windows m g ->
  let r := fold_left
             (fun acc c => (call c (fst acc), logCall c (fst acc) (snd acc)))
             cs (m, g) in
  fst r = calls cs m /\ windows (fst r) (snd r).
Proof.
  revert m g. induction cs as [|c cs IH]; intros m g H; simpl.
  - split; [reflexivity|exact H].
  - apply (IH (call c m) (logCall c m g)). by apply windows_call.
Qed.

(** A full history drops its oldest sample when one more is recorded. *)
Example record_evicts_oldest :
  record 3 [1; 2; 3]%Q 4%Q = [2; 3; 4]%Q /\ record 3 [1; 2]%Q 3%Q = [1; 2; 3]%Q.
Proof. split; reflexivity. Qed.

(** C9. After any sequence of calls on a fresh monitor, [frameTimes]
    holds the last 60 frame samples recorded since profiling (re)started
    and the two other arrays the last 100 of theirs: each recording
    appends one sample and drops the oldest one once the bound is
    exceeded, so the arrays never hold more than 60, 100 and 100
    entries. *)
Theorem histories_bounded :
  forall (cs : list Call) (now : Q) (mem : Memory),
    let m := calls cs (constructor now mem) in
    let g := snd (logged cs (constructor now mem)) in
    frameTimes m = lastN 60 (frameLog g) /\
    wasmExecutionTimes m = lastN 100 (wasmLog g) /\
    renderTimes m = lastN 100 (renderLog g) /\
    (length (frameTimes m) <= 60)%nat /\
    (length (wasmExecutionTimes m) <= 100)%nat /\
    (length (renderTimes m) <= 100)%nat.
Proof.
  intros cs now mem m g.
  destruct (logged_spec cs _ _ (windows_constructor now mem)) as (E & Hf & Hw & Hr).
  fold (logged cs (constructor now mem)) in E, Hf, Hw, Hr.
  rewrite E in Hf, Hw, Hr. fold m g in Hf, Hw, Hr.
  repeat split; try assumption.
  - rewrite Hf. apply lastN_length.
  - rewrite Hw. apply lastN_length.
  - rewrite Hr. apply lastN_length.
Qed.

(** ** The getters *)

Lemma minOf_le_first (t : Q) (ts : list Q) : (minOf t ts <= t)%Q.
Proof.
  unfold minOf. revert t. induction ts as [|x ts IH]; intros t.
  - apply Qle_refl.
  - cbn [fold_left]. eapply Qle_trans; [apply IH|apply Q.le_min_l].
Qed.

Lemma minOf_le_rest (t : Q) (ts : list Q) :
  Forall (fun x => minOf t ts <= x)%Q ts.
Proof.
  unfold minOf. revert t. induction ts as [|x ts IH]; intros t.
  - constructor.
  - cbn [fold_left]. constructor; [|apply IH].
    eapply Qle_trans; [apply (minOf_le_first (Qmin t x) ts)|apply Q.le_min_r].
Qed.

Lemma maxOf_ge_first (t : Q) (ts : list Q) : (t <= maxOf t ts)%Q.
Proof.
  unfold maxOf. revert t. induction ts as [|x ts IH]; intros t.
  - apply Qle_refl.
  - cbn [fold_left]. eapply Qle_trans; [apply Q.le_max_l|apply IH].
Qed.

Lemma maxOf_ge_rest (t : Q) (ts : list Q) :
  Forall (fun x => x <= maxOf t ts)%Q ts.
Proof.
  unfold maxOf. revert t. induction ts as [|x ts IH]; intros t.
  - constructor.
  - cbn [fold_left]. constructor; [|apply IH].
    eapply Qle_trans; [apply Q.le_max_r|apply (maxOf_ge_first (Qmax t x) ts)].
Qed.

Lemma minOf_maxOf_bounds (t : Q) (ts : list Q) :
  Forall (fun x => minOf t ts <= x /\ x <= maxOf t ts)%Q (t :: ts).
Proof.
  constructor.
  - split; [apply minOf_le_first|apply maxOf_ge_first].
  - pose proof (minOf_le_rest t ts) as Hmin.
    pose proof (maxOf_ge_rest t ts) as Hmax.
    rewrite Forall_forall in *. intros x Hx. split; auto.
Qed.

Lemma minOf_attained (t : Q) (ts : list Q) : In (minOf t ts) (t :: ts).
Proof.
  unfold minOf. revert t. induction ts as [|x ts IH]; intros t.
  - now left.
  - cbn [fold_left]. destruct (IH (Qmin t x)) as [E|Hin].
    + rewrite <- E. unfold Qmin, GenericMinMax.gmin.
      destruct (t ?= x)%Q; [now left|now left|right; now left].
    + right. now right.
Qed.

Lemma maxOf_attained (t : Q) (ts : list Q) : In (maxOf t ts) (t :: ts).
Proof.
  unfold maxOf. revert t. induction ts as [|x ts IH]; intros t.
  - now left.
  - cbn [fold_left]. destruct (IH (Qmax t x)) as [E|Hin].
    + rewrite <- E. unfold Qmax, GenericMinMax.gmax.
      destruct (t ?= x)%Q; [now left|right; now left|now left].
    + right. now right.
Qed.

(** The frame-time extremes are ordered: every recorded frame time lies
    between the reported minimum and maximum, which are themselves
    recorded frame times; with no frame recorded both are 0. *)
Theorem frame_time_extremes (m : Monitor) :
  Forall (fun t => getMinFrameTime m <= t /\ t <= getMaxFrameTime m)%Q
    (frameTimes m) /\
  (getMinFrameTime m <= getMaxFrameTime m)%Q /\
  match frameTimes m with
  | [] => getMinFrameTime m = 0%Q /\ getMaxFrameTime m = 0%Q
  | _ :: _ =>
      In (getMinFrameTime m) (frameTimes m) /\
      In (getMaxFrameTime m) (frameTimes m)
  end.
Proof.
  unfold getMinFrameTime, getMaxFrameTime.
  destruct (frameTimes m) as [|t ts].
  - split; [constructor|]. split; [apply Qle_refl|]. split; reflexivity.
  - pose proof (minOf_maxOf_bounds t ts) as Hall.
    split; [exact Hall|]. split.
    + apply Forall_cons in Hall as [[Hlo Hhi] _].
      eapply Qle_trans; [exact Hlo|exact Hhi].
    + split; [apply minOf_attained|apply maxOf_attained].
Qed.

(** ** Counters kept across calls *)

Lemma peakMemory_call (c : Call) (m : Monitor) :
  (peakMemory m <= peakMemory (call c m))%Q.
Proof.
  destruct c as [now|tEnd now mem|s e|s e|now mem]; cbn [call].
  - apply Qle_refl.
  - unfold frameEnd. cbv zeta.
    destruct (Js.geb _ _); [|apply Qle_refl].
    destruct mem as [u|]; cbn; [apply Q.le_max_l|apply Qle_refl].
  - apply Qle_refl.
  - apply Qle_refl.
  - destruct mem; apply Qle_refl.
Qed.

(** The peak memory a monitor reports never goes down, whatever is
    called on it, [startProfiling] included. *)
Theorem peakMemory_never_decreases (cs : list Call) (m : Monitor) :
  (peakMemory m <= peakMemory (calls cs m))%Q.
Proof.
  unfold calls. revert m. induction cs as [|c cs IH]; intros m.
  - apply Qle_refl.
  - cbn [fold_left]. eapply Qle_trans; [apply peakMemory_call|apply IH].
Qed.

Lemma counted_call (c : Call) (m : Monitor) : counted m -> counted (call c m).
Proof.
  intros [Hfps Hcount].
  destruct c as [now|tEnd now mem|s e|s e|now mem]; cbn [call].
  - split; assumption.
  - unfold frameEnd. cbv zeta. destruct (Js.geb _ _) eqn:E.
    + assert (Hdt : (1000 <= now - lastFPSUpdate m)%Q)
        by (apply Qle_bool_iff; exact E).
      assert (Hrate :
        (0 <= inject_Z (frameCount m + 1) * 1000 / (now - lastFPSUpdate m))%Q).
      { apply Qle_shift_div_l; [lra|].
        assert (Hc : (0 <= inject_Z (frameCount m + 1))%Q)
          by (change 0%Q with (inject_Z 0); rewrite <- Zle_Qle; lia).
        set (k := inject_Z (frameCount m + 1)) in *. lra. }
      destruct mem as [u|]; split; cbn; first [exact Hrate|lia].
    + split; cbn; [exact Hfps|lia].
  - split; assumption.
  - split; assumption.
  - unfold startProfiling. destruct mem; split; cbn; first [exact Hfps|lia].
Qed.

(** The frame rate the monitor reports is never negative and the frame
    counter never drops below zero, whatever the clock readings are: a
    rate is only computed over an elapsed time of at least 1000 ms. *)
Theorem frame_rate_never_negative (cs : list Call) (now : Q) (mem : Memory) :
  (0 <= getFPS (calls cs (constructor now mem)))%Q /\
  0 <= frameCount (calls cs (constructor now mem)).
Proof.
  assert (Hinit : counted (constructor now mem)).
  { unfold constructor. destruct mem; split; cbn; first [apply Qle_refl|lia]. }
  revert Hinit. unfold calls. generalize (constructor now mem).
  induction cs as [|c cs IH]; intros m Hm.
  - exact Hm.
  - cbn [fold_left]. apply IH, counted_call, Hm.
Qed.

(** ** The performance analysis *)

Ltac compared :=
  repeat match goal with
  | H : Js.ltb _ _ = true |- _ => apply JsFacts.ltb_lt in H
  | H : Js.ltb _ _ = false |- _ => apply JsFacts.ltb_ge in H
  end.

(** The rating is decided by the frame rate and the three strain checks
    alone: poor exactly below 30 FPS, whatever else holds; excellent
    exactly from 55 FPS on with no strain; good exactly from 45 up to 55
    FPS with no strain; fair in every other case. *)
Theorem analyzePerformance_rating (fps : Q) (frameTime : FrameTime)
    (wasmTime renderTime : Q) (memory : MemoryUsage) :
  let report := analyzePerformance fps frameTime wasmTime renderTime memory in
  (rating report = Poor <-> fps < 30)%Q /\
  (rating report = Fair <->
     30 <= fps /\ (fps < 45 \/ strained wasmTime renderTime memory))%Q /\
  (rating report = Good <->
     45 <= fps /\ fps < 55 /\ ~ strained wasmTime renderTime memory)%Q /\
  (rating report = Excellent <->
     55 <= fps /\ ~ strained wasmTime renderTime memory)%Q.
Proof.
  unfold analyzePerformance, strained.
  set (grown := (growth memory / (1024 * 1024))%Q).
  destruct (Js.ltb fps 30) eqn:E30; destruct (Js.ltb fps 45) eqn:E45;
    destruct (Js.ltb fps 55) eqn:E55;
    destruct (Js.ltb 5 (ft_stdDev frameTime));
    destruct (Js.ltb 8 wasmTime) eqn:Ew;
    destruct (Js.ltb 12 renderTime) eqn:Er;
    destruct (Js.ltb 50 grown) eqn:Eg;
    compared; cbn [rating isPoor];
    repeat split; intros; try discriminate; try lra;
    intuition (first [discriminate | lra]).
Qed.

(** The analysis lists no suggestion exactly when the rating is good or
    excellent and the frame times are consistent; a fair or poor rating
    always comes with at least one suggestion. *)
Theorem analyzePerformance_suggestions (fps : Q) (frameTime : FrameTime)
    (wasmTime renderTime : Q) (memory : MemoryUsage) :
  let report := analyzePerformance fps frameTime wasmTime renderTime memory in
  suggestions report = [] <->
  (rating report = Good \/ rating report = Excellent) /\
  (ft_stdDev frameTime <= 5)%Q.
Proof.
  unfold analyzePerformance. cbv zeta.
  set (grown := (growth memory / (1024 * 1024))%Q).
  destruct (Js.ltb fps 30); destruct (Js.ltb fps 45);
    destruct (Js.ltb fps 55);
    destruct (Js.ltb 5 (ft_stdDev frameTime)) eqn:Esd;
    destruct (Js.ltb 8 wasmTime);
    destruct (Js.ltb 12 renderTime);
    destruct (Js.ltb 50 grown);
    compared; cbn [rating suggestions isPoor Js.push app];
    (split;
     [ intros Hs; first [discriminate Hs | split; [auto|exact Esd]]
     | intros [[Hr|Hr] Hsd];
       first [discriminate Hr | reflexivity | exfalso; lra] ]).
Qed.

(** The reported bottleneck as a decision table. A simulation step more
    than twice as slow as rendering always reports the simulation logic,
    the converse reports rendering; otherwise the first check that fired
    is reported, except that a slow simulation step replaces an earlier
    frame consistency finding. No bottleneck is reported exactly when
    no check fired and the two averages are balanced. *)
Theorem analyzePerformance_bottleneck (fps : Q) (frameTime : FrameTime)
    (wasmTime renderTime : Q) (memory : MemoryUsage) :
  let report := analyzePerformance fps frameTime wasmTime renderTime memory in
  let found := bottleneck report in
  let deviation := ft_stdDev frameTime in
  let grown := (growth memory / (1024 * 1024))%Q in
  (found = "simulation_logic" <-> renderTime * 2 < wasmTime)%Q /\
  (found = "rendering" <->
     wasmTime <= renderTime * 2 /\
     (wasmTime * 2 < renderTime \/
      12 < renderTime /\ wasmTime <= 8 /\ deviation <= 5))%Q /\
  (found = "wasm_execution" <->
     8 < wasmTime /\ balanced wasmTime renderTime)%Q /\
  (found = "frame_consistency" <->
     5 < deviation /\ wasmTime <= 8 /\ balanced wasmTime renderTime)%Q /\
  (found = "memory_leak" <->
     50 < grown /\ deviation <= 5 /\ wasmTime <= 8 /\ renderTime <= 12 /\
     balanced wasmTime renderTime)%Q /\
  (found = "none" <->
     deviation <= 5 /\ wasmTime <= 8 /\ renderTime <= 12 /\ grown <= 50 /\
     balanced wasmTime renderTime)%Q.
Proof.
  unfold analyzePerformance, balanced. cbv zeta.
  set (grown := (growth memory / (1024 * 1024))%Q).
  set (byRate := if Js.ltb fps 30 then _ else _).
  clearbody byRate. destruct byRate as [r1 s1].
  destruct (Js.ltb 5 (ft_stdDev frameTime)) eqn:Esd;
    destruct (Js.ltb 8 wasmTime) eqn:Ew;
    destruct (Js.ltb 12 renderTime) eqn:Er;
    destruct (Js.ltb 50 grown) eqn:Eg;
    destruct (Js.ltb (renderTime * 2) wasmTime) eqn:Ewr;
    destruct (Js.ltb (wasmTime * 2) renderTime) eqn:Erw;
    compared; cbn [bottleneck String.eqb Ascii.eqb Bool.eqb];
    repeat split; intros; try discriminate; try lra;
    intuition (first [discriminate | lra]).
Qed.

End PerformanceMonitorFacts.

(** ** HeatmapRenderer *)

Module HeatmapRendererFacts.
Import HeatmapRenderer.

Lemma clamp_range (i : Q) : (0 <= clamp i)%Q /\ (clamp i <= 1)%Q.
Proof.
  unfold clamp. split.
  - apply Q.le_max_l.
  - apply Q.max_lub; [lra|apply Q.le_min_l].
Qed.

(** Clamping is idempotent, as a syntactic equality of numbers. *)
Lemma clamp_idempotent (i : Q) : clamp (clamp i) = clamp i.
Proof.
  unfold clamp, Qmax, Qmin, GenericMinMax.gmax, GenericMinMax.gmin.
  destruct (1 ?= i)%Q eqn:E1; try reflexivity.
  destruct (0 ?= i)%Q eqn:E0; try reflexivity.
  rewrite E1, E0. reflexivity.
Qed.

Lemma floor_between (x : Q) (n : Z) :
  (0 <= x)%Q -> (x <= inject_Z n)%Q -> 0 <= Js.floor x <= n.
Proof.
  intros H0 Hn. split.
  - by apply JsFacts.floor_nonneg.
  - by apply JsFacts.floor_le_Z.
Qed.

Lemma intensityToColor_valid (intensity : Q) :
  validColor (intensityToColor intensity).
Proof.
  unfold validColor, intensityToColor.
  destruct (clamp_range intensity) as [H0 H1].
  set (c := clamp intensity) in *.
  assert (Ha : 0 <= Js.floor (255 * Qmin (c * (3 # 2)) (8 # 10)) <= 204).
  { apply floor_between; unfold inject_Z.
    - assert (0 <= Qmin (c * (3 # 2)) (8 # 10))%Q
        by (apply Q.min_glb; lra).
      lra.
    - pose proof (Q.le_min_r (c * (3 # 2)) (8 # 10)). lra. }
  destruct (Js.ltb c (1 # 4)) eqn:E1.
  { apply JsFacts.ltb_lt in E1. cbv beta iota zeta delta [r g b a].
    assert (0 <= Js.floor (255 * (c * 4)) <= 255)
      by (apply floor_between; unfold inject_Z; lra).
    lia. }
  apply JsFacts.ltb_ge in E1.
  destruct (Js.ltb c (1 # 2)) eqn:E2.
  { apply JsFacts.ltb_lt in E2. cbv beta iota zeta delta [r g b a].
    assert (0 <= Js.floor (255 * ((c - (1 # 4)) * 4)) <= 255)
      by (apply floor_between; unfold inject_Z; lra).
    lia. }
  apply JsFacts.ltb_ge in E2.
  destruct (Js.ltb c (3 # 4)) eqn:E3.
  { apply JsFacts.ltb_lt in E3. cbv beta iota zeta delta [r g b a].
    assert (0 <= Js.floor (128 * ((c - (1 # 2)) * 4)) <= 128)
      by (apply floor_between; unfold inject_Z; lra).
    lia. }
  apply JsFacts.ltb_ge in E3. cbv beta iota zeta delta [r g b a].
  assert (0 <= Js.floor (127 * ((c - (3 # 4)) * 4)) <= 127)
    by (apply floor_between; unfold inject_Z; lra).
  lia.
Qed.

Lemma toUint8Clamped_id (z : Z) : 0 <= z <= 255 -> Js.toUint8Clamped z = z.
Proof. unfold Js.toUint8Clamped. lia. Qed.

(** The ends of the colour map, and intensities outside [0, 1]. *)
Example intensityToColor_ends :
  intensityToColor 0 = {| r := 0; g := 0; b := 0; a := 0 |} /\
  intensityToColor 1 = {| r := 255; g := 255; b := 255; a := 204 |} /\
  intensityToColor (-3) = intensityToColor 0 /\
  intensityToColor 7 = intensityToColor 1 /\
  intensityToColor (1 # 2) = {| r := 255; g := 255; b := 0; a := 191 |}.
Proof. repeat split; reflexivity. Qed.

(** C10. [intensityToColor] gives an intensity the colour of its clamped
    value; the channels are integers with r, g, b in [0, 255] and alpha
    in [0, 204]; so the colour of any heat map entry, in range or not, is
    stored into the canvas image unchanged by the byte clamping. *)
Theorem intensityToColor_clamps :
  forall intensity : Q,
    intensityToColor intensity = intensityToColor (clamp intensity) /\
    clamp intensity = Qmax 0 (Qmin 1 intensity) /\
    validColor (intensityToColor intensity) /\
    forall (data : list Q) (heatmapIndex : nat) (image : list Z) (pixelIndex : nat),
      let c := intensityToColor (intensityAt data heatmapIndex) in
      validColor c /\
      renderPixel data heatmapIndex image pixelIndex
      = <[(pixelIndex + 3)%nat := a c]>
          (<[(pixelIndex + 2)%nat := b c]>
             (<[(pixelIndex + 1)%nat := g c]> (<[pixelIndex := r c]> image))).
Proof.
  intros intensity. split; [|split; [reflexivity|split]].
  - unfold intensityToColor. by rewrite clamp_idempotent.
  - apply intensityToColor_valid.
  - intros data heatmapIndex image pixelIndex c.
    pose proof (intensityToColor_valid (intensityAt data heatmapIndex)) as Hv.
    fold c in Hv. split; [exact Hv|].
    destruct Hv as (Hr & Hg & Hb & Ha).
    unfold renderPixel, putPixel. fold c.
    rewrite !toUint8Clamped_id by lia. reflexivity.
Qed.

(** ** The render loops *)

Lemma length_putPixel (image : list Z) (i : nat) (c : Color) :
  length (putPixel image i c) = length image.
Proof. unfold putPixel. now rewrite !length_insert. Qed.

Lemma pixelNo_putPixel_same (image : list Z) (q : nat) (c : Color) :
  (q * 4 + 3 < length image)%nat ->
  pixelNo (putPixel image (pixelIndex 0 0 q) c) q = Some (stored c).
Proof.
  intros Hq. unfold pixelNo, pixelAt, putPixel, pixelIndex. cbv zeta.
  cbn [Nat.mul Nat.add].
  rewrite list_lookup_insert_ne, list_lookup_insert_ne, list_lookup_insert_ne,
    list_lookup_insert_eq by (rewrite ?length_insert; lia).
  rewrite list_lookup_insert_ne, list_lookup_insert_ne,
    list_lookup_insert_eq by (rewrite ?length_insert; lia).
  rewrite list_lookup_insert_ne, list_lookup_insert_eq
    by (rewrite ?length_insert; lia).
  rewrite list_lookup_insert_eq by (rewrite ?length_insert; lia).
  reflexivity.
Qed.

Lemma pixelNo_putPixel_other (image : list Z) (q q' : nat) (c : Color) :
  q' <> q ->
  pixelNo (putPixel image (pixelIndex 0 0 q) c) q' = pixelNo image q'.
Proof.
  intros Hq. unfold pixelNo, pixelAt, putPixel, pixelIndex. cbv zeta.
  cbn [Nat.mul Nat.add].
  now rewrite !list_lookup_insert_ne by lia.
Qed.

Lemma pixelIndex_number (w canvasY canvasX : nat) :
  pixelIndex w canvasY canvasX = pixelIndex 0 0 (canvasY * w + canvasX).
Proof. reflexivity. Qed.

Section Painting.

Context (w h : nat) (colorAt : nat -> nat -> option Color).
Context (body : list Z -> nat -> nat -> list Z).
Context (Hbody : forall image canvasY canvasX,
  body image canvasY canvasX
  = match colorAt canvasY canvasX with
    | Some c => putPixel image (pixelIndex w canvasY canvasX) c
    | None => image
    end).
Context (before : list Z) (Hlength : length before = (w * h * 4)%nat).

Lemma paintedUpTo_start : paintedUpTo w colorAt before 0 before.
Proof. split; [reflexivity|]. intros q. reflexivity. Qed.

Lemma paintedUpTo_body (image : list Z) (canvasY canvasX : nat) :
  (canvasY < h)%nat -> (canvasX < w)%nat ->
  paintedUpTo w colorAt before (canvasY * w + canvasX) image ->
  paintedUpTo w colorAt before (S (canvasY * w + canvasX))
    (body image canvasY canvasX).
Proof.
  intros Hy Hx [Hlen Hpix]. rewrite Hbody.
  assert (Hdiv : ((canvasY * w + canvasX) / w = canvasY)%nat)
    by (rewrite Nat.div_add_l by lia; rewrite Nat.div_small by lia; lia).
  assert (Hmod : ((canvasY * w + canvasX) mod w = canvasX)%nat)
    by (rewrite Nat.add_comm, Nat.Div0.mod_add; apply Nat.mod_small; lia).
  assert (Hfit : ((canvasY * w + canvasX) * 4 + 3 < length image)%nat).
  { rewrite Hlen, Hlength. nia. }
  set (m := (canvasY * w + canvasX)%nat) in *.
  split.
  - destruct (colorAt canvasY canvasX); [|exact Hlen].
    now rewrite length_putPixel.
  - intros q. specialize (Hpix q).
    destruct (Nat.eq_dec q m) as [->|Hne].
    + replace (m <? S m)%nat with true by (symmetry; apply Nat.ltb_lt; lia).
      replace (m <? m)%nat with false in Hpix
        by (symmetry; apply Nat.ltb_ge; lia).
      rewrite Hdiv, Hmod.
      destruct (colorAt canvasY canvasX) as [c|]; [|exact Hpix].
      rewrite pixelIndex_number. fold m. now apply pixelNo_putPixel_same.
    + replace (q <? S m)%nat with (q <? m)%nat
        by (destruct (Nat.ltb_spec q m), (Nat.ltb_spec q (S m)); lia).
      destruct (colorAt canvasY canvasX) as [c|]; [|exact Hpix].
      rewrite pixelIndex_number. fold m.
      now rewrite pixelNo_putPixel_other.
Qed.

Lemma paintedUpTo_row (image : list Z) (canvasY n : nat) :
  (canvasY < h)%nat -> (n <= w)%nat ->
  paintedUpTo w colorAt before (canvasY * w) image ->
  paintedUpTo w colorAt before (canvasY * w + n)
    (fold_left (fun image canvasX => body image canvasY canvasX)
       (seq 0 n) image).
Proof.
  intros Hy Hn Hstart. induction n as [|n IH].
  - now rewrite Nat.add_0_r.
  - rewrite seq_S, fold_left_app. cbn [fold_left Nat.add].
    rewrite Nat.add_succ_r. apply paintedUpTo_body; [exact Hy|lia|].
    apply IH. lia.
Qed.

Lemma paintedUpTo_rows (n : nat) :
  (n <= h)%nat ->
  paintedUpTo w colorAt before (n * w)
    (fold_left
       (fun image canvasY =>
          fold_left (fun image canvasX => body image canvasY canvasX)
            (seq 0 w) image)
       (seq 0 n) before).
Proof.
  intros Hn. induction n as [|n IH].
  - apply paintedUpTo_start.
  - rewrite seq_S, fold_left_app. cbn [fold_left Nat.add].
    replace (S n * w)%nat with (n * w + w)%nat by lia.
    apply paintedUpTo_row; [lia|lia|]. apply IH. lia.
Qed.

(** The loops over the canvas leave the image as long as it was and
    store, at every pixel that gets a colour, that colour. *)
Lemma forEachPixel_painted :
  length (forEachPixel w h body before) = length before /\
  forall canvasY canvasX, (canvasY < h)%nat -> (canvasX < w)%nat ->
    pixelAt (forEachPixel w h body before) w canvasY canvasX
    = match colorAt canvasY canvasX with
      | Some c => Some (stored c)
      | None => pixelAt before w canvasY canvasX
      end.
Proof.
  destruct (paintedUpTo_rows h (Nat.le_refl h)) as [Hlen Hpix].
  split; [exact Hlen|].
  intros canvasY canvasX Hy Hx.
  assert (Hdiv : ((canvasY * w + canvasX) / w = canvasY)%nat)
    by (rewrite Nat.div_add_l by lia; rewrite Nat.div_small by lia; lia).
  assert (Hmod : ((canvasY * w + canvasX) mod w = canvasX)%nat)
    by (rewrite Nat.add_comm, Nat.Div0.mod_add; apply Nat.mod_small; lia).
  specialize (Hpix (canvasY * w + canvasX)%nat).
  replace (canvasY * w + canvasX <? h * w)%nat with true in Hpix
    by (symmetry; apply Nat.ltb_lt; nia).
  rewrite Hdiv, Hmod in Hpix. exact Hpix.
Qed.

End Painting.

(** *** Scaling up *)

Lemma fold_left_agree {A B} (f g : A -> B -> A) (l : list B) (s : A) :
  (forall x t, In x l -> f t x = g t x) ->
  fold_left f l s = fold_left g l s.
Proof.
  revert s. induction l as [|x l IH]; intros s Hfg; [reflexivity|].
  cbn [fold_left]. rewrite (Hfg x s) by now left.
  apply IH. intros y t Hy. apply Hfg. now right.
Qed.

Lemma heatmapCoordinate_cellOf (cells pixels : Z) (canvas : nat) :
  0 < cells -> 0 < pixels ->
  heatmapCoordinate canvas (inject_Z pixels / inject_Z cells)
  = cellOf cells pixels canvas.
Proof.
  intros Hc Hp. unfold heatmapCoordinate, cellOf, Js.floor.
  destruct pixels as [|p|p]; try lia.
  assert (Hcq : (0 < inject_Z cells)%Q)
    by (change 0%Q with (inject_Z 0); now rewrite <- Zlt_Qlt).
  assert (Hpq : (0 < inject_Z (Z.pos p))%Q) by reflexivity.
  assert (Hq :
    (inject_Z (Z.of_nat canvas) / (inject_Z (Z.pos p) / inject_Z cells)
     == (Z.of_nat canvas * cells) # p)%Q).
  { rewrite (Qmake_Qdiv (Z.of_nat canvas * cells) p), inject_Z_mult.
    field. split; lra. }
  rewrite Hq. reflexivity.
Qed.

Lemma cellOf_range (cells pixels : Z) (canvas : nat) :
  0 < cells -> Z.of_nat canvas < pixels ->
  0 <= cellOf cells pixels canvas < cells.
Proof.
  intros Hc Hp. unfold cellOf. split.
  - apply Z.div_pos; nia.
  - apply Z.div_lt_upper_bound; nia.
Qed.

Lemma stored_valid (c : Color) : validColor c -> stored c = c.
Proof.
  intros (Hr & Hg & Hb & Ha). unfold stored.
  rewrite !toUint8Clamped_id by lia. now destruct c.
Qed.

Lemma upscaledPixel_color (heatmapData : MemoryHeatmapData) (w h : nat)
    (image : list Z) (canvasY canvasX : nat) :
  0 < width heatmapData -> 0 < height heatmapData ->
  (canvasY < h)%nat -> (canvasX < w)%nat ->
  let hx := cellOf (width heatmapData) (Z.of_nat w) canvasX in
  let hy := cellOf (height heatmapData) (Z.of_nat h) canvasY in
  upscaledPixel heatmapData
    (inject_Z (Z.of_nat w) / inject_Z (width heatmapData))
    (inject_Z (Z.of_nat h) / inject_Z (height heatmapData))
    w image canvasY canvasX
  = putPixel image (pixelIndex w canvasY canvasX)
      (intensityToColor
         (intensityAt (data heatmapData)
            (Z.to_nat (hy * width heatmapData + hx)))).
Proof.
  intros Hw Hh Hy Hx hx hy. unfold upscaledPixel. cbv zeta.
  rewrite !heatmapCoordinate_cellOf by lia. fold hx hy.
  destruct (cellOf_range (width heatmapData) (Z.of_nat w) canvasX) as [Hx0 Hx1];
    [lia|lia|].
  destruct (cellOf_range (height heatmapData) (Z.of_nat h) canvasY) as [Hy0 Hy1];
    [lia|lia|].
  fold hx in Hx0, Hx1. fold hy in Hy0, Hy1.
  replace (hx <? width heatmapData) with true
    by (symmetry; apply Z.ltb_lt; lia).
  replace (hy <? height heatmapData) with true
    by (symmetry; apply Z.ltb_lt; lia).
  cbn [andb]. unfold intensityAtIndex.
  replace (hy * width heatmapData + hx <? 0) with false
    by (symmetry; apply Z.ltb_ge; nia).
  reflexivity.
Qed.

(** Scaling up paints the whole canvas: when the heat map is not larger
    than the canvas in either direction, [render] leaves the image as
    long as it was and gives every canvas pixel the colour of a cell of
    the heat map: the bounds check of the loop never leaves a pixel
    out. *)
Theorem upscaling_paints_every_pixel (heatmapData : MemoryHeatmapData)
    (this : Renderer) (image : list Z) :
  imageData this = Some image ->
  length image = (this_width this * this_height this * 4)%nat ->
  0 < width heatmapData <= Z.of_nat (this_width this) ->
  0 < height heatmapData <= Z.of_nat (this_height this) ->
  exists image',
    imageData (render (Some heatmapData) this) = Some image' /\
    length image' = length image /\
    forall canvasY canvasX,
      (canvasY < this_height this)%nat -> (canvasX < this_width this)%nat ->
      exists hx hy,
        0 <= hx < width heatmapData /\ 0 <= hy < height heatmapData /\
        pixelAt image' (this_width this) canvasY canvasX
        = Some (intensityToColor
                  (intensityAt (data heatmapData)
                     (Z.to_nat (hy * width heatmapData + hx)))).
Proof.
  intros Himage Hlen Hw Hh. unfold render. rewrite Himage. cbv zeta.
  set (w := this_width this) in *. set (h := this_height this) in *.
  assert (Hscale : forall cells pixels : Z, 0 < cells <= pixels ->
    Js.geb (inject_Z pixels / inject_Z cells) 1 = true).
  { intros cells pixels Hc. unfold Js.geb. apply Qle_bool_iff.
    assert (Hcq : (0 < inject_Z cells)%Q)
      by (change 0%Q with (inject_Z 0); rewrite <- Zlt_Qlt; lia).
    apply Qle_shift_div_l; [exact Hcq|].
    rewrite Qmult_1_l, <- Zle_Qle. lia. }
  rewrite !Hscale by lia. cbn [andb imageData].
  eexists. split; [reflexivity|]. unfold renderUpscaled.
  set (colorAt := fun canvasY canvasX : nat =>
    if (canvasY <? h)%nat && (canvasX <? w)%nat then
      Some (intensityToColor
              (intensityAt (data heatmapData)
                 (Z.to_nat
                    (cellOf (height heatmapData) (Z.of_nat h) canvasY
                     * width heatmapData
                     + cellOf (width heatmapData) (Z.of_nat w) canvasX))))
    else None).
  set (body := fun image canvasY canvasX =>
    match colorAt canvasY canvasX with
    | Some c => putPixel image (pixelIndex w canvasY canvasX) c
    | None => image
    end).
  assert (Hsame : forall n m image0,
    (n <= h)%nat -> (m <= w)%nat ->
    fold_left
      (fun image canvasY =>
         fold_left
           (fun image canvasX =>
              upscaledPixel heatmapData
                (inject_Z (Z.of_nat w) / inject_Z (width heatmapData))
                (inject_Z (Z.of_nat h) / inject_Z (height heatmapData))
                w image canvasY canvasX)
           (seq 0 w) image)
      (seq 0 n) image0
    = fold_left
        (fun image canvasY =>
           fold_left (fun image canvasX => body image canvasY canvasX)
             (seq 0 w) image)
        (seq 0 n) image0).
  { intros n m image0 Hn _.
    apply fold_left_agree; intros canvasY image1 Hy.
    apply fold_left_agree; intros canvasX image2 Hx.
    apply in_seq in Hy, Hx. unfold body, colorAt.
    replace (canvasY <? h)%nat with true by (symmetry; apply Nat.ltb_lt; lia).
    replace (canvasX <? w)%nat with true by (symmetry; apply Nat.ltb_lt; lia).
    cbn [andb]. apply upscaledPixel_color; lia. }
  unfold forEachPixel. rewrite (Hsame h w image) by lia.
  destruct (forEachPixel_painted w h colorAt body (fun _ _ _ => eq_refl)
              image Hlen) as [Hlen' Hpix].
  unfold forEachPixel in Hlen', Hpix.
  split; [exact Hlen'|].
  intros canvasY canvasX Hy Hx.
  exists (cellOf (width heatmapData) (Z.of_nat w) canvasX),
    (cellOf (height heatmapData) (Z.of_nat h) canvasY).
  split; [apply cellOf_range; lia|]. split; [apply cellOf_range; lia|].
  rewrite (Hpix canvasY canvasX Hy Hx). unfold colorAt.
  replace (canvasY <? h)%nat with true by (symmetry; apply Nat.ltb_lt; lia).
  replace (canvasX <? w)%nat with true by (symmetry; apply Nat.ltb_lt; lia).
  cbn [andb]. f_equal. apply stored_valid, intensityToColor_valid.
Qed.

(** When the heat map is not larger than the canvas, the mapping from
    canvas pixels to heat map cells keeps the order and reaches every
    cell: no cell of the heat map is left out of the picture. *)
Theorem upscaling_shows_every_cell (cells pixels cell : Z) :
  0 < cells <= pixels -> 0 <= cell < cells ->
  (forall c1 c2 : nat, (c1 <= c2)%nat ->
     heatmapCoordinate c1 (inject_Z pixels / inject_Z cells)
     <= heatmapCoordinate c2 (inject_Z pixels / inject_Z cells)) /\
  exists canvas : nat,
    Z.of_nat canvas < pixels /\
    heatmapCoordinate canvas (inject_Z pixels / inject_Z cells) = cell.
Proof.
  intros Hc Hcell. split.
  - intros c1 c2 Hle. rewrite !heatmapCoordinate_cellOf by lia.
    unfold cellOf. apply Z.div_le_mono; nia.
  - set (c := (cell * pixels + cells - 1) / cells).
    assert (Hlow : c * cells <= cell * pixels + cells - 1)
      by (subst c; rewrite Z.mul_comm; apply Z.mul_div_le; lia).
    assert (Hhigh : cell * pixels + cells - 1 < (c + 1) * cells).
    { subst c. rewrite (Z.mul_comm _ cells), Z.mul_add_distr_l, Z.mul_1_r.
      pose proof (Z.mod_pos_bound (cell * pixels + cells - 1) cells).
      pose proof (Z.div_mod (cell * pixels + cells - 1) cells). lia. }
    assert (Hc0 : 0 <= c) by (subst c; apply Z.div_pos; nia).
    exists (Z.to_nat c). rewrite heatmapCoordinate_cellOf by lia.
    unfold cellOf. rewrite Z2Nat.id by exact Hc0. split; [nia|].
    symmetry. apply (Z.div_unique_pos _ _ _ (c * cells - cell * pixels)); nia.
Qed.

Lemma upscaling_shows_every_cell_witness :
  exists canvas : nat,
    Z.of_nat canvas < 5 /\
    heatmapCoordinate canvas (inject_Z 5 / inject_Z 3) = 2.
Proof.
  assert (Hc : 0 < 3 <= 5) by lia.
  assert (Hcell : 0 <= 2 < 3) by lia.
  destruct (upscaling_shows_every_cell 3 5 2 Hc Hcell) as [_ H].
  exact H.
Defined.

Lemma upscaling_paints_every_pixel_witness :
  exists image',
    imageData (render (Some sampleHeatmap) sampleRenderer) = Some image' /\
    length image' = 12%nat.
Proof.
  assert (Hw : 0 < 2 <= Z.of_nat 3) by (cbn; lia).
  assert (Hh : 0 < 1 <= Z.of_nat 1) by (cbn; lia).
  destruct (upscaling_paints_every_pixel sampleHeatmap sampleRenderer
              (createImageData 3 1) eq_refl eq_refl Hw Hh)
    as (image' & Himage & Hlen & _).
  exists image'. split; [exact Himage|exact Hlen].
Defined.

(** *** Scaling down *)

Lemma forWhile_span {St} (fuel : nat) (i stop bound : Z)
    (body : St -> Z -> St) (s : St) :
  (Z.to_nat (bound - i) <= fuel)%nat ->
  forWhile fuel i (fun j => (j <=? stop) && (j <? bound)) body s
  = fold_left body (span i stop bound) s.
Proof.
  revert i s. induction fuel as [|fuel IH]; intros i s Hfuel.
  - cbn [forWhile]. unfold span. rewrite seqZ_nil by lia. reflexivity.
  - cbn [forWhile].
    destruct ((i <=? stop) && (i <? bound)) eqn:E.
    + apply andb_true_iff in E as [E1 E2].
      apply Z.leb_le in E1. apply Z.ltb_lt in E2.
      unfold span. rewrite seqZ_cons by lia. cbn [fold_left].
      rewrite IH by lia. unfold span. do 2 f_equal. lia.
    + unfold span. rewrite seqZ_nil; [reflexivity|].
      apply andb_false_iff in E as [E|E];
        [apply Z.leb_gt in E|apply Z.ltb_ge in E]; lia.
Qed.

Lemma fold_left_flat_map {A B C} (f : A -> C -> A) (g : B -> list C)
    (l : list B) (s : A) :
  fold_left f (flat_map g l) s
  = fold_left (fun s x => fold_left f (g x) s) l s.
Proof.
  revert s. induction l as [|x l IH]; intros s; [reflexivity|].
  cbn [flat_map fold_left]. now rewrite fold_left_app, IH.
Qed.

Lemma fold_left_map_arg {A B C} (f : A -> C -> A) (g : B -> C)
    (l : list B) (s : A) :
  fold_left f (map g l) s = fold_left (fun s x => f s (g x)) l s.
Proof.
  revert s. induction l as [|x l IH]; intros s; [reflexivity|].
  cbn [map fold_left]. apply IH.
Qed.

Lemma fold_left_counted (values : list Q) (cells : list Z) (total : Q)
    (count : Z) :
  fold_left
    (fun acc heatmapIndex =>
       ((fst acc + intensityAtIndex values heatmapIndex)%Q, snd acc + 1))
    cells (total, count)
  = (fold_left
       (fun total heatmapIndex =>
          (total + intensityAtIndex values heatmapIndex)%Q)
       cells total,
     count + Z.of_nat (length cells)).
Proof.
  revert total count. induction cells as [|i cells IH]; intros total count.
  - cbn. f_equal. lia.
  - cbn [fold_left length fst snd]. rewrite IH. f_equal. lia.
Qed.

(** The sampling loops add up the intensities of the sampled cells and
    count them. *)
Lemma sampleArea_cells (heatmapData : MemoryHeatmapData)
    (startX endX startY endY : Z) :
  sampleArea heatmapData startX endX startY endY
  = (sumIntensity heatmapData
       (sampledCells heatmapData startX endX startY endY),
     Z.of_nat (length (sampledCells heatmapData startX endX startY endY))).
Proof.
  unfold sampleArea, sumIntensity, sampledCells.
  rewrite forWhile_span by lia.
  rewrite <- (Z.add_0_l (Z.of_nat _)), <- fold_left_counted.
  rewrite fold_left_flat_map.
  apply fold_left_agree. intros hy acc _.
  rewrite forWhile_span by lia. now rewrite fold_left_map_arg.
Qed.

Lemma span_cells (start stop bound : Z) :
  0 <= start -> start <= stop -> start < bound ->
  span start stop bound <> [] /\
  Forall (fun i => 0 <= i < bound) (span start stop bound).
Proof.
  intros H0 Hs Hb. unfold span. split.
  - rewrite seqZ_cons by lia. discriminate.
  - apply Forall_forall. intros i Hi. apply elem_of_seqZ in Hi. lia.
Qed.

Lemma sampledCells_inside (heatmapData : MemoryHeatmapData)
    (startX endX startY endY : Z) :
  0 <= startX -> startX <= endX -> startX < width heatmapData ->
  0 <= startY -> startY <= endY -> startY < height heatmapData ->
  sampledCells heatmapData startX endX startY endY <> [] /\
  Forall (fun i => 0 <= i < width heatmapData * height heatmapData)
    (sampledCells heatmapData startX endX startY endY).
Proof.
  intros Hx0 Hxs Hxb Hy0 Hys Hyb. unfold sampledCells.
  destruct (span_cells startX endX (width heatmapData)) as [Hxn Hxall];
    try assumption.
  destruct (span_cells startY endY (height heatmapData)) as [Hyn Hyall];
    try assumption.
  split.
  - destruct (span startY endY (height heatmapData)) as [|hy rows];
      [now destruct Hyn|].
    destruct (span startX endX (width heatmapData)) as [|hx columns];
      [now destruct Hxn|].
    discriminate.
  - apply Forall_forall. intros i Hi.
    apply list_elem_of_In, in_flat_map in Hi as (hy & Hhy & Hi).
    apply in_map_iff in Hi as (hx & <- & Hhx).
    rewrite Forall_forall in Hxall, Hyall.
    apply list_elem_of_In in Hhy, Hhx.
    specialize (Hxall hx Hhx). specialize (Hyall hy Hhy). nia.
Qed.

Lemma cellOf_step (cells pixels : Z) (canvas : nat) :
  0 < cells -> 0 < pixels ->
  cellOf cells pixels canvas <= cellOf cells pixels (canvas + 1).
Proof.
  intros Hc Hp. unfold cellOf. apply Z.div_le_mono; nia.
Qed.

Lemma downscaledPixel_color (heatmapData : MemoryHeatmapData) (w h : nat)
    (image : list Z) (canvasY canvasX : nat) :
  0 < width heatmapData -> 0 < height heatmapData ->
  (canvasY < h)%nat -> (canvasX < w)%nat ->
  let cells :=
    sampledCells heatmapData
      (cellOf (width heatmapData) (Z.of_nat w) canvasX)
      (cellOf (width heatmapData) (Z.of_nat w) (canvasX + 1))
      (cellOf (height heatmapData) (Z.of_nat h) canvasY)
      (cellOf (height heatmapData) (Z.of_nat h) (canvasY + 1)) in
  (cells <> [] /\
   Forall (fun i => 0 <= i < width heatmapData * height heatmapData) cells) /\
  downscaledPixel heatmapData
    (inject_Z (Z.of_nat w) / inject_Z (width heatmapData))
    (inject_Z (Z.of_nat h) / inject_Z (height heatmapData))
    w image canvasY canvasX
  = putPixel image (pixelIndex w canvasY canvasX)
      (intensityToColor
         (sumIntensity heatmapData cells
          / inject_Z (Z.of_nat (length cells)))).
Proof.
  intros Hw Hh Hy Hx cells.
  assert (Hcells : cells <> [] /\
    Forall (fun i => 0 <= i < width heatmapData * height heatmapData) cells).
  { apply sampledCells_inside;
      try (apply cellOf_range; lia); try (apply cellOf_step; lia). }
  split; [exact Hcells|].
  unfold downscaledPixel. cbv zeta.
  rewrite !heatmapCoordinate_cellOf by lia.
  rewrite sampleArea_cells. fold cells. unfold averageIntensity.
  replace (0 <? Z.of_nat (length cells)) with true; [reflexivity|].
  symmetry. apply Z.ltb_lt. destruct cells; [now destruct Hcells|cbn; lia].
Qed.

(** Scaling down paints the whole canvas: when the heat map is larger
    than the canvas in some direction, [render] keeps the image length
    and stores at every canvas pixel a colour of the colour map, with
    every channel in range. *)
Theorem downscaling_paints_every_pixel (heatmapData : MemoryHeatmapData)
    (this : Renderer) (image : list Z) :
  imageData this = Some image ->
  length image = (this_width this * this_height this * 4)%nat ->
  0 < width heatmapData -> 0 < height heatmapData ->
  Z.of_nat (this_width this) < width heatmapData \/
  Z.of_nat (this_height this) < height heatmapData ->
  exists image',
    imageData (render (Some heatmapData) this) = Some image' /\
    length image' = length image /\
    forall canvasY canvasX,
      (canvasY < this_height this)%nat -> (canvasX < this_width this)%nat ->
      exists intensity,
        pixelAt image' (this_width this) canvasY canvasX
        = Some (intensityToColor intensity) /\
        validColor (intensityToColor intensity).
Proof.
  intros Himage Hlen Hw Hh Hlarger. unfold render. rewrite Himage. cbv zeta.
  set (w := this_width this) in *. set (h := this_height this) in *.
  assert (Hscale : forall cells pixels : Z, 0 < cells -> pixels < cells ->
    Js.geb (inject_Z pixels / inject_Z cells) 1 = false).
  { intros cells pixels Hc Hp. unfold Js.geb.
    destruct (Qle_bool 1 (inject_Z pixels / inject_Z cells)) eqn:E;
      [|reflexivity].
    apply Qle_bool_iff in E. exfalso.
    assert (Hcq : (0 < inject_Z cells)%Q)
      by (change 0%Q with (inject_Z 0); rewrite <- Zlt_Qlt; lia).
    assert (Hlt : (inject_Z pixels / inject_Z cells < 1)%Q).
    { apply Qlt_shift_div_r; [exact Hcq|].
      rewrite Qmult_1_l, <- Zlt_Qlt. exact Hp. }
    lra. }
  assert (Hbranch :
    Js.geb (inject_Z (Z.of_nat w) / inject_Z (width heatmapData)) 1
    && Js.geb (inject_Z (Z.of_nat h) / inject_Z (height heatmapData)) 1
    = false).
  { destruct Hlarger as [Hl|Hl].
    - now rewrite (Hscale _ _ Hw Hl).
    - rewrite (Hscale _ _ Hh Hl). apply andb_false_r. }
  rewrite Hbranch. cbn [imageData].
  eexists. split; [reflexivity|]. unfold renderDownscaled.
  set (colorAt := fun canvasY canvasX : nat =>
    if (canvasY <? h)%nat && (canvasX <? w)%nat then
      let cells :=
        sampledCells heatmapData
          (cellOf (width heatmapData) (Z.of_nat w) canvasX)
          (cellOf (width heatmapData) (Z.of_nat w) (canvasX + 1))
          (cellOf (height heatmapData) (Z.of_nat h) canvasY)
          (cellOf (height heatmapData) (Z.of_nat h) (canvasY + 1)) in
      Some (intensityToColor
              (sumIntensity heatmapData cells
               / inject_Z (Z.of_nat (length cells))))
    else None).
  set (body := fun image canvasY canvasX =>
    match colorAt canvasY canvasX with
    | Some c => putPixel image (pixelIndex w canvasY canvasX) c
    | None => image
    end).
  assert (Hsame : forall image0,
    forEachPixel w h
      (downscaledPixel heatmapData
         (inject_Z (Z.of_nat w) / inject_Z (width heatmapData))
         (inject_Z (Z.of_nat h) / inject_Z (height heatmapData)) w) image0
    = forEachPixel w h body image0).
  { intros image0. unfold forEachPixel.
    apply fold_left_agree; intros canvasY image1 Hy.
    apply fold_left_agree; intros canvasX image2 Hx.
    apply in_seq in Hy, Hx. unfold body, colorAt.
    replace (canvasY <? h)%nat with true by (symmetry; apply Nat.ltb_lt; lia).
    replace (canvasX <? w)%nat with true by (symmetry; apply Nat.ltb_lt; lia).
    cbn [andb]. cbv zeta.
    apply (downscaledPixel_color heatmapData w h); lia. }
  rewrite Hsame.
  destruct (forEachPixel_painted w h colorAt body (fun _ _ _ => eq_refl)
              image Hlen) as [Hlen' Hpix].
  split; [exact Hlen'|].
  intros canvasY canvasX Hy Hx.
  rewrite (Hpix canvasY canvasX Hy Hx). unfold colorAt.
  replace (canvasY <? h)%nat with true by (symmetry; apply Nat.ltb_lt; lia).
  replace (canvasX <? w)%nat with true by (symmetry; apply Nat.ltb_lt; lia).
  cbn [andb]. cbv zeta. eexists. split; [|apply intensityToColor_valid].
  f_equal. apply stored_valid, intensityToColor_valid.
Qed.

Lemma downscaling_paints_every_pixel_witness :
  exists image',
    imageData
      (render (Some sampleHeatmap)
         (resize 1 1 {| this_width := 0; this_height := 0; imageData := None |}))
    = Some image' /\
    length image' = 4%nat.
Proof.
  assert (Hw : 0 < width sampleHeatmap) by reflexivity.
  assert (Hh : 0 < height sampleHeatmap) by reflexivity.
  assert (Hlarger :
    Z.of_nat 1 < width sampleHeatmap \/ Z.of_nat 1 < height sampleHeatmap)
    by (left; reflexivity).
  destruct (downscaling_paints_every_pixel sampleHeatmap
              (resize 1 1 {| this_width := 0; this_height := 0;
                             imageData := None |})
              (createImageData 1 1) eq_refl eq_refl Hw Hh Hlarger)
    as (image' & Himage & Hlen & _).
  exists image'. split; [exact Himage|exact Hlen].
Defined.

End HeatmapRendererFacts.

(** ** The simulation core *)

Module CoreFacts.
Import Core.

Section Invariant.
Context `{Policy}.
Variable cfg : Config.
Hypothesis cfg_ok : valid_config cfg = true.

Lemma initial_energy_pos : 0 < initial_energy cfg.
Proof.
  unfold valid_config in cfg_ok.
  repeat (apply andb_prop in cfg_ok; destruct cfg_ok as [cfg_ok ?]).
  lia.
Qed.

Lemma costs_nonneg :
  0 <= survival_cost cfg /\ 0 <= move_cost cfg /\ 0 <= attack_cost cfg /\
  0 <= defend_cost cfg /\ 0 <= replication_cost cfg /\ 0 <= attack_damage cfg.
Proof.
  unfold valid_config in cfg_ok.
  repeat (apply andb_prop in cfg_ok; destruct cfg_ok as [cfg_ok ?]).
  lia.
Qed.

(** *** Counters and the generator do not matter to the invariant *)

Lemma wf_set_rng r a : wf cfg a -> wf cfg (set_rng r a).
Proof. intros []. by constructor. Qed.

Lemma wf_set_tick t a : wf cfg a -> wf cfg (set_tick t a).
Proof. intros []. by constructor. Qed.

Lemma wf_set_next_id n a :
  (next_id a <= n)%nat -> wf cfg a -> wf cfg (set_next_id n a).
Proof.
  intros Hn [Hw Ho Hr Hf]. constructor; try assumption.
  intros id w Hl. simpl in *. destruct (Hw id w Hl) as (?&?&?&?&?&?).
  split_and!; try assumption; lia.
Qed.

Lemma wf_empty seed : wf cfg (empty_arena seed).
Proof.
  constructor; simpl.
  - intros id w Hl. by rewrite lookup_empty in Hl.
  - intros p id Hl. by rewrite lookup_empty in Hl.
  - intros p v ty Hl. by rewrite lookup_empty in Hl.
  - constructor.
Qed.

(** *** The primitives of Arena Memory *)

Lemma wf_remove id a : wf cfg a -> wf cfg (remove id a).
Proof.
  intros Hwf. unfold remove. destruct (warriors a !! id) as [w|] eqn:E; [|done].
  destruct Hwf as [Hw Ho Hr Hf].
  destruct (Hw _ _ E) as (_ & Hc & _).
  constructor; simpl; try assumption.
  - intros id' w' Hl. apply lookup_delete_Some in Hl as [Hne Hl].
    destruct (Hw _ _ Hl) as (?&Hc'&?&?&?&?).
    split_and!; try assumption.
    rewrite lookup_delete_ne; [done|].
    intros Heq. rewrite Heq in Hc. congruence.
  - intros p id' Hl. apply lookup_delete_Some in Hl as [Hne Hl].
    destruct (Ho _ _ Hl) as (w' & Hl' & Hp).
    exists w'. split; [|done].
    rewrite lookup_delete_ne; [done|].
    intros ->. congruence.
  - intros p v ty Hl. apply lookup_delete_Some in Hl as [_ Hl]. eauto.
Qed.

Lemma consume_resource_free (cs : gmap Pos Cell) p :
  free_cell cs p = true ->
  (forall v ty, cs !! p = Some (Resource v ty) -> 0 <= v) ->
  exists gain, consume_resource p cs = (gain, delete p cs) /\ 0 <= gain
               /\ forall id, cs !! p <> Some (Occupant id).
Proof.
  unfold free_cell, consume_resource. intros Hfree Hres.
  destruct (cs !! p) as [[v ty| |]|] eqn:E; try discriminate.
  - exists v. repeat split; [eauto|done].
  - exists 0. rewrite delete_id by done. repeat split; [lia|done].
Qed.

Lemma wf_place w p a a' :
  wf cfg a -> warriors a !! w_id w = None -> (w_id w < next_id a)%nat ->
  coherent cfg w -> 0 < w_energy w ->
  place cfg w p a = Some a' -> wf cfg a'.
Proof.
  intros [Hw Ho Hr Hf] Hnone Hid Hcoh He. unfold place.
  destruct (in_bounds cfg p && free_cell (cells a) p) eqn:E; [|done].
  apply andb_prop in E as [Hb Hfree].
  destruct (consume_resource_free _ _ Hfree (Hr p)) as (gain & -> & Hg & Hno).
  intros [= <-]. constructor; simpl; try assumption.
  - intros id w' Hl. apply lookup_insert_Some in Hl as [[<- <-]|[Hne Hl]].
    + simpl. rewrite lookup_insert_eq. split_and!; try done; lia.
    + destruct (Hw _ _ Hl) as (?&Hc&?&?&?&?).
      split_and!; try assumption.
      assert (w_pos w' ≠ p) by (intros Heq; rewrite Heq in Hc; by eapply Hno).
      by rewrite lookup_insert_ne, lookup_delete_ne.
  - intros q id Hl. apply lookup_insert_Some in Hl as [[<- [= <-]]|[Hne Hl]].
    + eexists. rewrite lookup_insert_eq. done.
    + apply lookup_delete_Some in Hl as [_ Hl].
      destruct (Ho _ _ Hl) as (w' & Hl' & Hp).
      exists w'. split; [|done].
      rewrite lookup_insert_ne; [done|]. intros Heq. congruence.
  - intros q v ty Hl. apply lookup_insert_Some in Hl as [[_ [=]]|[_ Hl]].
    apply lookup_delete_Some in Hl as [_ Hl]. eauto.
Qed.

(** Replacing the record of a live warrior by one at the same position,
    with positive energy and a coherent network. *)
Lemma wf_update id w w' a :
  wf cfg a -> warriors a !! id = Some w ->
  w_id w' = w_id w -> w_pos w' = w_pos w -> coherent cfg w' ->
  0 < w_energy w' ->
  wf cfg (set_warriors (<[id := w']> (warriors a)) a).
Proof.
  intros [Hw Ho Hr Hf] Hl Hid Hp Hc He.
  destruct (Hw _ _ Hl) as (Hi & Hcell & Hb & _ & Hn & _).
  constructor; simpl; try assumption.
  - intros id' w'' Hl'. apply lookup_insert_Some in Hl' as [[<- <-]|[Hne Hl']].
    + rewrite Hid, Hp. split_and!; done.
    + by apply Hw.
  - intros p id' Hcl. destruct (Ho _ _ Hcl) as (w0 & Hl0 & Hp0).
    destruct (decide (id = id')) as [<-|Hne].
    + exists w'. rewrite lookup_insert_eq. split; [done|]. congruence.
    + exists w0. by rewrite lookup_insert_ne.
Qed.

Lemma remove_frame id a :
  fallen (remove id a) = fallen a /\ next_id (remove id a) = next_id a /\
  tick (remove id a) = tick a /\ generation (remove id a) = generation a /\
  rng (remove id a) = rng a.
Proof. unfold remove. by destruct (warriors a !! id). Qed.

Lemma wf_kill w a :
  wf cfg a -> coherent cfg w -> w_energy w <= 0 -> wf cfg (kill w a).
Proof.
  intros Hwf Hc He. unfold kill.
  pose proof (wf_remove (w_id w) a Hwf) as [Hw Ho Hr Hf].
  constructor; try assumption.
  apply Forall_app. split; [by destruct Hwf|]. by apply Forall_singleton.
Qed.

(** *** Genomes keep the fixed size *)

Lemma mutate_length rate g r : length (mutate rate g r).1 = length g.
Proof.
  revert r. induction g as [|b g IH]; intros r; simpl; [done|].
  specialize (IH (rng_next r)).
  destruct (mutate rate g (rng_next r)) as [g' r']. simpl in *. by rewrite IH.
Qed.

Lemma crossover_length ga gb r :
  length ga = GENOME_SIZE -> length gb = GENOME_SIZE ->
  length (crossover ga gb r).1 = GENOME_SIZE.
Proof.
  intros Ha Hb. unfold crossover. cbn [fst].
  rewrite length_imap, length_zip, Ha, Hb. lia.
Qed.

Lemma random_genome_length n r : length (random_genome n r).1 = n.
Proof.
  revert r. induction n as [|n IH]; intros r; simpl; [done|].
  specialize (IH (rng_next r)).
  destruct (random_genome n (rng_next r)) as [g r']. simpl in *. by rewrite IH.
Qed.

Lemma mutate_cost_nonneg : 0 <= mutate_cost cfg.
Proof.
  unfold valid_config in cfg_ok.
  repeat (apply andb_prop in cfg_ok; destruct cfg_ok as [cfg_ok ?]).
  lia.
Qed.

(** A warrior at the start of its life. *)
Lemma new_warrior_Some id g p gen depth w :
  new_warrior cfg id g p gen depth = Some w ->
  w_id w = id /\ w_genome w = g /\ w_energy w = initial_energy cfg /\
  w_learned w = false /\ decode (hidden_size cfg) g = Some (w_network w).
Proof.
  unfold new_warrior. destruct (decode (hidden_size cfg) g) as [n|]; [|done].
  simpl. by intros [= <-].
Qed.

Lemma coherent_new_warrior id g p gen depth w :
  length g = GENOME_SIZE -> new_warrior cfg id g p gen depth = Some w ->
  coherent cfg w.
Proof.
  intros Hlen Hw. apply new_warrior_Some in Hw as (_ & Hg & _ & Hl & Hd).
  unfold coherent. rewrite Hg. by split_and!.
Qed.

(** *** The actions of the virtual machine *)

Lemma fresh_id a : wf cfg a -> warriors a !! next_id a = None.
Proof.
  intros Hwf. destruct (warriors a !! next_id a) as [w0|] eqn:E; [|done].
  destruct (wf_warrior _ _ Hwf _ _ E) as (_&_&_&_&Hlt&_). lia.
Qed.

Lemma wf_place_fresh w p a a' :
  wf cfg a -> w_id w = next_id a -> coherent cfg w -> 0 < w_energy w ->
  place cfg w p (set_next_id (S (next_id a)) a) = Some a' ->
  wf cfg a'.
Proof.
  intros Hwf Hid Hc He Hp.
  apply (wf_place w p (set_next_id (S (next_id a)) a)); try done.
  - apply wf_set_next_id; [simpl; lia|]. done.
  - simpl. rewrite Hid. by apply fresh_id.
  - simpl. lia.
Qed.

Lemma wf_place_new w p r a a' :
  wf cfg a -> w_id w = next_id a -> coherent cfg w -> 0 < w_energy w ->
  place cfg w p (set_next_id (S (next_id a)) (set_rng r a)) = Some a' ->
  wf cfg a'.
Proof.
  intros Hwf Hid Hc He Hp.
  apply (wf_place_fresh w p (set_rng r a)); try done. by apply wf_set_rng.
Qed.

Lemma wf_born g p gen depth r w a a' :
  wf cfg a -> length g = GENOME_SIZE ->
  new_warrior cfg (next_id a) g p gen depth = Some w ->
  place cfg w p (set_next_id (S (next_id a)) (set_rng r a)) = Some a' ->
  wf cfg a'.
Proof.
  intros Hwf Hlen Hw Hp.
  pose proof (coherent_new_warrior _ _ _ _ _ _ Hlen Hw) as Hc.
  apply new_warrior_Some in Hw as (Hid & _ & He & _).
  refine (wf_place_new _ _ _ _ _ Hwf Hid Hc _ Hp).
  rewrite He. apply initial_energy_pos.
Qed.

Lemma wf_move w a :
  wf cfg a -> warriors a !! w_id w = Some w -> wf cfg (move cfg w a).
Proof.
  intros Hwf Hl. unfold move.
  destruct (first_free cfg (cells a) (w_pos w)) as [q|]; [|done].
  destruct (place cfg w q (remove (w_id w) a)) as [a'|] eqn:E; [|done].
  destruct (wf_warrior _ _ Hwf _ _ Hl) as (_&_&_&He&Hn&Hc).
  apply (wf_place w q (remove (w_id w) a)); try done.
  - by apply wf_remove.
  - unfold remove. rewrite Hl. simpl. apply lookup_delete_eq.
  - destruct (remove_frame (w_id w) a) as (_ & -> & _). done.
Qed.

Lemma wf_replicate w a :
  wf cfg a -> coherent cfg w -> wf cfg (replicate cfg w a).1.
Proof.
  intros Hwf Hc. unfold replicate.
  destruct (w_energy w <? replication_cost cfg); [done|].
  destruct (max_population cfg <=? size (warriors a))%nat; [done|].
  destruct (first_free cfg (cells a) (w_pos w)) as [q|]; [|done].
  pose proof (mutate_length (mutation_rate cfg) (w_genome w) (rng a)) as Hlen.
  destruct (mutate (mutation_rate cfg) (w_genome w) (rng a)) as [g r].
  destruct (new_warrior _ _ _ _ _ _) as [child|] eqn:Ec; [|done].
  destruct (place cfg child q _) as [a'|] eqn:E; [|done].
  simpl. refine (wf_born _ _ _ _ _ _ _ _ Hwf _ Ec E).
  simpl in Hlen. destruct Hc. congruence.
Qed.

Lemma head_omap_Some {A B} (f : A -> option B) (l : list A) (y : B) :
  head (omap f l) = Some y -> exists x, In x l /\ f x = Some y.
Proof.
  induction l as [|x l IH]; simpl; [done|].
  destruct (f x) as [y'|] eqn:E; simpl.
  - intros [= <-]. eauto.
  - intros Hh. destruct (IH Hh) as (x' & ? & ?). eauto.
Qed.

Lemma first_neighbour_live a p v :
  first_neighbour a p = Some v -> exists id, warriors a !! id = Some v.
Proof.
  unfold first_neighbour. intros Hh.
  apply head_omap_Some in Hh as (q & _ & Hq).
  destruct (occupant (cells a) q) as [id|]; [|done]. simpl in Hq. eauto.
Qed.

Lemma damage_nonneg (b : bool) :
  0 <= (if b then Z.max 0 (attack_damage cfg - defend_reduction cfg)
        else attack_damage cfg).
Proof. pose proof costs_nonneg. destruct b; lia. Qed.

Lemma wf_attack w a : wf cfg a -> wf cfg (attack cfg w a).
Proof.
  intros Hwf. unfold attack.
  destruct (first_neighbour a (w_pos w)) as [v|] eqn:E; [|done].
  apply first_neighbour_live in E as [id Hl].
  destruct (wf_warrior _ _ Hwf _ _ Hl) as (Hid&_&_&He&_&Hc).
  cbv zeta. destruct (_ <=? 0) eqn:Hle.
  - apply wf_kill; [done|done|]. apply Z.leb_le in Hle. done.
  - apply Z.leb_gt in Hle. rewrite Hid. by eapply wf_update.
Qed.

Lemma wf_apply_effect act w a :
  wf cfg a -> warriors a !! w_id w = Some w ->
  wf cfg (apply_effect cfg act w a).1.
Proof.
  intros Hwf Hl. destruct act; simpl; try done.
  - by apply wf_move.
  - apply wf_replicate; [done|]. by destruct (wf_warrior _ _ Hwf _ _ Hl) as (_&_&_&_&_&?).
  - by apply wf_attack.
Qed.

Lemma wf_charge_cost id cost a : wf cfg a -> wf cfg (charge_cost cfg id cost a).
Proof.
  intros Hwf. unfold charge_cost.
  destruct (warriors a !! id) as [w|] eqn:Hl; [|done].
  destruct (wf_warrior _ _ Hwf _ _ Hl) as (Hid&_&_&He&_&Hc).
  cbv zeta. destruct (_ <=? 0) eqn:Hle.
  - apply wf_kill; [done|done|]. by apply Z.leb_le in Hle.
  - apply Z.leb_gt in Hle. by eapply wf_update.
Qed.

(** *** The hooks *)

Lemma wf_fold {A} (f : A -> Arena -> Arena) (l : list A) a :
  (forall x b, wf cfg b -> wf cfg (f x b)) ->
  wf cfg a -> wf cfg (fold_left (fun acc x => f x acc) l a).
Proof.
  intros Hf. revert a. induction l as [|x l IH]; intros a Hwf; simpl; [done|].
  apply IH. by apply Hf.
Qed.

Lemma coherent_with_genome g n w :
  length g = GENOME_SIZE -> decode (hidden_size cfg) g = Some n ->
  coherent cfg (with_genome g n w).
Proof. intros Hlen Hd. by split_and!. Qed.

Lemma coherent_backprop sensors w :
  coherent cfg w -> coherent cfg (backprop cfg sensors w).
Proof.
  intros Hc. unfold backprop. cbv zeta.
  destruct (write_back cfg) eqn:Ewb.
  - destruct (decode _ _) as [n'|] eqn:Ed; [|done].
    apply coherent_with_genome; [|done].
    rewrite length_imap. by destruct Hc.
  - destruct Hc as (Hlen & _ & _). split_and!; [done|done|].
    intros Hwb. congruence.
Qed.

Lemma self_mutate_Some w r w' r' :
  coherent cfg w -> self_mutate cfg w r = Some (w', r') ->
  coherent cfg w' /\ w_id w' = w_id w /\ w_pos w' = w_pos w /\
  w_energy w' = w_energy w /\ w_resources w' = w_resources w.
Proof.
  intros Hc. unfold self_mutate.
  pose proof (mutate_length (mutation_rate cfg) (w_genome w) r) as Hlen.
  destruct (mutate (mutation_rate cfg) (w_genome w) r) as [g r0].
  destruct (decode (hidden_size cfg) g) as [n|] eqn:Ed; [|done].
  simpl. intros [= <- <-]. split; [|done].
  apply coherent_with_genome; [|done]. simpl in Hlen. destruct Hc. congruence.
Qed.

Lemma wf_run_hook id sensors h a : wf cfg a -> wf cfg (run_hook cfg id sensors h a).
Proof.
  intros Hwf. unfold run_hook.
  destruct (warriors a !! id) as [w|] eqn:Hl; [|done].
  destruct (wf_warrior _ _ Hwf _ _ Hl) as (Hid&_&_&He&_&Hc).
  destruct h.
  - eapply wf_update; [done|done|..].
    + unfold backprop. cbv zeta.
      destruct (write_back cfg); [by destruct (decode _ _)|done].
    + unfold backprop. cbv zeta.
      destruct (write_back cfg); [by destruct (decode _ _)|done].
    + by apply coherent_backprop.
    + unfold backprop. cbv zeta.
      destruct (write_back cfg); [by destruct (decode _ _)|done].
  - destruct (self_mutate cfg w (rng a)) as [[w' r]|] eqn:Em; [|done].
    destruct (self_mutate_Some _ _ _ _ Hc Em) as (Hc' & Hi & Hp & He' & _).
    apply (wf_update id w w' (set_rng r a)); try done.
    + by apply wf_set_rng.
    + by rewrite He'.
Qed.

Lemma wf_run_hooks id sensors hs a :
  wf cfg a -> wf cfg (run_hooks cfg id sensors hs a).
Proof.
  intros Hwf. by apply (wf_fold (run_hook cfg id sensors)); [apply wf_run_hook|].
Qed.

Lemma wf_vm_cycle id a : wf cfg a -> wf cfg (vm_cycle cfg id a).
Proof.
  intros Hwf. unfold vm_cycle.
  destruct (warriors a !! id) as [w|] eqn:Hl; [|done].
  destruct (wf_warrior _ _ Hwf _ _ Hl) as (Hid&_&_&He&_&Hc).
  cbv zeta.
  match goal with |- context [apply_effect cfg ?act ?w0 ?a0] =>
    pose proof (wf_apply_effect act w0 a0) as Hae;
    destruct (apply_effect cfg act w0 a0) as [a1 cost] end.
  apply wf_charge_cost, wf_run_hooks. apply Hae.
  - by eapply wf_update.
  - simpl. rewrite Hid. apply lookup_insert_eq.
Qed.

(** *** Environment Dynamics *)

Lemma wf_set_cells cs a :
  wf cfg a ->
  (forall id w, warriors a !! id = Some w -> cs !! w_pos w = cells a !! w_pos w) ->
  (forall p id, cs !! p = Some (Occupant id) -> cells a !! p = Some (Occupant id)) ->
  (forall p v ty, cs !! p = Some (Resource v ty) -> 0 <= v) ->
  wf cfg (set_cells cs a).
Proof.
  intros [Hw Ho Hr Hf] H1 H2 H3. constructor; simpl; try assumption.
  - intros id w Hl. destruct (Hw _ _ Hl) as (?&?&?&?&?&?).
    split_and!; try done. by rewrite (H1 _ _ Hl).
  - intros p id Hl. apply Ho. by apply H2.
Qed.

Lemma wf_env_event ev a : wf cfg a -> wf cfg (env_event cfg ev a).
Proof.
  intros Hwf. pose proof Hwf as [Hw Ho Hr Hf].
  destruct ev as [p v ty|p|p q]; simpl.
  - destruct (in_bounds cfg p && is_empty (cells a) p && (0 <=? v)) eqn:E; [|done].
    apply andb_prop in E as [E Hv]. apply andb_prop in E as [_ He].
    unfold is_empty in He. destruct (cells a !! p) eqn:Ep; [done|].
    apply wf_set_cells; [done|..].
    + intros id w Hl. destruct (Hw _ _ Hl) as (_&Hc&_).
      rewrite lookup_insert_ne; [done|]. intros ->. congruence.
    + intros p' id Hl. apply lookup_insert_Some in Hl as [[_ [=]]|[_ Hl]]. done.
    + intros p' v' ty' Hl.
      apply lookup_insert_Some in Hl as [[_ [= <- _]]|[_ Hl]]; [lia|eauto].
  - unfold is_resource. destruct (cells a !! p) as [[v ty| |]|] eqn:Ep; try done.
    apply wf_set_cells; [done|..].
    + intros id w Hl. destruct (Hw _ _ Hl) as (_&Hc&_).
      rewrite lookup_delete_ne; [done|]. intros ->. congruence.
    + intros p' id Hl. by apply lookup_delete_Some in Hl as [_ Hl].
    + intros p' v' ty' Hl. apply lookup_delete_Some in Hl as [_ Hl]. eauto.
  - destruct (cells a !! p) as [[v ty| |]|] eqn:Ep; try done.
    destruct (in_bounds cfg q && is_empty (cells a) q) eqn:E; [|done].
    apply andb_prop in E as [_ He].
    unfold is_empty in He. destruct (cells a !! q) eqn:Eq; [done|].
    apply wf_set_cells; [done|..].
    + intros id w Hl. destruct (Hw _ _ Hl) as (_&Hc&_).
      rewrite lookup_insert_ne by (intros ->; congruence).
      rewrite lookup_delete_ne; [done|]. intros ->. congruence.
    + intros p' id Hl. apply lookup_insert_Some in Hl as [[_ [=]]|[_ Hl]].
      by apply lookup_delete_Some in Hl as [_ Hl].
    + intros p' v' ty' Hl.
      apply lookup_insert_Some in Hl as [[_ [= <- _]]|[_ Hl]]; [eauto|].
      apply lookup_delete_Some in Hl as [_ Hl]. eauto.
Qed.

Lemma wf_environment_update a : wf cfg a -> wf cfg (environment_update cfg a).
Proof.
  intros Hwf. unfold environment_update.
  apply (wf_fold (env_event cfg)); [apply wf_env_event|]. by apply wf_set_rng.
Qed.

Lemma wf_scheduling_pass a : wf cfg a -> wf cfg (scheduling_pass cfg a).
Proof. intros Hwf. by apply (wf_fold (vm_cycle cfg)); [apply wf_vm_cycle|]. Qed.

Lemma wf_step a : wf cfg a -> wf cfg (step cfg a).
Proof.
  intros Hwf. unfold step. apply wf_set_tick, wf_scheduling_pass.
  by apply wf_environment_update.
Qed.

(** *** The evolution transition *)

Lemma survivors_live a w :
  w ∈ survivors a -> exists id, warriors a !! id = Some w.
Proof.
  unfold survivors. intros Hin.
  apply list_elem_of_omap in Hin as (id & _ & Hl). eauto.
Qed.

Lemma scored_sized a : wf cfg a -> Forall sized (scored cfg a).
Proof.
  intros Hwf. unfold scored. cbv zeta.
  apply Forall_zip_with_fst with (P := fun w => length (w_genome w) = GENOME_SIZE).
  - apply Forall_app. split.
    + apply Forall_forall. intros w Hin.
      apply survivors_live in Hin as [id Hl].
      by destruct (wf_warrior _ _ Hwf _ _ Hl) as (_&_&_&_&_&?&_).
    + eapply Forall_impl; [exact (wf_fallen _ _ Hwf)|].
      by intros w [[? _] _].
  - apply Forall_forall. by intros i _ w Hw.
Qed.

Lemma pick_sized pool r d : Forall sized pool -> sized d -> sized (pick pool r d).
Proof.
  intros Hp Hd. unfold pick.
  destruct (Nat.lt_ge_cases (Z.to_nat (r mod Z.of_nat (length pool))) (length pool))
    as [Hlt|Hge].
  - by apply (proj1 (Forall_nth sized d pool)).
  - by rewrite nth_overflow.
Qed.

Lemma tournament_sized k pool best r :
  Forall sized pool -> sized best -> sized (tournament k pool best r).1.
Proof.
  intros Hp. revert best r. induction k as [|k IH]; intros best r Hb; simpl; [done|].
  apply IH. destruct (Qle_bool _ _); [done|]. by apply pick_sized.
Qed.

Lemma select_parent_sized pool first r :
  Forall sized pool -> sized first ->
  length (w_genome (select_parent cfg pool first r).1) = GENOME_SIZE.
Proof.
  intros Hp Hf. unfold select_parent. cbv zeta.
  match goal with |- context [tournament ?k ?pl ?b ?r1] =>
    pose proof (tournament_sized k pl b r1 Hp) as Ht;
    destruct (tournament k pl b r1) as [best r2] end.
  simpl. apply Ht. by apply pick_sized.
Qed.

Lemma breed_sized pool first r :
  Forall sized pool -> sized first ->
  length (breed cfg pool first r).1.1 = GENOME_SIZE.
Proof.
  intros Hp Hf. unfold breed.
  pose proof (select_parent_sized pool first r Hp Hf) as Ha.
  destruct (select_parent cfg pool first r) as [pa r1].
  pose proof (select_parent_sized pool first r1 Hp Hf) as Hb.
  destruct (select_parent cfg pool first r1) as [pb r2].
  pose proof (crossover_length (w_genome pa) (w_genome pb) r2 Ha Hb) as Hc.
  destruct (crossover (w_genome pa) (w_genome pb) r2) as [g r3].
  pose proof (mutate_length (mutation_rate cfg) g r3) as Hm.
  destruct (mutate (mutation_rate cfg) g r3) as [g' r4].
  simpl in *. congruence.
Qed.

Lemma breed_many_sized n pool first r :
  Forall sized pool -> sized first ->
  Forall (fun c => length c.1 = GENOME_SIZE) (breed_many cfg n pool first r).1.
Proof.
  intros Hp Hf. revert r. induction n as [|n IH]; intros r; simpl; [done|].
  pose proof (breed_sized pool first r Hp Hf) as Hb.
  destruct (breed cfg pool first r) as [c r1].
  specialize (IH r1). destruct (breed_many cfg n pool first r1) as [cs r2].
  simpl in *. by constructor.
Qed.

Lemma insert_by_fitness_sized x l :
  sized x -> Forall sized l -> Forall sized (insert_by_fitness x l).
Proof.
  intros Hx Hl. induction Hl as [|y l Hy Hl IH]; simpl.
  - by constructor.
  - destruct (Qle_bool x.2 y.2); by repeat constructor.
Qed.

Lemma by_fitness_sized pool : Forall sized pool -> Forall sized (by_fitness pool).
Proof.
  unfold by_fitness. induction 1 as [|x l Hx Hl IH]; simpl; [done|].
  by apply insert_by_fitness_sized.
Qed.

Lemma next_genomes_sized pool r :
  Forall sized pool ->
  Forall (fun c => length c.1 = GENOME_SIZE) (next_genomes cfg pool r).1.
Proof.
  intros Hp. unfold next_genomes. destruct pool as [|first pool']; [done|].
  cbv zeta.
  match goal with |- context [breed_many cfg ?n ?pl ?f ?r0] =>
    pose proof (breed_many_sized n pl f r0 Hp) as Hb;
    destruct (breed_many cfg n pl f r0) as [children r'] end.
  cbn [fst] in *. apply Forall_app. split.
  - apply Forall_map. apply Forall_take.
    eapply Forall_impl; [by apply by_fitness_sized|]. by intros c Hc.
  - apply Hb. by inversion Hp.
Qed.

Lemma wf_seed gen g a :
  length g.1 = GENOME_SIZE -> wf cfg a -> wf cfg (seed cfg gen g a).
Proof.
  intros Hlen Hwf. unfold seed. cbv zeta.
  destruct (new_warrior _ _ _ _ _ _) as [w|] eqn:Ew; [|by apply wf_set_rng].
  destruct (place cfg w _ _) as [a'|] eqn:E; [|by apply wf_set_rng].
  exact (wf_born _ _ _ _ _ _ _ _ Hwf Hlen Ew E).
Qed.

Lemma wf_fold_Forall {A} (P : A -> Prop) (f : A -> Arena -> Arena) (l : list A) a :
  (forall x b, P x -> wf cfg b -> wf cfg (f x b)) ->
  Forall P l -> wf cfg a -> wf cfg (fold_left (fun acc x => f x acc) l a).
Proof.
  intros Hf Hl. revert a. induction Hl as [|x l Hx Hl IH]; intros a Hwf; simpl; [done|].
  apply IH. by apply Hf.
Qed.

Lemma wf_evolve a : wf cfg a -> wf cfg (evolve cfg a).
Proof.
  intros Hwf. unfold evolve.
  pose proof (next_genomes_sized (scored cfg a) (rng a) (scored_sized a Hwf)) as Hg.
  destruct (next_genomes cfg (scored cfg a) (rng a)) as [genomes r].
  apply (wf_fold_Forall (fun c => length c.1 = GENOME_SIZE)
           (seed cfg (S (generation a)))); [|done|].
  - intros g b Hlen Hb. by apply wf_seed.
  - destruct Hwf as [Hw Ho Hr Hf]. constructor; simpl.
    + intros id w Hl. by rewrite lookup_empty in Hl.
    + intros p id Hl. by apply map_lookup_filter_Some in Hl as [_ ?].
    + intros p v ty Hl. apply map_lookup_filter_Some in Hl as [Hl _]. eauto.
    + constructor.
Qed.

Lemma wf_iter_step n a : wf cfg a -> wf cfg (Nat.iter n (step cfg) a).
Proof. intros Hwf. induction n as [|n IH]; simpl; [done|]. by apply wf_step. Qed.

Lemma wf_run_generation a : wf cfg a -> wf cfg (run_generation cfg a).
Proof. intros Hwf. by apply wf_evolve, wf_iter_step. Qed.

Lemma wf_initialize_population size a :
  wf cfg a -> wf cfg (initialize_population cfg size a).
Proof.
  revert a. induction size as [|n IH]; intros a Hwf; simpl; [done|].
  pose proof (random_genome_length GENOME_SIZE (rng a)) as Hlen.
  destruct (random_genome GENOME_SIZE (rng a)) as [g r].
  apply IH. apply wf_seed; [done|]. by apply wf_set_rng.
Qed.

Lemma wf_import_genome bytes a :
  wf cfg a -> wf cfg (import_genome cfg bytes a).1.
Proof.
  intros Hwf. unfold import_genome.
  destruct (length bytes =? GENOME_SIZE)%nat eqn:Hlen; simpl; [|done].
  apply Nat.eqb_eq in Hlen.
  destruct (max_population cfg <=? size (warriors a))%nat; [done|].
  destruct (first_vacancy cfg (cells a)) as [p|]; [|done].
  destruct (new_warrior _ _ _ _ _ _) as [w|] eqn:Ew; [|done].
  destruct (place cfg w _ _) as [a'|] eqn:E; [|done].
  simpl.
  pose proof (coherent_new_warrior _ _ _ _ _ _ Hlen Ew) as Hc.
  apply new_warrior_Some in Ew as (Hid & _ & He & _).
  refine (wf_place_fresh _ _ _ _ Hwf Hid Hc _ E).
  rewrite He. apply initial_energy_pos.
Qed.

(** Every state of the arena satisfies the invariant. *)
Lemma reachable_wf a : reachable cfg a -> wf cfg a.
Proof.
  induction 1.
  - apply wf_empty.
  - by apply wf_initialize_population.
  - by apply wf_import_genome.
  - by apply wf_step.
  - by apply wf_run_generation.
  - by apply wf_environment_update.
  - by apply wf_env_event.
  - by apply wf_vm_cycle.
  - apply wf_apply_effect; [done|].
    destruct (wf_warrior _ _ IHreachable _ _ H1) as (-> & _). done.
  - by apply wf_run_hook.
  - by apply wf_charge_cost.
  - by apply wf_evolve.
Qed.

End Invariant.

Section Energy.
Context `{Policy}.
Variable cfg : Config.
Hypothesis cfg_ok : valid_config cfg = true.

Lemma progress_refl a : wf cfg a -> progress a a.
Proof.
  intros Hwf. constructor.
  - done.
  - intros id w' Hl _. exists w'. split; [done|]. lia.
  - exists []. split; [by rewrite app_nil_r|].
    intros id w Hl Hn. congruence.
Qed.

Lemma progress_trans a b c :
  progress a b -> progress b c -> progress a c.
Proof.
  intros [N1 A1 (m1 & F1 & R1)] [N2 A2 (m2 & F2 & R2)]. constructor.
  - lia.
  - intros id w'' Hl Hid.
    destruct (A2 id w'' Hl) as (w' & Hl' & ? & ?); [lia|].
    destruct (A1 id w' Hl' Hid) as (w & Hlw & ? & ?).
    exists w. split; [done|]. lia.
  - exists (m1 ++ m2). split; [by rewrite F2, F1, app_assoc|].
    intros id w Hl Hn. destruct (warriors b !! id) as [w'|] eqn:E.
    + destruct (R2 id w' E Hn) as (w'' & Hin & ? & ?).
      exists w''. split; [|done]. apply in_or_app. by right.
    + destruct (R1 id w Hl E) as (w' & Hin & ? & ?).
      exists w'. split; [|done]. apply in_or_app. by left.
Qed.

(** Changes that touch no warrior. *)
Lemma progress_frame a a' :
  warriors a' = warriors a -> fallen a' = fallen a ->
  (next_id a <= next_id a')%nat -> progress a a'.
Proof.
  intros Hw Hf Hn. constructor.
  - done.
  - intros id w' Hl _. rewrite Hw in Hl. exists w'. split; [done|]. lia.
  - exists []. split; [by rewrite Hf, app_nil_r|].
    intros id w Hl Hnone. rewrite Hw in Hnone. congruence.
Qed.

Lemma progress_update id w w' a :
  warriors a !! id = Some w ->
  w_energy w' - w_energy w <= w_resources w' - w_resources w ->
  w_resources w <= w_resources w' ->
  progress a (set_warriors (<[id := w']> (warriors a)) a).
Proof.
  intros Hl He Hr. constructor; simpl.
  - done.
  - intros id' w'' Hl' _.
    apply lookup_insert_Some in Hl' as [[<- <-]|[Hne Hl']].
    + by exists w.
    + exists w''. split; [done|]. lia.
  - exists []. split; [by rewrite app_nil_r|].
    intros id' w0 Hl0 Hn. apply lookup_insert_None in Hn as [Hn _]. congruence.
Qed.

Lemma warriors_remove id a : warriors (remove id a) = delete id (warriors a).
Proof.
  unfold remove. destruct (warriors a !! id) eqn:E; [done|].
  by rewrite delete_id.
Qed.

Lemma progress_kill w' a :
  w_energy w' <= 0 -> progress a (kill w' a).
Proof.
  intros He. unfold kill. constructor; simpl.
  - by destruct (remove_frame (w_id w') a) as (_ & -> & _).
  - intros id w Hl _. rewrite warriors_remove in Hl.
    apply lookup_delete_Some in Hl as [_ Hl].
    exists w. split; [done|]. lia.
  - exists [w']. split; [done|].
    intros id w Hl Hn. rewrite warriors_remove in Hn.
    apply lookup_delete_None in Hn as [<-|Hn]; [|congruence].
    exists w'. split; [by left|done].
Qed.

(** Placing a warrior that was just removed, or that is new. *)
Lemma progress_place w p a b a' :
  wf cfg b -> place cfg w p b = Some a' ->
  warriors b = delete (w_id w) (warriors a) -> fallen b = fallen a ->
  (next_id a <= next_id b)%nat ->
  match warriors a !! w_id w with
  | Some w0 => w_energy w = w_energy w0 /\ w_resources w = w_resources w0
  | None => (next_id a <= w_id w)%nat
  end ->
  progress a a'.
Proof.
  intros Hwf Hp Hws Hf Hn Hsame. unfold place in Hp.
  destruct (in_bounds cfg p && free_cell (cells b) p) eqn:E; [|done].
  apply andb_prop in E as [_ Hfree].
  destruct (consume_resource_free _ _ Hfree (wf_resource _ _ Hwf p))
    as (gain & Hc & Hg & _).
  rewrite Hc in Hp. injection Hp as <-. constructor; simpl.
  - done.
  - intros id w' Hl Hid. rewrite Hws in Hl.
    apply lookup_insert_Some in Hl as [[<- <-]|[Hne Hl]].
    + destruct (warriors a !! w_id w) as [w0|] eqn:E0; [|lia].
      destruct Hsame as [He Hr].
      exists w0. split; [done|]. simpl. lia.
    + apply lookup_delete_Some in Hl as [_ Hl].
      exists w'. split; [done|]. lia.
  - exists []. split; [by rewrite Hf, app_nil_r|].
    intros id w0 Hl Hnone. rewrite Hws in Hnone.
    apply lookup_insert_None in Hnone as [Hnone Hne].
    apply lookup_delete_None in Hnone as [?|?]; congruence.
Qed.

Lemma progress_place_new w p r a a' :
  wf cfg a -> w_id w = next_id a ->
  place cfg w p (set_next_id (S (next_id a)) (set_rng r a)) = Some a' ->
  progress a a'.
Proof.
  intros Hwf Hid Hp.
  assert (Hnone : warriors a !! w_id w = None).
  { destruct (warriors a !! w_id w) as [w0|] eqn:E; [|done].
    destruct (wf_warrior _ _ Hwf _ _ E) as (_&_&_&_&Hlt&_). lia. }
  eapply progress_place; [|exact Hp|..].
  - apply wf_set_next_id; [simpl; lia|]. by apply wf_set_rng.
  - simpl. by rewrite delete_id.
  - done.
  - simpl. lia.
  - rewrite Hnone. lia.
Qed.

Lemma progress_move w a :
  wf cfg a -> warriors a !! w_id w = Some w -> progress a (move cfg w a).
Proof.
  intros Hwf Hl. unfold move.
  destruct (first_free cfg (cells a) (w_pos w)) as [q|]; [|by apply progress_refl].
  destruct (place cfg w q (remove (w_id w) a)) as [a'|] eqn:E;
    [|by apply progress_refl].
  destruct (remove_frame (w_id w) a) as (Hf & Hn & _).
  eapply progress_place; [|exact E|..].
  - by apply wf_remove.
  - apply warriors_remove.
  - done.
  - lia.
  - by rewrite Hl.
Qed.

Lemma progress_replicate w a :
  wf cfg a -> progress a (replicate cfg w a).1.
Proof.
  intros Hwf. unfold replicate.
  destruct (w_energy w <? replication_cost cfg); [by apply progress_refl|].
  destruct (max_population cfg <=? size (warriors a))%nat; [by apply progress_refl|].
  destruct (first_free cfg (cells a) (w_pos w)) as [q|]; [|by apply progress_refl].
  destruct (mutate (mutation_rate cfg) (w_genome w) (rng a)) as [g r].
  destruct (new_warrior _ _ _ _ _ _) as [child|] eqn:Ec; [|by apply progress_refl].
  destruct (place cfg child q _) as [a'|] eqn:E; [|by apply progress_refl].
  apply new_warrior_Some in Ec as (Hid & _).
  simpl. by eapply progress_place_new; [| |exact E].
Qed.

Lemma progress_attack w a : wf cfg a -> progress a (attack cfg w a).
Proof.
  intros Hwf. unfold attack.
  destruct (first_neighbour a (w_pos w)) as [v|] eqn:E; [|by apply progress_refl].
  apply first_neighbour_live in E as [id Hl].
  destruct (wf_warrior _ _ Hwf _ _ Hl) as (Hid&_).
  pose proof (damage_nonneg cfg cfg_ok (defending (tick a) v)) as Hd.
  cbv zeta. destruct (_ <=? 0) eqn:Hle.
  - apply progress_kill. by apply Z.leb_le in Hle.
  - rewrite Hid. eapply progress_update; [exact Hl|simpl; lia|simpl; lia].
Qed.

Lemma progress_apply_effect act w a :
  wf cfg a -> warriors a !! w_id w = Some w ->
  progress a (apply_effect cfg act w a).1.
Proof.
  intros Hwf Hl. destruct act; simpl.
  - by apply progress_move.
  - by apply progress_replicate.
  - by apply progress_attack.
  - by apply progress_refl.
Qed.

Lemma replicate_cost_nonneg w a : 0 <= (replicate cfg w a).2.
Proof.
  pose proof (costs_nonneg cfg cfg_ok) as (_&_&_&_&Hr&_).
  unfold replicate.
  destruct (w_energy w <? replication_cost cfg); [done|].
  destruct (max_population cfg <=? size (warriors a))%nat; [done|].
  destruct (first_free cfg (cells a) (w_pos w)) as [q|]; [|done].
  destruct (mutate (mutation_rate cfg) (w_genome w) (rng a)) as [g r].
  destruct (new_warrior _ _ _ _ _ _) as [child|]; [|done].
  by destruct (place cfg child q _) as [a'|].
Qed.

Lemma apply_effect_cost_nonneg act w a : 0 <= (apply_effect cfg act w a).2.
Proof.
  pose proof (costs_nonneg cfg cfg_ok) as (?&?&?&?&?&?).
  destruct act; simpl; try done. apply replicate_cost_nonneg.
Qed.

Lemma progress_charge_cost id cost a :
  0 <= cost -> wf cfg a -> progress a (charge_cost cfg id cost a).
Proof.
  intros Hcost Hwf. unfold charge_cost.
  pose proof (costs_nonneg cfg cfg_ok) as (Hs&_).
  destruct (warriors a !! id) as [w|] eqn:Hl; [|by apply progress_refl].
  cbv zeta. destruct (_ <=? 0) eqn:Hle.
  - apply progress_kill. by apply Z.leb_le in Hle.
  - eapply progress_update; [exact Hl|simpl; lia|simpl; lia].
Qed.

Lemma progress_fold {A} (f : A -> Arena -> Arena) (l : list A) a :
  (forall x b, wf cfg b -> wf cfg (f x b) /\ progress b (f x b)) ->
  wf cfg a -> progress a (fold_left (fun acc x => f x acc) l a).
Proof.
  intros Hf. revert a. induction l as [|x l IH]; intros a Hwf; simpl.
  - by apply progress_refl.
  - destruct (Hf x a Hwf) as [Hwf' Hp].
    eapply progress_trans; [exact Hp|]. by apply IH.
Qed.

Lemma hooks_cost_nonneg hs : 0 <= hooks_cost cfg hs.
Proof.
  pose proof (mutate_cost_nonneg cfg cfg_ok) as Hm.
  unfold hooks_cost. induction hs as [|[|] hs IH]; simpl; lia.
Qed.

Lemma backprop_body sensors w :
  w_id (backprop cfg sensors w) = w_id w /\
  w_pos (backprop cfg sensors w) = w_pos w /\
  w_energy (backprop cfg sensors w) = w_energy w /\
  w_resources (backprop cfg sensors w) = w_resources w.
Proof.
  unfold backprop. cbv zeta.
  destruct (write_back cfg); [by destruct (decode _ _)|done].
Qed.

Lemma progress_run_hook id sensors h a :
  wf cfg a -> progress a (run_hook cfg id sensors h a).
Proof.
  intros Hwf. unfold run_hook.
  destruct (warriors a !! id) as [w|] eqn:Hl; [|by apply progress_refl].
  destruct (wf_warrior _ _ Hwf _ _ Hl) as (_&_&_&_&_&Hc).
  destruct h.
  - destruct (backprop_body sensors w) as (_ & _ & He & Hr).
    eapply progress_update; [exact Hl|lia|lia].
  - destruct (self_mutate cfg w (rng a)) as [[w' r]|] eqn:Em;
      [|by apply progress_refl].
    destruct (self_mutate_Some cfg _ _ _ _ Hc Em) as (_ & _ & _ & He & Hr).
    eapply progress_trans with (b := set_rng r a); [by apply progress_frame|].
    apply (progress_update id w w' (set_rng r a)); [done|lia|lia].
Qed.

Lemma progress_run_hooks id sensors hs a :
  wf cfg a -> progress a (run_hooks cfg id sensors hs a).
Proof.
  intros Hwf. apply (progress_fold (run_hook cfg id sensors)); [|done].
  intros h b Hb. split; [by apply wf_run_hook|by apply progress_run_hook].
Qed.

Lemma progress_vm_cycle id a : wf cfg a -> progress a (vm_cycle cfg id a).
Proof.
  intros Hwf. unfold vm_cycle.
  destruct (warriors a !! id) as [w|] eqn:Hl; [|by apply progress_refl].
  destruct (wf_warrior _ _ Hwf _ _ Hl) as (Hid&_&_&He&_&Hc).
  cbv zeta.
  match goal with |- context [apply_effect cfg ?act ?w0 ?a0] =>
    assert (Hwf0 : wf cfg a0) by (by eapply wf_update);
    assert (Hl0 : warriors a0 !! w_id w0 = Some w0)
      by (simpl; rewrite Hid; apply lookup_insert_eq);
    assert (Hp0 : progress a a0)
      by (eapply progress_update; [exact Hl|simpl; lia|simpl; lia]);
    pose proof (wf_apply_effect cfg cfg_ok act w0 a0 Hwf0 Hl0) as Hwf1;
    pose proof (progress_apply_effect act w0 a0 Hwf0 Hl0) as Hp1;
    pose proof (apply_effect_cost_nonneg act w0 a0) as Hcost;
    destruct (apply_effect cfg act w0 a0) as [a1 cost] end.
  simpl in *.
  pose proof (hooks_cost_nonneg (hooks w (read_sensors (cells a) (w_pos w)))).
  eapply progress_trans; [exact Hp0|].
  eapply progress_trans; [exact Hp1|].
  eapply progress_trans; [by apply progress_run_hooks|].
  apply progress_charge_cost; [lia|]. by apply wf_run_hooks.
Qed.

Lemma env_event_frame ev a :
  warriors (env_event cfg ev a) = warriors a /\
  fallen (env_event cfg ev a) = fallen a /\
  next_id (env_event cfg ev a) = next_id a.
Proof.
  destruct ev as [p v ty|p|p q]; simpl.
  - by destruct (_ && _).
  - by destruct (is_resource _ _).
  - destruct (cells a !! p) as [[v ty| |]|]; try done.
    by destruct (_ && _).
Qed.

Lemma progress_env_event ev a : progress a (env_event cfg ev a).
Proof.
  destruct (env_event_frame ev a) as (Hw & Hf & Hn).
  apply progress_frame; [done|done|lia].
Qed.

Lemma progress_environment_update a :
  wf cfg a -> progress a (environment_update cfg a).
Proof.
  intros Hwf. unfold environment_update. cbv zeta.
  eapply progress_trans with (b := set_rng (rng_next (rng a)) a).
  - by apply progress_frame.
  - apply (progress_fold (env_event cfg)); [|by apply wf_set_rng].
    intros ev b Hb. split; [by apply wf_env_event|apply progress_env_event].
Qed.

Lemma progress_scheduling_pass a :
  wf cfg a -> progress a (scheduling_pass cfg a).
Proof.
  intros Hwf. apply (progress_fold (vm_cycle cfg)); [|done].
  intros id b Hb. split; [by apply wf_vm_cycle|by apply progress_vm_cycle].
Qed.

Lemma progress_step a : wf cfg a -> progress a (step cfg a).
Proof.
  intros Hwf. unfold step. cbv zeta.
  eapply progress_trans; [by apply progress_environment_update|].
  eapply progress_trans.
  - apply progress_scheduling_pass. by apply wf_environment_update.
  - by apply progress_frame.
Qed.

Lemma progress_ticks n a :
  wf cfg a -> progress a (Nat.iter n (step cfg) a).
Proof.
  intros Hwf. induction n as [|n IH]; simpl.
  - by apply progress_refl.
  - eapply progress_trans; [exact IH|].
    apply progress_step. by apply wf_iter_step.
Qed.

End Energy.

Section Claims.
Context `{Policy}.

(** *** Decoding *)

Lemma clamp_weight_bounded q : bounded_weight (clamp_weight q).
Proof.
  unfold bounded_weight, clamp_weight. split.
  - apply Q.le_max_l.
  - apply Q.max_lub; [lra|apply Q.le_min_l].
Qed.

(** Every gene of a byte sequence of the fixed size can be read. *)
Lemma gene_is_Some (bytes : Genome) (k : nat) :
  length bytes = GENOME_SIZE -> is_Some (gene bytes k).
Proof.
  intros Hlen. unfold gene. apply lookup_lt_is_Some. rewrite Hlen.
  apply Nat.mod_upper_bound. discriminate.
Qed.

Lemma weight_Some (bytes : Genome) (k : nat) (x : Q) :
  weight bytes k = Some x ->
  exists b, gene bytes k = Some b /\ x = clamp_weight (weight_of_byte b).
Proof.
  unfold weight. destruct (gene bytes k) as [b|]; [|done].
  simpl. intros [= <-]. eauto.
Qed.

Lemma weight_is_Some (bytes : Genome) (k : nat) :
  length bytes = GENOME_SIZE -> is_Some (weight bytes k).
Proof.
  intros Hlen. destruct (gene_is_Some bytes k Hlen) as [b Hb].
  unfold weight. rewrite Hb. by eexists.
Qed.

Lemma weights_is_Some (bytes : Genome) (first n : nat) :
  length bytes = GENOME_SIZE -> is_Some (weights bytes first n).
Proof.
  intros Hlen. unfold weights. apply mapM_is_Some, Forall_forall.
  intros i _. by apply weight_is_Some.
Qed.

(** A row of decoded weights: one weight per connection, each the
    clamped value of the byte of its gene. *)
Lemma weights_row (bytes : Genome) (first n : nat) (row : list Q) :
  weights bytes first n = Some row ->
  length row = n /\ Forall bounded_weight row /\
  forall i x, row !! i = Some x ->
    exists b, gene bytes (first + i) = Some b /\
              x = clamp_weight (weight_of_byte b).
Proof.
  unfold weights. intros Hrow. apply mapM_Some in Hrow. split_and!.
  - apply Forall2_length in Hrow. by rewrite length_seq in Hrow.
  - apply (Forall2_Forall_r _ _ _ _ Hrow), Forall_forall.
    intros i _ x Hx. apply weight_Some in Hx as (b & _ & ->).
    apply clamp_weight_bounded.
  - intros i x Hx.
    destruct (Forall2_lookup_r _ _ _ _ _ Hrow Hx) as (k & Hk & Hw).
    apply lookup_seq in Hk as [-> _]. by apply weight_Some.
Qed.

Lemma decode_is_Some (hidden : nat) (bytes : Genome) :
  length bytes = GENOME_SIZE -> is_Some (decode hidden bytes).
Proof.
  intros Hlen. unfold decode.
  assert (Hh : is_Some
    (mapM (fun j => weights bytes (j * INPUTS) INPUTS) (seq 0 hidden))).
  { apply mapM_is_Some, Forall_forall. intros j _. by apply weights_is_Some. }
  assert (Ho : is_Some
    (mapM (fun k => weights bytes (INPUTS * hidden + k * hidden) hidden)
       (seq 0 OUTPUTS))).
  { apply mapM_is_Some, Forall_forall. intros k _. by apply weights_is_Some. }
  destruct Hh as [hw ->], Ho as [ow ->]. by eexists.
Qed.

(** The layers of a decoded network. *)
Lemma decode_layers (hidden : nat) (bytes : Genome) (n : Network) :
  decode hidden bytes = Some n ->
  n_inputs n = INPUTS /\ n_hidden n = hidden /\ n_outputs n = OUTPUTS /\
  Forall2 (fun j row => weights bytes (j * INPUTS) INPUTS = Some row)
    (seq 0 hidden) (hidden_weights n) /\
  Forall2 (fun k row =>
             weights bytes (INPUTS * hidden + k * hidden) hidden = Some row)
    (seq 0 OUTPUTS) (output_weights n).
Proof.
  unfold decode.
  destruct (mapM (fun j => weights bytes (j * INPUTS) INPUTS) (seq 0 hidden))
    as [hw|] eqn:Eh; [|done].
  destruct (mapM (fun k => weights bytes (INPUTS * hidden + k * hidden) hidden)
              (seq 0 OUTPUTS)) as [ow|] eqn:Eo; [|done].
  simpl. intros [= <-]. simpl.
  apply mapM_Some in Eh, Eo. by split_and!.
Qed.

Lemma decode_valid (hidden : nat) (bytes : Genome) (n : Network) :
  decode hidden bytes = Some n -> valid_network hidden n.
Proof.
  intros Hd. apply decode_layers in Hd as (Hi & Hh & Ho & Hhw & How).
  unfold valid_network. split_and!; try done.
  - apply Forall2_length in Hhw. by rewrite length_seq in Hhw.
  - apply (Forall2_Forall_r _ _ _ _ Hhw), Forall_forall.
    intros j _ row Hrow. by apply weights_row in Hrow as (? & ? & _).
  - apply Forall2_length in How. by rewrite length_seq in How.
  - apply (Forall2_Forall_r _ _ _ _ How), Forall_forall.
    intros k _ row Hrow. by apply weights_row in Hrow as (? & ? & _).
Qed.

Lemma hidden_size_bounds cfg :
  valid_config cfg = true -> (16 <= hidden_size cfg <= 32)%nat.
Proof.
  unfold valid_config. intros cfg_ok.
  repeat (apply andb_prop in cfg_ok; destruct cfg_ok as [cfg_ok ?]).
  repeat match goal with
         | Hb : (_ <=? _)%nat = true |- _ => apply Nat.leb_le in Hb
         end.
  lia.
Qed.

(** A weight outside [-1, 1] is clamped: in the sample instance the
    byte 0 stands for -128/127. A gene index past the fixed size wraps
    around. *)
Example weight_clamps :
  @weight sample_policy zero_genome 0 = Some (-1)%Q /\
  @weight sample_policy max_genome 200 = Some 1%Q /\
  clamp_weight (3 # 2) = 1%Q /\ clamp_weight (1 # 3) = (1 # 3)%Q.
Proof. repeat split; reflexivity. Qed.

(** A byte sequence that ends before a gene does not decode. *)
Example decode_short :
  @decode sample_policy 16 (repeat Byte.x00 63) = None.
Proof. vm_compute. reflexivity. Qed.

(** Ties between scores go to the action that comes first in the
    priority order. *)
Example decode_action_ties :
  decode_action [1; 1; 0; 0]%Q = Move /\
  decode_action [0; 1; 1; 0]%Q = Replicate /\
  decode_action [0; 0; 2; 2]%Q = Attack /\
  decode_action [0; 1; 2; 3]%Q = Defend.
Proof. repeat split; reflexivity. Qed.

(** C1. Every byte sequence of the fixed size (at most 64 bytes)
    decodes: [decode] returns a network, which is structurally valid and
    bounded: exactly 8 inputs, the configured hidden size (between 16
    and 32), exactly 4 outputs, weight rows of matching lengths, every
    weight in [-1, 1]. Every weight is the clamped value of the byte
    read at the index of its gene wrapped around the fixed size, and
    the forward pass of the network gives exactly 4 scores. *)
Theorem decode_total :
  forall (cfg : Config) (g : Genome),
    valid_config cfg = true -> length g = GENOME_SIZE ->
    exists n : Network,
      decode (hidden_size cfg) g = Some n /\
      valid_network (hidden_size cfg) n /\
      (16 <= n_hidden n <= 32)%nat /\
      (forall sensors, length (forward activation n sensors) = 4%nat) /\
      (forall j i row x,
         hidden_weights n !! j = Some row -> row !! i = Some x ->
         exists b,
           g !! (gene_of_connection (j * 8 + i) mod GENOME_SIZE)%nat = Some b /\
           x = clamp_weight (weight_of_byte b)) /\
      (forall k j row x,
         output_weights n !! k = Some row -> row !! j = Some x ->
         exists b,
           g !! (gene_of_connection (8 * hidden_size cfg + k * hidden_size cfg + j)
                 mod GENOME_SIZE)%nat = Some b /\
           x = clamp_weight (weight_of_byte b)) /\
      (GENOME_SIZE <= 64)%nat.
Proof.
  intros cfg g Hcfg Hlen.
  pose proof (hidden_size_bounds cfg Hcfg) as Hh.
  destruct (decode_is_Some (hidden_size cfg) g Hlen) as [n Hd].
  pose proof (decode_valid _ _ _ Hd) as Hv.
  destruct (decode_layers _ _ _ Hd) as (_ & Hn & _ & Hhw & How).
  exists n. split_and!; try done; try lia.
  - intros sensors. unfold forward. rewrite length_map.
    by destruct Hv as (_&_&_&_&_&?&_).
  - intros j i row x Hrow Hx.
    destruct (Forall2_lookup_r _ _ _ _ _ Hhw Hrow) as (j' & Hj & Hw).
    apply lookup_seq in Hj as [-> _].
    apply weights_row in Hw as (_ & _ & Hw). exact (Hw i x Hx).
  - intros k j row x Hrow Hx.
    destruct (Forall2_lookup_r _ _ _ _ _ How Hrow) as (k' & Hk & Hw).
    apply lookup_seq in Hk as [-> _].
    apply weights_row in Hw as (_ & _ & Hw). exact (Hw j x Hx).
Qed.

(** C2. In every state of the arena, whatever operations led to it
    (movement, replication, attacks, environment updates, evolution
    transitions, imports, whole ticks and generations), no two live
    warriors occupy the same cell, and every live warrior stands in
    bounds on the cell that holds its id. *)
Theorem warriors_occupy_distinct_cells :
  forall (cfg : Config) (a : Arena),
    valid_config cfg = true -> reachable cfg a -> exclusive_cells cfg a.
Proof.
  intros cfg a Hcfg Hr. pose proof (reachable_wf cfg Hcfg a Hr) as Hwf. split.
  - intros id1 id2 w1 w2 H1 H2 Hne Hpos.
    destruct (wf_warrior _ _ Hwf _ _ H1) as (_ & Hc1 & _).
    destruct (wf_warrior _ _ Hwf _ _ H2) as (_ & Hc2 & _).
    rewrite Hpos in Hc1. congruence.
  - intros id w Hl. by destruct (wf_warrior _ _ Hwf _ _ Hl) as (_ & ? & ? & _).
Qed.

(** C3. A live warrior has positive energy. Across one tick, a warrior
    that stays alive has not gained more energy than the resources it
    consumed in the tick, so without consumption its energy has not
    increased; a warrior that is gone after the tick is among the
    warriors removed in that tick, at energy 0 or below. The energy
    bound holds across any number of ticks. *)
Theorem energy_falls_until_removal :
  forall (cfg : Config) (a : Arena) (id : WarriorId) (w : Warrior),
    valid_config cfg = true -> reachable cfg a ->
    warriors a !! id = Some w ->
    0 < w_energy w /\
    (exists newly, fallen (step cfg a) = fallen a ++ newly /\
      match warriors (step cfg a) !! id with
      | Some w' =>
          0 < w_energy w' /\
          w_energy w' - w_energy w <= w_resources w' - w_resources w /\
          (w_resources w' = w_resources w -> w_energy w' <= w_energy w)
      | None =>
          exists w', In w' newly /\ w_id w' = id /\ w_energy w' <= 0
      end) /\
    forall (n : nat) (w' : Warrior),
      warriors (Nat.iter n (step cfg) a) !! id = Some w' ->
      0 < w_energy w' /\
      w_energy w' - w_energy w <= w_resources w' - w_resources w /\
      (w_resources w' = w_resources w -> w_energy w' <= w_energy w).
Proof.
  intros cfg a id w Hcfg Hr Hl.
  pose proof (reachable_wf cfg Hcfg a Hr) as Hwf.
  pose proof (wf_step cfg Hcfg a Hwf) as Hwf'.
  pose proof (progress_step cfg Hcfg a Hwf) as [_ Ha (newly & Hf & Hd)].
  destruct (wf_warrior _ _ Hwf _ _ Hl) as (_&_&_&He&Hid&_).
  split; [done|]. split.
  - exists newly. split; [done|].
    destruct (warriors (step cfg a) !! id) as [w'|] eqn:E.
    + destruct (Ha id w' E Hid) as (w0 & Hl0 & Hle & _).
      pose proof (eq_trans (eq_sym Hl0) Hl) as [= ->].
      destruct (wf_warrior _ _ Hwf' _ _ E) as (_&_&_&He'&_).
      split_and!; [done|done|lia].
    + by apply (Hd id w).
  - intros n w' E.
    pose proof (progress_ticks cfg Hcfg n a Hwf) as [_ Han _].
    destruct (Han id w' E Hid) as (w0 & Hl0 & Hle & _).
    pose proof (eq_trans (eq_sym Hl0) Hl) as [= ->].
    destruct (wf_warrior _ _ (wf_iter_step cfg Hcfg n a Hwf) _ _ E)
      as (_&_&_&He'&_).
    split_and!; [done|done|lia].
Qed.

(** *** A replicate that fails *)








(** *** Export and import *)






End Claims.

(** *** The theorems at the sample instance *)

Lemma decode_total_witness :
  (exists n, @decode sample_policy 16 zero_genome = Some n /\ valid_network 16 n) /\
  (exists n, @decode sample_policy 16 max_genome = Some n /\ valid_network 16 n).
Proof.
  split.
  - destruct (@decode_total sample_policy sample_config zero_genome
                eq_refl eq_refl) as (n & Hd & Hv & _).
    exists n. split; [exact Hd|exact Hv].
  - destruct (@decode_total sample_policy sample_config max_genome
                eq_refl eq_refl) as (n & Hd & Hv & _).
    exists n. split; [exact Hd|exact Hv].
Defined.

Lemma warriors_occupy_distinct_cells_witness :
  exclusive_cells sample_config (@step sample_policy sample_config sample_arena).
Proof.
  apply (@warriors_occupy_distinct_cells sample_policy sample_config).
  - reflexivity.
  - apply reach_step, reach_initialize_population, reach_configure.
Defined.

Lemma energy_falls_until_removal_witness :
  0 < w_energy (warrior_at 3%nat sample_arena) /\
  exists newly,
    fallen (@step sample_policy sample_config sample_arena)
    = fallen sample_arena ++ newly /\
    match warriors (@step sample_policy sample_config sample_arena) !! 3%nat with
    | Some w' =>
        0 < w_energy w' /\
        w_energy w' - w_energy (warrior_at 3%nat sample_arena)
        <= w_resources w' - w_resources (warrior_at 3%nat sample_arena) /\
        (w_resources w' = w_resources (warrior_at 3%nat sample_arena) ->
         w_energy w' <= w_energy (warrior_at 3%nat sample_arena))
    | None => exists w', In w' newly /\ w_id w' = 3%nat /\ w_energy w' <= 0
    end.
Proof.
  assert (Hl : warriors sample_arena !! 3%nat
               = Some (warrior_at 3%nat sample_arena))
    by (vm_compute; reflexivity).
  assert (Hr : @reachable sample_policy sample_config sample_arena)
    by apply reach_initialize_population, reach_configure.
  destruct (@energy_falls_until_removal sample_policy sample_config
              sample_arena 3%nat _ eq_refl Hr Hl) as (He & Hstep & _).
  split; [exact He|exact Hstep].
Defined.





End CoreFacts.

(** ** ControlPanel.ts: buttons and shortcuts *)

Module ControlsFacts.

Import Controls.

Section Listeners.

Context {W : Type} (callbacks : Callbacks W).

Lemma panel_invariant (I : Dom * W -> Prop) :
  (forall e s, I s -> I (handle callbacks e s)) ->
  forall es s, I s -> I (handleEvents callbacks es s).
Proof.
  intros Hstep es. unfold handleEvents.
  induction es as [|e es IH]; intros s Hs; [exact Hs|].
  cbn [fold_left]. apply IH, Hstep, Hs.
Qed.

(** A key press does nothing, clicks one button, or adjusts the speed. *)
Lemma handleKeyboardShortcuts_cases (targetIsInput : bool) (key : string)
    (s : Dom * W) :
  handleKeyboardShortcuts callbacks targetIsInput key s = s \/
  (exists button,
     isDisabled button (fst s) = false /\
     handleKeyboardShortcuts callbacks targetIsInput key s
       = clickListener callbacks button s) \/
  (exists delta,
     handleKeyboardShortcuts callbacks targetIsInput key s
       = adjustSpeed callbacks delta s).
Proof.
  assert (Hclick : forall button result,
    result = click callbacks button s ->
    result = s \/
    (exists button, isDisabled button (fst s) = false /\
       result = clickListener callbacks button s) \/
    (exists delta, result = adjustSpeed callbacks delta s)).
  { intros button result ->. unfold click.
    destruct (isDisabled button (fst s)) eqn:E; [left; reflexivity|].
    right; left. exists button. split; [exact E|reflexivity]. }
  unfold handleKeyboardShortcuts.
  destruct targetIsInput; [left; reflexivity|]. cbv zeta.
  repeat match goal with
  | |- context [if ?b then _ else _] =>
      destruct b; try (eapply Hclick; reflexivity);
      try (right; right; eexists; reflexivity)
  end.
  all: left; reflexivity.
Qed.

Lemma handle_cases (e : Event) (s : Dom * W) :
  Outcome callbacks s (handle callbacks e s).
Proof.
  destruct e as [button|value|targetIsInput key]; cbn [handle].
  - unfold click. destruct (isDisabled button (fst s)) eqn:E.
    + constructor.
    + now constructor.
  - constructor.
  - destruct (handleKeyboardShortcuts_cases targetIsInput key s)
      as [->|[[button [E ->]]|[delta ->]]]; now constructor.
Qed.

Lemma handle_cases_but_input (e : Event) (s : Dom * W) :
  (forall value, e <> Input value) ->
  handle callbacks e s = s \/
  (exists button, isDisabled button (fst s) = false /\
     handle callbacks e s = clickListener callbacks button s) \/
  (exists delta, handle callbacks e s = adjustSpeed callbacks delta s).
Proof.
  intros Hne. destruct e as [button|value|targetIsInput key]; cbn [handle].
  - unfold click. destruct (isDisabled button (fst s)) eqn:E.
    + left; reflexivity.
    + right; left. exists button. split; [exact E|reflexivity].
  - now destruct (Hne value).
  - apply handleKeyboardShortcuts_cases.
Qed.

Lemma coherentButtons_updateButtonStates (state : State) (d : Dom) :
  coherentButtons (updateButtonStates state d).
Proof.
  destruct state; cbn; unfold coherentButtons; cbn; repeat split;
    intros; congruence.
Qed.

Lemma coherentButtons_handle (e : Event) (s : Dom * W) :
  coherentButtons (fst s) -> coherentButtons (fst (handle callbacks e s)).
Proof.
  intros Hs.
  assert (Hlistener : forall button,
    coherentButtons (fst (clickListener callbacks button s))).
  { intros button. destruct s as [d w]. cbn [fst] in Hs.
    destruct button; cbn [clickListener fst];
      try apply coherentButtons_updateButtonStates; try exact Hs;
      repeat match goal with
      | |- context [if ?b then _ else _] => destruct b
      end; exact Hs. }
  assert (Hspeed : forall delta,
    coherentButtons (fst (adjustSpeed callbacks delta s))).
  { intros delta. destruct s as [d w]. exact Hs. }
  destruct e as [button|value|targetIsInput key]; cbn [handle].
  - unfold click. destruct (isDisabled button (fst s)); [exact Hs|].
    apply Hlistener.
  - destruct s as [d w]. exact Hs.
  - destruct (handleKeyboardShortcuts_cases targetIsInput key s)
      as [->|[[button [_ ->]]|[delta ->]]]; auto.
Qed.

(** Whatever the markup, the callbacks and the events are, the five
    simulation buttons stay coherent: exactly one of start and pause is
    enabled, step and generation are enabled exactly when start is, and
    reset is disabled only while start is enabled. *)
Theorem buttons_stay_coherent (html : Dom) (w : W) (es : list Event) :
  coherentButtons (fst (handleEvents callbacks es (constructor html, w))).
Proof.
  apply (panel_invariant (fun s => coherentButtons (fst s))).
  - intros e s. apply coherentButtons_handle.
  - apply coherentButtons_updateButtonStates.
Qed.

End Listeners.

End ControlsFacts.

(** ** Application.ts: the page behind the panel *)

Module ApplicationFacts.

Import Application.

Lemma page_invariant (ok : Event -> bool) (I : Page -> Prop) :
  (forall e p, ok e = true -> I p -> I (handle e p)) ->
  forall es p, forallb ok es = true -> I p -> I (handleEvents es p).
Proof.
  intros Hstep es. unfold handleEvents.
  induction es as [|e es IH]; intros p Hok Hp; [exact Hp|].
  cbn [fold_left]. cbn [forallb] in Hok.
  apply andb_true_iff in Hok as [He Hes].
  apply IH; [exact Hes|]. apply Hstep; assumption.
Qed.

Lemma page_invariant_all (I : Page -> Prop) :
  (forall e p, I p -> I (handle e p)) ->
  forall es p, I p -> I (handleEvents es p).
Proof.
  intros Hstep es p Hp.
  apply (page_invariant (fun _ => true) I); auto.
  clear. induction es; cbn; auto.
Qed.

(** Case analysis over the listeners of the eleven buttons. *)
Ltac listeners :=
  repeat match goal with
  | |- context [if ?b then _ else _] => destruct b eqn:?
  | H : context [if ?b then _ else _] |- _ => destruct b eqn:?
  end.

(** The overlay toggles leave the simulation alone. *)
Lemma toggleHeatmap_simulation (a : App) :
  simulation (toggleHeatmap a) = simulation a /\
  isRunning (toggleHeatmap a) = isRunning a /\
  wasmCalls (toggleHeatmap a) = wasmCalls a.
Proof.
  unfold toggleHeatmap. cbv zeta.
  destruct (negb (showHeatmap (settings a))); repeat split.
Qed.

Lemma toggleTopology_simulation (a : App) :
  simulation (toggleTopology a) = simulation a /\
  isRunning (toggleTopology a) = isRunning a /\
  wasmCalls (toggleTopology a) = wasmCalls a.
Proof.
  unfold toggleTopology. cbv zeta.
  destruct (negb (showTopology (settings a))); repeat split.
Qed.

Lemma guarded_handle (e : Event) (p : Page) : guarded p -> guarded (handle e p).
Proof.
  intros [Hb Hr]. split.
  - destruct e as [e| | |t]; cbn [handle fst]; try exact Hb.
    apply ControlsFacts.coherentButtons_handle, Hb.
  - destruct e as [e| | |t]; cbn [handle fst snd].
    + destruct (ControlsFacts.handle_cases callbacks e p)
        as [|button Hen|delta|value]; [exact Hr|..];
        destruct p as [d a]; cbn [fst snd] in *.
      * destruct (toggleHeatmap_simulation a) as [Th1 [Th2 _]].
        destruct (toggleTopology_simulation a) as [Tt1 [Tt2 _]].
        destruct button; cbn in Hen |- *; rewrite ?Th1, ?Th2, ?Tt1, ?Tt2;
          unfold start, pause, reset, step, runGeneration, exportData, called;
          destruct (simulation a) eqn:Es; cbn; listeners; cbn; intros Hrun;
          first
            [ discriminate Hrun
            | split; first [reflexivity | assumption]
            | destruct (Hr Hrun) as [H1 H2];
              first [congruence | split; congruence] ].
      * exact Hr.
      * exact Hr.
    + exact Hr.
    + intros Hrun. destruct (Hr Hrun) as [H1 _]. split; [exact H1|reflexivity].
    + unfold render. cbv zeta.
      destruct (isRunning (snd p) && simulation (snd p)) eqn:E;
        [|exact Hr].
      destruct (targetFrameTime (settings (snd p))) as [target|];
        [|exact Hr].
      destruct (Js.geb _ target); exact Hr.
Qed.

Lemma guarded_reachable (html : Controls.Dom) (heatmap network : bool)
    (es : list Event) :
  guarded (handleEvents es (constructor html heatmap network)).
Proof.
  apply page_invariant_all.
  - intros e p. apply guarded_handle.
  - split.
    + apply ControlsFacts.coherentButtons_updateButtonStates.
    + cbn. discriminate.
Qed.

(** While the simulation runs, a request to step by hand (the step or
    generation button, or the key S or G) changes nothing: the render
    loop is then the only one to step the simulation. *)
Theorem no_manual_step_while_running (html : Controls.Dom)
    (heatmap network : bool) (es : list Event) (e : Event) :
  let p := handleEvents es (constructor html heatmap network) in
  manualStep e = true -> isRunning (snd p) = true -> handle e p = p.
Proof.
  intros p Hmanual Hrun.
  destruct (guarded_reachable html heatmap network es) as [Hb Hr].
  fold p in Hb, Hr. destruct (Hr Hrun) as [Hstart _].
  destruct Hb as (_ & Hstep & Hgen & _). rewrite Hstart in Hstep, Hgen.
  assert (Hs : Controls.click callbacks Controls.StepButton p = p)
    by (unfold Controls.click; cbn [Controls.isDisabled]; now rewrite Hstep).
  assert (Hg : Controls.click callbacks Controls.GenerationButton p = p)
    by (unfold Controls.click; cbn [Controls.isDisabled]; now rewrite Hgen).
  destruct e as [[button|value|targetIsInput key]| | |t];
    try discriminate Hmanual.
  - destruct button; try discriminate Hmanual; assumption.
  - cbn [manualStep] in Hmanual.
    cbn [handle Controls.handle]. unfold Controls.handleKeyboardShortcuts.
    destruct targetIsInput; [reflexivity|]. cbv zeta.
    apply orb_true_iff in Hmanual as [Hk|Hk]; apply String.eqb_eq in Hk;
      rewrite Hk; cbn; assumption.
Qed.

Lemma synced_handle (e : Event) (p : Page) : synced p -> synced (handle e p).
Proof.
  intros [Hsim Hrun]. unfold synced, Controls.showsRunning in *.
  destruct e as [e| | |t]; cbn [handle fst snd].
  - destruct (ControlsFacts.handle_cases callbacks e p)
      as [|button Hen|delta|value]; [split; assumption|..];
      destruct p as [d a]; cbn [fst snd] in *.
    + destruct (toggleHeatmap_simulation a) as [Th1 [Th2 _]].
      destruct (toggleTopology_simulation a) as [Tt1 [Tt2 _]].
      destruct button; cbn in Hen |- *; rewrite ?Th1, ?Th2, ?Tt1, ?Tt2;
        unfold start, pause, reset, step, runGeneration, exportData, called;
        rewrite ?Hsim; cbn; listeners; cbn; split; congruence.
    + split; assumption.
    + split; assumption.
  - split; assumption.
  - split; [reflexivity|assumption].
  - unfold render. cbv zeta.
    destruct (isRunning (snd p) && simulation (snd p)); [|split; assumption].
    destruct (targetFrameTime (settings (snd p))) as [target|];
      [|split; assumption].
    destruct (Js.geb _ target); split; assumption.
Qed.

Lemma handleEvents_app (es1 es2 : list Event) (p : Page) :
  handleEvents (es1 ++ es2) p = handleEvents es2 (handleEvents es1 p).
Proof. unfold handleEvents. apply fold_left_app. Qed.

(** The application never runs without the panel showing it, and pause
    is enabled exactly when the panel shows a running simulation. If
    the panel and the application agree when the WebAssembly module has
    loaded, they agree ever after, whatever the clicks, keys, resizes
    and frames that follow: the application runs exactly when the panel
    shows it running. (The listeners work before the module has loaded:
    a click on start then leaves the panel showing a running simulation
    while nothing runs, and the agreement is lost.) *)
Theorem run_state_matches_panel (html : Controls.Dom)
    (heatmap network : bool) (pre es : list Event) :
  let p0 := handleEvents pre (constructor html heatmap network) in
  let p := handleEvents (Initialized :: es) p0 in
  (isRunning (snd p) = true -> Controls.showsRunning (fst p) = true) /\
  Controls.pauseDisabled (fst p) = negb (Controls.showsRunning (fst p)) /\
  (isRunning (snd p0) = Controls.showsRunning (fst p0) ->
   isRunning (snd p) = Controls.showsRunning (fst p)).
Proof.
  intros p0 p.
  destruct (guarded_reachable html heatmap network (pre ++ Initialized :: es))
    as [(Hpause & _) Hrun].
  rewrite handleEvents_app in Hpause, Hrun. fold p0 p in Hpause, Hrun.
  split; [intros H; exact (proj1 (Hrun H))|]. split; [exact Hpause|].
  intros Hagree.
  assert (Hs : synced p); [|exact (proj2 Hs)].
  subst p. unfold handleEvents at 1. cbn [fold_left].
  apply page_invariant_all.
  - intros e q. apply synced_handle.
  - split; [reflexivity|exact Hagree].
Qed.

(** Space or Enter (in any case, outside an input field) always toggles
    what the panel shows, and asks the simulation, once it exists, to
    follow: with exactly one call, pause when the panel showed a running
    simulation and start otherwise; before the simulation exists no call
    is made. So the key toggles the run state whenever the panel and the
    application agree. *)
Theorem space_toggles_run_state (html : Controls.Dom)
    (heatmap network : bool) (es : list Event) (key : string) :
  let p := handleEvents es (constructor html heatmap network) in
  let p' := handle (Panel (Controls.KeyDown false key)) p in
  Js.toLowerCase key = " " \/ Js.toLowerCase key = "enter" ->
  Controls.showsRunning (fst p') = negb (Controls.showsRunning (fst p)) /\
  isRunning (snd p')
  = simulation (snd p) && negb (Controls.showsRunning (fst p)) /\
  wasmCalls (snd p')
  = wasmCalls (snd p)
    ++ (if simulation (snd p)
        then [if Controls.showsRunning (fst p) then Pause else Start]
        else []) /\
  (simulation (snd p) = true ->
   isRunning (snd p) = Controls.showsRunning (fst p) ->
   isRunning (snd p') = negb (isRunning (snd p))).
Proof.
  intros p p' Hkey.
  destruct (guarded_reachable html heatmap network es) as [(Hpause & _) Hrun].
  fold p in Hpause, Hrun. unfold Controls.showsRunning in *.
  subst p'. cbn [handle Controls.handle].
  unfold Controls.handleKeyboardShortcuts. cbv zeta.
  assert (Hspace :
    (Js.toLowerCase key =? " ")%string || (Js.toLowerCase key =? "enter")%string
    = true) by (destruct Hkey as [-> | ->]; reflexivity).
  rewrite Hspace. clear Hspace Hkey. cbv iota.
  destruct p as [d a]. cbn [fst snd] in *.
  unfold Controls.click. cbn [Controls.isDisabled fst].
  destruct (Controls.startDisabled d) eqn:Es; cbn [negb].
  - rewrite Hpause. cbn. unfold pause.
    destruct (simulation a) eqn:Esim; cbn; rewrite ?app_nil_r;
      repeat split;
      first
        [ congruence
        | intros _ H; rewrite H; reflexivity
        | destruct (isRunning a) eqn:Erun;
          [destruct (Hrun eq_refl); congruence|reflexivity] ].
  - cbn. unfold start.
    destruct (simulation a) eqn:Esim; cbn; rewrite ?app_nil_r;
      repeat split;
      first
        [ congruence
        | intros _ H; rewrite H; reflexivity
        | destruct (isRunning a) eqn:Erun;
          [destruct (Hrun eq_refl); congruence|reflexivity] ].
Qed.

Lemma pristine_handle (e : Event) (p : Page) :
  isInitialized e = false -> pristine p -> pristine (handle e p).
Proof.
  intros He (Hsim & Hrun & Hcalls). unfold pristine in *.
  destruct e as [e| | |t]; try discriminate He; cbn [handle fst snd].
  - destruct (ControlsFacts.handle_cases callbacks e p)
      as [|button Hen|delta|value]; [repeat split; assumption|..];
      destruct p as [d a]; cbn [fst snd] in *.
    + destruct (toggleHeatmap_simulation a) as [Th1 [Th2 Th3]].
      destruct (toggleTopology_simulation a) as [Tt1 [Tt2 Tt3]].
      destruct button; cbn;
        rewrite ?Th1, ?Th2, ?Th3, ?Tt1, ?Tt2, ?Tt3;
        unfold start, pause, reset, step, runGeneration, exportData;
        rewrite ?Hsim; cbn; repeat split; assumption.
    + repeat split; assumption.
    + repeat split; assumption.
  - repeat split; assumption.
  - unfold render. cbv zeta. rewrite Hrun. cbn. repeat split; assumption.
Qed.

(** Until the WebAssembly module has loaded, no control reaches the
    simulation: whatever is clicked or pressed, no call is made and the
    application does not run. *)
Theorem controls_idle_before_initialization (html : Controls.Dom)
    (heatmap network : bool) (es : list Event) :
  forallb (fun e => negb (isInitialized e)) es = true ->
  pristine (handleEvents es (constructor html heatmap network)).
Proof.
  intros Hes.
  apply (page_invariant (fun e => negb (isInitialized e))).
  - intros e p He. apply pristine_handle. now apply negb_true_iff.
  - exact Hes.
  - repeat split.
Qed.

(** The frame of the render loop leaves the settings and the overlay
    canvases alone. *)
Lemma render_display (t : Q) (a : App) :
  settings (render t a) = settings a /\
  heatmapShown (render t a) = heatmapShown a /\
  networkShown (render t a) = networkShown a.
Proof.
  unfold render. cbv zeta.
  destruct (isRunning a && simulation a); [|repeat split].
  destruct (targetFrameTime (settings a)) as [target|]; [|repeat split].
  destruct (Js.geb _ target); repeat split.
Qed.

(** Brute-force case analysis over a listener: every flag of the page
    is a variable. *)
Ltac flags p :=
  destruct p as [[sd pd rd std gd ha ta tea ra sl]
                 [sim run lft fc [sh st ste sr str sp] hs ns wc]];
  cbn [fst snd] in *.

Ltac settle :=
  cbn in *;
  unfold start, pause, reset, step, runGeneration, exportData, called,
    toggleHeatmap, toggleTopology, toggleTerritories, toggleResources,
    setSpeed, withSettings, withShown in *;
  cbn in *;
  repeat match goal with
  | |- context [if ?b then _ else _] => destruct b; cbn in *
  end;
  repeat split; try congruence; try discriminate; auto.

Lemma togglesAgree_handle (e : Event) (p : Page) :
  togglesAgree p /\ oneOverlay (settings (snd p)) ->
  togglesAgree (handle e p) /\ oneOverlay (settings (snd (handle e p))).
Proof.
  intros Hp. unfold togglesAgree, oneOverlay in *.
  destruct e as [e| | |t]; cbn [handle fst snd]; try exact Hp.
  - destruct (ControlsFacts.handle_cases callbacks e p)
      as [|button Hen|delta|value]; [exact Hp|..].
    + flags p. clear Hen. cbn in Hp.
      destruct Hp as ((-> & -> & -> & ->) & Hone).
      destruct button; destruct sh, st; try discriminate Hone; settle.
    + flags p. exact Hp.
    + flags p. exact Hp.
  - destruct (render_display t (snd p)) as [-> _]. exact Hp.
Qed.

(** When the markup starts with neither overlay button active, the
    four toggle buttons always show the settings the application draws
    with, and the heat map and the topology are never both on. *)
Theorem toggles_match_settings (html : Controls.Dom)
    (heatmap network : bool) (es : list Event) :
  Controls.heatmapActive html = false ->
  Controls.topologyActive html = false ->
  let p := handleEvents es (constructor html heatmap network) in
  togglesAgree p /\ oneOverlay (settings (snd p)).
Proof.
  intros Hh Ht.
  apply (page_invariant_all
           (fun p => togglesAgree p /\ oneOverlay (settings (snd p)))).
  - intros e p. apply togglesAgree_handle.
  - unfold togglesAgree, oneOverlay. cbn. repeat split; assumption.
Qed.

Lemma shownWhenOn_handle (e : Event) (p : Page) :
  shownWhenOn (snd p) /\ heatmapShown (snd p) && networkShown (snd p) = false ->
  shownWhenOn (snd (handle e p)) /\
  heatmapShown (snd (handle e p)) && networkShown (snd (handle e p)) = false.
Proof.
  intros Hp. unfold shownWhenOn in *.
  destruct e as [e| | |t]; cbn [handle fst snd].
  - destruct (ControlsFacts.handle_cases callbacks e p)
      as [|button Hen|delta|value]; [exact Hp|..].
    + flags p. clear Hen. cbn in Hp. destruct Hp as ((Hh & Hn) & Hone).
      destruct button; destruct sh, st, hs, ns; try discriminate Hone;
        settle.
    + flags p. exact Hp.
    + flags p. exact Hp.
  - cbn. repeat split; discriminate.
  - cbn. repeat split; discriminate.
  - destruct (render_display t (snd p)) as (-> & -> & ->). exact Hp.
Qed.

(** Once the canvases are set up, an overlay canvas is visible only
    while its setting is on, and the two overlays are never visible
    together; a resize hides both without touching the settings. *)
Theorem overlays_shown_only_when_on (html : Controls.Dom)
    (heatmap network : bool) (es : list Event) :
  let p :=
    handleEvents (Initialized :: es) (constructor html heatmap network) in
  shownWhenOn (snd p) /\
  heatmapShown (snd p) && networkShown (snd p) = false /\
  settings (snd (handle Resize p)) = settings (snd p) /\
  heatmapShown (snd (handle Resize p)) = false /\
  networkShown (snd (handle Resize p)) = false.
Proof.
  intros p.
  assert (H : shownWhenOn (snd p) /\
              heatmapShown (snd p) && networkShown (snd p) = false).
  { subst p. unfold handleEvents. cbn [fold_left].
    apply (page_invariant_all
             (fun p => shownWhenOn (snd p) /\
                       heatmapShown (snd p) && networkShown (snd p) = false)).
    - intros e q. apply shownWhenOn_handle.
    - cbn. unfold shownWhenOn. cbn. repeat split; discriminate. }
  destruct H as [H1 H2]. repeat split; try assumption; apply H1.
Qed.

Lemma shownAsSet_handle (e : Event) (p : Page) :
  staysLaidOut e = true ->
  shownAsSet (snd p) /\ oneOverlay (settings (snd p)) ->
  shownAsSet (snd (handle e p)) /\ oneOverlay (settings (snd (handle e p))).
Proof.
  intros He Hp. unfold shownAsSet, oneOverlay in *.
  destruct e as [e| | |t]; try discriminate He; cbn [handle fst snd].
  - destruct (ControlsFacts.handle_cases callbacks e p)
      as [|button Hen|delta|value]; [exact Hp|..].
    + flags p. clear Hen. cbn in Hp. destruct Hp as ((-> & ->) & Hone).
      destruct button; destruct sh, st; try discriminate Hone; settle.
    + flags p. exact Hp.
    + flags p. exact Hp.
  - destruct (render_display t (snd p)) as (-> & -> & ->). exact Hp.
Qed.

Lemma oneOverlay_handle (e : Event) (p : Page) :
  oneOverlay (settings (snd p)) -> oneOverlay (settings (snd (handle e p))).
Proof.
  intros Hp. unfold oneOverlay in *.
  destruct e as [e| | |t]; cbn [handle fst snd]; try exact Hp.
  - destruct (ControlsFacts.handle_cases callbacks e p)
      as [|button Hen|delta|value]; [exact Hp|..].
    + flags p. clear Hen. cbn in Hp.
      destruct button; destruct sh, st; try discriminate Hp; settle.
    + flags p. exact Hp.
    + flags p. exact Hp.
  - destruct (render_display t (snd p)) as [-> _]. exact Hp.
Qed.

(** As long as the window is not resized and the canvases are not set
    up again, each overlay canvas stays visible exactly when its setting
    is on, from any moment at which that is so. Setting up the canvases
    (when the WebAssembly module has loaded, or on a resize) hides both
    overlays, so that moment comes exactly when both settings are off:
    an overlay switched on earlier stays hidden until it is toggled. *)
Theorem overlays_follow_settings (html : Controls.Dom)
    (heatmap network : bool) (pre es : list Event) :
  let p0 := handleEvents pre (constructor html heatmap network) in
  (forallb staysLaidOut es = true -> shownAsSet (snd p0) ->
   shownAsSet (snd (handleEvents es p0))) /\
  (forall e, staysLaidOut e = false ->
     (shownAsSet (snd (handle e p0)) <->
      showHeatmap (settings (snd p0)) = false /\
      showTopology (settings (snd p0)) = false)).
Proof.
  intros p0. split.
  - intros Hes Hshown.
    assert (Hone : oneOverlay (settings (snd p0))).
    { subst p0.
      apply (page_invariant_all (fun p => oneOverlay (settings (snd p)))).
      - intros e p. apply oneOverlay_handle.
      - reflexivity. }
    refine (proj1 (page_invariant staysLaidOut
             (fun p => shownAsSet (snd p) /\ oneOverlay (settings (snd p)))
             _ es p0 Hes (conj Hshown Hone))).
    intros e p. apply shownAsSet_handle.
  - intros e He. unfold shownAsSet.
    destruct e as [e| | |t]; try discriminate He; cbn; split;
      intros [H1 H2]; split; congruence.
Qed.

Lemma speed_handle (e : Event) (p : Page) :
  isInput e = false ->
  ControlPanel.inRange (simulationSpeed (settings (snd p))) ->
  ControlPanel.inRange (simulationSpeed (settings (snd (handle e p)))).
Proof.
  intros He Hp.
  destruct e as [e| | |t]; cbn [handle fst snd]; try exact Hp.
  - destruct (ControlsFacts.handle_cases_but_input callbacks e p)
      as [->|[[button [_ ->]]|[delta ->]]].
    + intros value ->. discriminate He.
    + exact Hp.
    + flags p. set (P := ControlPanel.inRange) in *. clearbody P.
      destruct button; settle.
    + flags p. cbn. apply ControlPanelFacts.newSpeed_inRange.
  - destruct (render_display t (snd p)) as [-> _]. exact Hp.
Qed.

(** As long as the speed is changed from the keyboard only, the
    simulation speed stays between 0.1 and 5, so the render loop steps
    the simulation at intervals of at least 1000/300 ms and at most
    1000/6 ms, and never divides by zero. *)
Theorem frame_interval_bounded (html : Controls.Dom)
    (heatmap network : bool) (es : list Event) :
  forallb (fun e => negb (isInput e)) es = true ->
  let v := settings (snd (handleEvents es (constructor html heatmap network))) in
  ControlPanel.inRange (simulationSpeed v) /\
  exists target,
    targetFrameTime v = Some target /\
    (10 # 3 <= target)%Q /\ (target <= 500 # 3)%Q.
Proof.
  intros Hes v.
  assert (Hv : ControlPanel.inRange (simulationSpeed v)).
  { subst v.
    apply (page_invariant (fun e => negb (isInput e))
             (fun p => ControlPanel.inRange (simulationSpeed (settings (snd p)))));
      [|exact Hes|].
    - intros e p He. apply speed_handle. now apply negb_true_iff.
    - cbn. unfold ControlPanel.inRange, ControlPanel.minSpeed,
        ControlPanel.maxSpeed. split; lra. }
  split; [exact Hv|].
  destruct Hv as [Hlo Hhi].
  unfold ControlPanel.minSpeed, ControlPanel.maxSpeed in Hlo, Hhi.
  unfold targetFrameTime. cbv zeta.
  set (d := (60 * simulationSpeed v)%Q).
  assert (Hd : (6 <= d /\ d <= 300)%Q) by (subst d; split; lra).
  destruct (Qeq_bool d 0) eqn:E.
  - apply Qeq_bool_iff in E. lra.
  - exists (1000 / d)%Q. split; [reflexivity|]. split.
    + apply Qle_shift_div_l; lra.
    + apply Qle_shift_div_r; lra.
Qed.

(** *** The calls on the simulation *)

Lemma repopulating_app (calls chunk : list WasmCall) :
  repopulating calls -> repopulating chunk -> repopulating (calls ++ chunk).
Proof.
  intros Hcalls Hchunk i Hi.
  destruct (Nat.lt_ge_cases i (length calls)) as [Hlt|Hge].
  - rewrite lookup_app_l in Hi by exact Hlt.
    pose proof (Hcalls i Hi) as Hnext.
    rewrite lookup_app_l; [exact Hnext|].
    eapply lookup_lt_Some, Hnext.
  - rewrite lookup_app_r in Hi by exact Hge.
    rewrite lookup_app_r by lia.
    replace (S i - length calls)%nat with (S (i - length calls)) by lia.
    now apply Hchunk.
Qed.

Lemma disciplined_app (calls chunk : list WasmCall) :
  disciplined calls -> repopulating chunk ->
  calls <> [] \/ (forall c, chunk !! 0%nat = Some c -> c = InitializePopulation 100) ->
  disciplined (calls ++ chunk).
Proof.
  intros [Hre Hfirst] Hchunk Hhead. split.
  - now apply repopulating_app.
  - intros c Hc. destruct calls as [|c0 calls].
    + destruct Hhead as [Hne|Hhead]; [now destruct Hne|]. now apply Hhead.
    + apply Hfirst. exact Hc.
Qed.

Lemma orderly_called (chunk : list WasmCall) (a a' : App) :
  orderly a -> repopulating chunk ->
  simulation a' = simulation a ->
  wasmCalls a' = wasmCalls a ++ (if simulation a then chunk else []) ->
  orderly a'.
Proof.
  intros (Hd & Hon & Hoff) Hchunk Hsim Hcalls. unfold orderly.
  rewrite Hsim, Hcalls. destruct (simulation a) eqn:E.
  - split; [|split].
    + apply disciplined_app; auto.
    + intros _ Hnil. apply app_eq_nil in Hnil as [Hnil _]. now apply Hon.
    + discriminate.
  - rewrite app_nil_r. repeat split; try apply Hd; auto.
Qed.

Lemma repopulating_one (c : WasmCall) : c <> Reset -> repopulating [c].
Proof.
  intros Hc [|i] Hi; cbn in Hi; [congruence|discriminate].
Qed.

Lemma repopulating_reset : repopulating [Reset; InitializePopulation 100].
Proof.
  intros [|[|i]] Hi; cbn in Hi; try discriminate. reflexivity.
Qed.

Lemma repopulating_none : repopulating [].
Proof. intros i Hi. discriminate. Qed.

Lemma orderly_handle (e : Event) (p : Page) :
  orderly (snd p) -> orderly (snd (handle e p)).
Proof.
  intros Hp. destruct e as [e| | |t]; cbn [handle fst snd].
  - destruct (ControlsFacts.handle_cases callbacks e p)
      as [|button Hen|delta|value]; [exact Hp|..];
      destruct p as [d a]; cbn [fst snd] in *.
    + destruct (toggleHeatmap_simulation a) as (Th1 & _ & Th3).
      destruct (toggleTopology_simulation a) as (Tt1 & _ & Tt3).
      destruct button; cbn [Controls.clickListener Controls.invoke callbacks
        Controls.onStartCallback Controls.onPauseCallback
        Controls.onResetCallback Controls.onStepCallback
        Controls.onGenerationCallback Controls.onHeatmapToggleCallback
        Controls.onTopologyToggleCallback Controls.onTerritoriesToggleCallback
        Controls.onResourcesToggleCallback Controls.onExportJsonCallback
        Controls.onExportCsvCallback snd].
      * apply (orderly_called [Start] a); [exact Hp|apply repopulating_one; discriminate|..];
          unfold start; destruct (simulation a) eqn:Es; cbn; rewrite ?app_nil_r; auto.
      * apply (orderly_called [Pause] a); [exact Hp|apply repopulating_one; discriminate|..];
          unfold pause; destruct (simulation a) eqn:Es; cbn; rewrite ?app_nil_r; auto.
      * apply (orderly_called [Reset; InitializePopulation 100] a);
          [exact Hp|apply repopulating_reset|..];
          unfold reset; destruct (simulation a) eqn:Es; cbn; rewrite ?app_nil_r; auto.
      * apply (orderly_called [Step] a); [exact Hp|apply repopulating_one; discriminate|..];
          unfold step; destruct (simulation a) eqn:Es; cbn; rewrite ?app_nil_r; auto.
      * apply (orderly_called [RunGeneration] a);
          [exact Hp|apply repopulating_one; discriminate|..];
          unfold runGeneration; destruct (simulation a) eqn:Es; cbn;
          rewrite ?app_nil_r; auto.
      * apply (orderly_called [] a); [exact Hp|apply repopulating_none|..];
          [exact Th1|rewrite Th3; destruct (simulation a); now rewrite app_nil_r].
      * apply (orderly_called [] a); [exact Hp|apply repopulating_none|..];
          [exact Tt1|rewrite Tt3; destruct (simulation a); now rewrite app_nil_r].
      * exact Hp.
      * exact Hp.
      * apply (orderly_called [ExportData "json"] a);
          [exact Hp|apply repopulating_one; discriminate|..];
          unfold exportData; destruct (simulation a) eqn:Es; cbn;
          rewrite ?app_nil_r; auto.
      * apply (orderly_called [ExportData "csv"] a);
          [exact Hp|apply repopulating_one; discriminate|..];
          unfold exportData; destruct (simulation a) eqn:Es; cbn;
          rewrite ?app_nil_r; auto.
    + exact Hp.
    + exact Hp.
  - exact Hp.
  - destruct Hp as (Hd & Hon & Hoff). unfold orderly. cbn.
    split; [|split].
    + apply disciplined_app; [exact Hd|apply repopulating_one; discriminate|].
      right. intros c [= <-]. reflexivity.
    + intros _ Hnil. now apply app_eq_nil in Hnil as [_ Hnil].
    + discriminate.
  - unfold render. cbv zeta.
    destruct (isRunning (snd p) && simulation (snd p)) eqn:E; [|exact Hp].
    destruct (targetFrameTime (settings (snd p))) as [target|]; [|exact Hp].
    destruct (Js.geb _ target); [|exact Hp].
    apply andb_true_iff in E as [_ E].
    apply (orderly_called [Step] (snd p));
      [exact Hp|apply repopulating_one; discriminate|reflexivity|].
    cbn. now rewrite E.
Qed.

(** The calls the application makes on the simulation keep a
    discipline, whatever happens on the page: the first call ever made
    populates the simulation with 100 warriors, and every reset is
    followed at once by populating it again. *)
Theorem simulation_always_populated (html : Controls.Dom)
    (heatmap network : bool) (es : list Event) :
  disciplined
    (wasmCalls (snd (handleEvents es (constructor html heatmap network)))).
Proof.
  apply (page_invariant_all (fun p => orderly (snd p))).
  - intros e p. apply orderly_handle.
  - cbn. split; [|split]; try discriminate; auto.
    split; [apply repopulating_none|]. intros c Hc. discriminate.
Qed.

(** ** The theorems at a sample session *)

Lemma no_manual_step_while_running_witness :
  handle (Panel (Controls.KeyDown false "S"))
    (handleEvents (Initialized :: sampleSession)
       (constructor sampleMarkup true true))
  = handleEvents (Initialized :: sampleSession)
      (constructor sampleMarkup true true).
Proof.
  apply (no_manual_step_while_running sampleMarkup true true
           (Initialized :: sampleSession)
           (Panel (Controls.KeyDown false "S")));
    reflexivity.
Defined.

Lemma run_state_matches_panel_witness :
  isRunning
    (snd (handleEvents (Initialized :: sampleSession)
            (handleEvents [Panel (Controls.KeyDown false "h")]
               (constructor sampleMarkup true true))))
  = Controls.showsRunning
      (fst (handleEvents (Initialized :: sampleSession)
              (handleEvents [Panel (Controls.KeyDown false "h")]
                 (constructor sampleMarkup true true)))).
Proof.
  destruct (run_state_matches_panel sampleMarkup true true
              [Panel (Controls.KeyDown false "h")] sampleSession)
    as (_ & _ & Hagree).
  apply Hagree. reflexivity.
Defined.

Lemma space_toggles_run_state_witness :
  isRunning
    (snd (handle (Panel (Controls.KeyDown false "Enter"))
            (handleEvents (Initialized :: sampleSession)
               (constructor sampleMarkup true true))))
  = false.
Proof.
  assert (Hkey : Js.toLowerCase "Enter" = " " \/ Js.toLowerCase "Enter" = "enter")
    by (right; reflexivity).
  destruct (space_toggles_run_state sampleMarkup true true
              (Initialized :: sampleSession) "Enter" Hkey)
    as (_ & Hrun & _).
  exact Hrun.
Defined.

Lemma controls_idle_before_initialization_witness :
  pristine (handleEvents sampleSession (constructor sampleMarkup true true)).
Proof.
  apply (controls_idle_before_initialization sampleMarkup true true
           sampleSession).
  reflexivity.
Defined.

Lemma toggles_match_settings_witness :
  togglesAgree
    (handleEvents (Initialized :: sampleSession)
       (constructor sampleMarkup true true)) /\
  oneOverlay
    (settings
       (snd (handleEvents (Initialized :: sampleSession)
               (constructor sampleMarkup true true)))).
Proof.
  apply (toggles_match_settings sampleMarkup true true
           (Initialized :: sampleSession)); reflexivity.
Defined.

Lemma overlays_follow_settings_witness :
  shownAsSet
    (snd (handleEvents sampleSession
            (handleEvents [Initialized] (constructor sampleMarkup true true)))).
Proof.
  destruct (overlays_follow_settings sampleMarkup true true [Initialized]
              sampleSession) as [Hkept _].
  apply Hkept; [reflexivity|split; reflexivity].
Defined.

Lemma frame_interval_bounded_witness :
  ControlPanel.inRange
    (simulationSpeed
       (settings
          (snd (handleEvents (Initialized :: sampleSession)
                  (constructor sampleMarkup true true))))).
Proof.
  assert (Hkeys :
    forallb (fun e => negb (isInput e)) (Initialized :: sampleSession) = true)
    by reflexivity.
  destruct (frame_interval_bounded sampleMarkup true true
              (Initialized :: sampleSession) Hkeys) as [Hrange _].
  exact Hrange.
Defined.

End ApplicationFacts.

(** ** MainRenderer.ts: the arena view *)

Module MainRendererFacts.

Import MainRenderer.

Lemma scale_bounds (width height : Q) :
  (0 <= width)%Q -> (0 <= height)%Q ->
  (0 <= scale width height /\
   64 * scale width height <= width * (8 # 10) /\
   64 * scale width height <= height * (8 # 10))%Q.
Proof.
  intros Hw Hh. unfold scale, Qdiv. change (/ 64)%Q with (1 # 64)%Q.
  assert (Hlo : (0 <= Qmin (width * (1 # 64)) (height * (1 # 64)))%Q).
  { apply Q.min_glb; lra. }
  pose proof (Q.le_min_l (width * (1 # 64)) (height * (1 # 64))) as Hx.
  pose proof (Q.le_min_r (width * (1 # 64)) (height * (1 # 64))) as Hy.
  set (m := Qmin (width * (1 # 64)) (height * (1 # 64))) in *.
  repeat split; lra.
Qed.

(** The arena is drawn inside the canvas: every arena coordinate
    between 0 and 64 lands between 0 and the canvas width, and between
    0 and its height. *)
Theorem arena_drawn_inside_canvas (width height c : Q) :
  (0 <= width)%Q -> (0 <= height)%Q -> (0 <= c)%Q -> (c <= 64)%Q ->
  (0 <= canvasX width height c /\ canvasX width height c <= width /\
   0 <= canvasY width height c /\ canvasY width height c <= height)%Q.
Proof.
  intros Hw Hh Hc0 Hc1.
  destruct (scale_bounds width height Hw Hh) as (Hs & Hsw & Hsh).
  unfold canvasX, canvasY, offsetX, offsetY, Qdiv.
  change (/ 2)%Q with (1 # 2)%Q.
  assert (Hp0 : (0 <= c * scale width height)%Q)
    by (apply Qmult_le_0_compat; assumption).
  assert (Hp1 : (c * scale width height <= 64 * scale width height)%Q)
    by (apply Qmult_le_compat_r; assumption).
  set (s := scale width height) in *. set (cs := (c * s)%Q) in *.
  repeat split; lra.
Qed.

Lemma arena_drawn_inside_canvas_witness :
  (0 <= canvasX 800 600 32 /\ canvasX 800 600 32 <= 800 /\
   0 <= canvasY 800 600 32 /\ canvasY 800 600 32 <= 600)%Q.
Proof.
  apply (arena_drawn_inside_canvas 800 600 32); unfold Qle; cbn; lia.
Defined.

(** What is drawn has bounded size and opacity: a resource core has a
    radius between 2 and 6, a territory fill an opacity of at most 0.3,
    a warrior a radius of at most 7, and of at least 3 when its energy
    is not negative, and at most five lineage dots are drawn. *)
Theorem glyphs_bounded (r : ResourceData) (t : TerritoryData)
    (w : WarriorData) :
  (2 <= resourceSize r /\ resourceSize r <= 6)%Q /\
  (territoryAlpha t <= 3 # 10)%Q /\
  (warriorSize w <= 7)%Q /\
  ((0 <= energy w)%Q -> (3 <= warriorSize w)%Q) /\
  (0 <= lineageDots w /\ lineageDots w <= 5)%Q.
Proof.
  unfold resourceSize, territoryAlpha, warriorSize, energyRatio, lineageDots,
    Qdiv.
  change (/ 10)%Q with (1 # 10)%Q. change (/ 100)%Q with (1 # 100)%Q.
  split; [|split; [|split; [|split]]].
  - split; [apply Q.le_max_l|].
    apply Q.max_lub; [lra|apply Q.le_min_l].
  - apply Q.le_min_r.
  - pose proof (Q.le_min_r (energy w * (1 # 100)) 1). lra.
  - intros H.
    assert (0 <= Qmin (energy w * (1 # 100)) 1)%Q
      by (apply Q.min_glb; lra).
    lra.
  - destruct (Js.ltb 0 (lineage_depth w)) eqn:E.
    + apply JsFacts.ltb_lt in E. split; [apply Q.min_glb; lra|].
      apply Q.le_min_r.
    + split; lra.
Qed.

(** The colour of a warrior is decided by its energy: green above 70,
    blue above 40 and up to 70, orange up to 40. *)
Theorem warrior_colour_by_energy (w : WarriorData) :
  (warriorColor w = "#00ff88" <-> (70 < energy w)%Q) /\
  (warriorColor w = "#0088ff" <-> (40 < energy w /\ energy w <= 70)%Q) /\
  (warriorColor w = "#ff8800" <-> (energy w <= 40)%Q).
Proof.
  unfold warriorColor, energyRatio, Qdiv.
  change (/ 100)%Q with (1 # 100)%Q.
  set (ratio := Qmin (energy w * (1 # 100)) 1).
  assert (Hcut : forall k : Q, (k < 1)%Q ->
    ((k < ratio)%Q <-> (k * 100 < energy w)%Q)).
  { intros k Hk. subst ratio. split.
    - intros H. pose proof (Q.le_min_l (energy w * (1 # 100)) 1). lra.
    - intros H. apply Q.min_glb_lt; lra. }
  assert (Hon : forall k : Q, (k < 1)%Q -> (k * 100 < energy w)%Q ->
    Js.ltb k ratio = true).
  { intros k Hk H. apply JsFacts.ltb_lt, Hcut; assumption. }
  assert (Hoff : forall k : Q, (k < 1)%Q -> (energy w <= k * 100)%Q ->
    Js.ltb k ratio = false).
  { intros k Hk H. apply JsFacts.ltb_ge, Qnot_lt_le. intros Hc.
    apply Hcut in Hc; [lra|exact Hk]. }
  clearbody ratio.
  destruct (Qlt_le_dec 70 (energy w)) as [H70|H70].
  - rewrite (Hon (7 # 10)) by lra.
    repeat split; intros; try discriminate; try reflexivity; lra.
  - rewrite (Hoff (7 # 10)) by lra.
    destruct (Qlt_le_dec 40 (energy w)) as [H40|H40].
    + rewrite (Hon (4 # 10)) by lra.
      repeat split; intros; try discriminate; try reflexivity; lra.
    + rewrite (Hoff (4 # 10)) by lra.
      repeat split; intros; try discriminate; try reflexivity; lra.
Qed.

(** ** The population density grid *)

Lemma square_alter (f : Q -> Q) (density : list (list Q)) (gridX gridY : nat) :
  square density -> square (alter (alter f gridX) gridY density).
Proof.
  intros [Hlen Hrows]. split.
  - now rewrite length_alter.
  - apply Forall_alter; [exact Hrows|].
    intros row _ Hrow. now rewrite length_alter.
Qed.

Lemma square_addDensity (density : list (list Q)) (w : WarriorData) :
  square density -> square (addDensity density w).
Proof.
  intros Hsq. unfold addDensity. cbv zeta.
  destruct (onGrid _ _); [now apply square_alter|exact Hsq].
Qed.

Lemma nonNegative_addDensity (density : list (list Q)) (w : WarriorData) :
  (0 <= energy w)%Q -> nonNegative density -> nonNegative (addDensity density w).
Proof.
  intros He Hd. unfold addDensity. cbv zeta.
  destruct (onGrid _ _); [|exact Hd].
  apply Forall_alter; [exact Hd|]. intros row _ Hrow.
  apply Forall_alter; [exact Hrow|]. cbn beta. intros d _ H0. lra.
Qed.

(** A coordinate at or beyond 64, or a unit or more below 0, falls off
    the grid. *)
Lemma gridCoordinate_off (c : Q) :
  (64 <= c \/ c <= -1)%Q ->
  (0 <=? gridCoordinate c) && (gridCoordinate c <? gridSize) = false.
Proof.
  intros Hc. unfold gridCoordinate, gridSize, Js.floor, Qdiv.
  change (/ 64)%Q with (1 # 64)%Q. change (inject_Z 8) with 8%Q.
  set (g := (c * (1 # 64) * 8)%Q).
  pose proof (Qfloor_le g) as Hle. pose proof (Qlt_floor g) as Hlt.
  apply andb_false_iff. destruct Hc as [Hc|Hc].
  - right. apply Z.ltb_ge.
    assert (Hq : (inject_Z 8 <= g)%Q)
      by (change (inject_Z 8) with 8%Q; subst g; lra).
    apply Qfloor_resp_le in Hq. now rewrite Qfloor_Z in Hq.
  - left. apply Z.leb_gt.
    assert (Hq : (inject_Z (Qfloor g) < inject_Z 0)%Q).
    { change (inject_Z 0) with 0%Q. subst g. lra. }
    now rewrite <- Zlt_Qlt in Hq.
Qed.

Lemma addDensity_off (density : list (list Q)) (w : WarriorData) :
  offArena w -> addDensity density w = density.
Proof.
  intros Hoff. unfold addDensity. cbv zeta.
  replace (onGrid (gridCoordinate (x w)) (gridCoordinate (y w))) with false;
    [reflexivity|].
  symmetry. unfold onGrid. rewrite <- andb_assoc.
  destruct Hoff as [H|[H|[H|H]]].
  - rewrite (gridCoordinate_off (x w)) by (now left). reflexivity.
  - rewrite (gridCoordinate_off (y w)) by (now left). apply andb_false_r.
  - rewrite (gridCoordinate_off (x w)) by (now right). reflexivity.
  - rewrite (gridCoordinate_off (y w)) by (now right). apply andb_false_r.
Qed.

(** The density grid is always 8 by 8. Warriors that lie off the arena
    (at or beyond 64 in some direction, or a unit or more below 0) add
    nothing to it, wherever they come in the list, and when no warrior
    has negative energy no cell is negative. *)
Theorem density_grid_well_formed (warriors : list WarriorData) :
  square (calculatePopulationDensity warriors) /\
  (forall density w, offArena w -> addDensity density w = density) /\
  (Forall offArena warriors ->
   calculatePopulationDensity warriors = noDensity) /\
  (Forall (fun w => 0 <= energy w)%Q warriors ->
   nonNegative (calculatePopulationDensity warriors)).
Proof.
  unfold calculatePopulationDensity.
  assert (Hsq : square noDensity).
  { split; [reflexivity|]. repeat constructor. }
  assert (Hnn : nonNegative noDensity).
  { unfold nonNegative, noDensity. cbn.
    repeat (constructor; [repeat (constructor; [lra|])|]);
      repeat constructor. }
  split; [|split; [exact addDensity_off|split]].
  - revert Hsq. generalize noDensity.
    induction warriors as [|w warriors IH]; intros density Hsq; [exact Hsq|].
    cbn [fold_left]. apply IH. now apply square_addDensity.
  - generalize noDensity.
    induction 1 as [|w warriors Hw _ IH]; [reflexivity|].
    cbn [fold_left]. now rewrite addDensity_off.
  - revert Hnn. generalize noDensity. intros density Hd Hall. revert density Hd.
    induction Hall as [|w warriors Hw _ IH]; intros density Hd; [exact Hd|].
    cbn [fold_left]. apply IH. now apply nonNegative_addDensity.
Qed.

End MainRendererFacts.

(** ** NetworkRenderer.ts: the network view *)

Module NetworkRendererFacts.

Import NetworkRenderer.

(** *** Layers *)

Lemma addToLayer_lookup (layers : gmap string (list NetworkNode))
    (n : NetworkNode) (t : string) :
  addToLayer layers n !! t
  = if ofType t n then Some (default [] (layers !! t) ++ [n])
    else layers !! t.
Proof.
  unfold addToLayer, ofType, Js.push. cbv zeta.
  destruct (String.eqb_spec (node_type n) t) as [<-|Hne].
  - destruct (layers !! node_type n) as [layer|] eqn:E.
    + rewrite lookup_alter_eq, E. reflexivity.
    + rewrite lookup_alter_eq, lookup_insert_eq. reflexivity.
  - rewrite lookup_alter_ne by exact Hne.
    destruct (layers !! node_type n); [reflexivity|].
    now rewrite lookup_insert_ne.
Qed.

Lemma organize_from (nodes : list NetworkNode)
    (layers : gmap string (list NetworkNode)) (t : string) :
  fold_left addToLayer nodes layers !! t
  = match layers !! t, List.filter (ofType t) nodes with
    | None, [] => None
    | found, more => Some (default [] found ++ more)
    end.
Proof.
  revert layers. induction nodes as [|n nodes IH]; intros layers.
  - cbn [fold_left List.filter].
    destruct (layers !! t) as [layer|]; [|reflexivity].
    cbn. now rewrite app_nil_r.
  - cbn [fold_left List.filter]. rewrite IH, addToLayer_lookup.
    destruct (ofType t n).
    + destruct (layers !! t), (List.filter (ofType t) nodes); cbn;
        rewrite <- ?app_assoc; reflexivity.
    + reflexivity.
Qed.

Lemma organize_layer (nodes : list NetworkNode) (t : string) :
  default [] (organizeNodesByLayers nodes !! t) = List.filter (ofType t) nodes.
Proof.
  unfold organizeNodesByLayers. rewrite organize_from, lookup_empty.
  destruct (List.filter (ofType t) nodes); reflexivity.
Qed.

(** [organizeNodesByLayers] groups the nodes by type and keeps their
    order: the layer of a type holds exactly the nodes of that type, in
    the order of the input, and a type without nodes has no layer. So
    the sizes of the layers are the counts the information panel
    shows. *)
Theorem layers_group_by_type (nodes : list NetworkNode) (t : string) :
  organizeNodesByLayers nodes !! t
  = match List.filter (ofType t) nodes with
    | [] => None
    | layer => Some layer
    end /\
  default [] (organizeNodesByLayers nodes !! t) = List.filter (ofType t) nodes /\
  length (default [] (organizeNodesByLayers nodes !! t)) = countOfType t nodes.
Proof.
  unfold organizeNodesByLayers, countOfType.
  rewrite organize_from, lookup_empty.
  destruct (List.filter (ofType t) nodes) as [|n layer]; repeat split.
Qed.

(** *** Layout *)

Section Placing.

Context (mk : NetworkNode -> nat -> Placed).

Local Abbreviation put :=
  (fun (layoutNodes : gmap Z Placed) (n : NetworkNode) (nodeIndex : nat) =>
     <[id n := mk n nodeIndex]> layoutNodes).

Lemma forEachFrom_put_sound (G : Z -> Placed -> Prop) (i : nat)
    (l : list NetworkNode) (s : gmap Z Placed) :
  (forall key p, s !! key = Some p -> G key p) ->
  (forall n j, l !! j = Some n -> G (id n) (mk n (i + j))) ->
  forall key p, Js.forEachFrom put i l s !! key = Some p -> G key p.
Proof.
  revert i s. induction l as [|a l IH]; intros i s Hs Hl; [exact Hs|].
  cbn [Js.forEachFrom]. apply IH.
  - intros key p Hp. cbv beta in Hp.
    apply lookup_insert_Some in Hp as [[<- <-]|[_ Hp]]; [|now apply Hs].
    specialize (Hl a 0%nat eq_refl). now rewrite Nat.add_0_r in Hl.
  - intros n j Hj. specialize (Hl n (S j) Hj).
    now rewrite Nat.add_succ_r in Hl.
Qed.

Lemma forEachFrom_put_keeps (i : nat) (l : list NetworkNode)
    (s : gmap Z Placed) (key : Z) :
  is_Some (s !! key) -> is_Some (Js.forEachFrom put i l s !! key).
Proof.
  revert i s. induction l as [|a l IH]; intros i s Hs; [exact Hs|].
  cbn [Js.forEachFrom]. apply IH. cbv beta.
  apply lookup_insert_is_Some'. now right.
Qed.

Lemma forEachFrom_put_adds (i : nat) (l : list NetworkNode)
    (s : gmap Z Placed) (n : NetworkNode) :
  In n l -> is_Some (Js.forEachFrom put i l s !! id n).
Proof.
  revert i s. induction l as [|a l IH]; intros i s Hn; [destruct Hn|].
  cbn [Js.forEachFrom]. destruct Hn as [->|Hn].
  - apply forEachFrom_put_keeps. cbv beta.
    apply lookup_insert_is_Some'. now left.
  - now apply IH.
Qed.

End Placing.

Lemma filter_ofType_lookup (t : string) (nodes : list NetworkNode) (j : nat)
    (n : NetworkNode) :
  List.filter (ofType t) nodes !! j = Some n ->
  In n nodes /\ node_type n = t /\ (j < countOfType t nodes)%nat.
Proof.
  intros Hj. unfold countOfType.
  assert (Hin : In n (List.filter (ofType t) nodes)).
  { apply list_elem_of_In. eapply list_elem_of_lookup_2, Hj. }
  apply filter_In in Hin as [Hin Ht]. unfold ofType in Ht.
  apply String.eqb_eq in Ht. repeat split; try assumption.
  eapply lookup_lt_Some, Hj.
Qed.

Lemma slot_slotted (width height : Q) (nodes : list NetworkNode)
    (layerIndex : nat) (t : string) (j : nat) (n : NetworkNode) :
  layerOrder !! layerIndex = Some t ->
  List.filter (ofType t) nodes !! j = Some n ->
  slotted width height nodes (id n)
    {| placed_x := layerX width layerIndex;
       placed_y :=
         layerY height (length (List.filter (ofType t) nodes)) (0 + j);
       node := n |}.
Proof.
  intros Hk Hj. destruct (filter_ofType_lookup t nodes j n Hj) as (Hin & <- & Hlt).
  unfold slotted. cbn [node placed_x placed_y].
  split; [exact Hin|]. split; [reflexivity|].
  exists layerIndex, j. repeat split; assumption.
Qed.

Lemma layout_slotted (width height : Q) (nodes : list NetworkNode) (key : Z)
    (p : Placed) :
  calculateLayout width height (organizeNodesByLayers nodes) !! key = Some p ->
  slotted width height nodes key p.
Proof.
  unfold calculateLayout, Js.forEach. cbn [Js.forEachFrom layerOrder].
  cbv zeta.
  rewrite !organize_layer. revert key p.
  apply (forEachFrom_put_sound
           (fun n j =>
              {| placed_x := layerX width 2;
                 placed_y :=
                   layerY height
                     (length (List.filter (ofType "output") nodes)) j;
                 node := n |})
           (slotted width height nodes));
    [|intros n j; now apply slot_slotted].
  apply (forEachFrom_put_sound
           (fun n j =>
              {| placed_x := layerX width 1;
                 placed_y :=
                   layerY height
                     (length (List.filter (ofType "hidden") nodes)) j;
                 node := n |})
           (slotted width height nodes));
    [|intros n j; now apply slot_slotted].
  apply (forEachFrom_put_sound
           (fun n j =>
              {| placed_x := layerX width 0;
                 placed_y :=
                   layerY height
                     (length (List.filter (ofType "input") nodes)) j;
                 node := n |})
           (slotted width height nodes));
    [|intros n j; now apply slot_slotted].
  intros key p Hp. now rewrite lookup_empty in Hp.
Qed.

Lemma fraction_inside (h c d : Q) :
  (0 < h)%Q -> (0 < d)%Q -> (d < c)%Q ->
  (0 < h / c * d /\ h / c * d < h)%Q.
Proof.
  intros Hh Hd Hc.
  assert (Hc0 : (0 < c)%Q) by lra.
  assert (Hq : (h / c * d == h * (d / c))%Q) by (field; lra).
  assert (Hr0 : (0 < d / c)%Q) by (apply Qlt_shift_div_l; lra).
  assert (Hr1 : (d / c < 1)%Q) by (apply Qlt_shift_div_r; lra).
  rewrite Hq. set (r := (d / c)%Q) in *. split; nra.
Qed.

Lemma layerY_inside (height : Q) (count nodeIndex : nat) :
  (0 < height)%Q -> (nodeIndex < count)%nat ->
  (0 < layerY height count nodeIndex /\ layerY height count nodeIndex < height)%Q.
Proof.
  intros Hh Hlt. unfold layerY. apply fraction_inside; [exact Hh|..].
  - assert (H : (inject_Z 0 <= inject_Z (Z.of_nat nodeIndex))%Q)
      by (rewrite <- Zle_Qle; lia).
    unfold inject_Z in H at 1. lra.
  - assert (H : (inject_Z (Z.of_nat nodeIndex) < inject_Z (Z.of_nat count))%Q)
      by (rewrite <- Zlt_Qlt; lia).
    lra.
Qed.

Lemma layerX_inside (width : Q) (layerIndex : nat) (t : string) :
  (0 < width)%Q -> layerOrder !! layerIndex = Some t ->
  (0 < layerX width layerIndex /\ layerX width layerIndex < width)%Q.
Proof.
  intros Hw Hk. unfold layerX.
  apply fraction_inside; [exact Hw|..];
    destruct layerIndex as [|[|[|k]]]; try discriminate Hk;
    unfold Qlt; cbn; lia.
Qed.

(** On a canvas of positive size every node of the layout lies strictly
    inside the canvas: it is a node of the topology, filed under its own
    identifier, in the column of its layer (a quarter, a half or three
    quarters of the width), at one of the evenly spaced heights of that
    layer. *)
Theorem layout_inside_canvas (width height : Q) (nodes : list NetworkNode)
    (key : Z) (p : Placed) :
  (0 < width)%Q -> (0 < height)%Q ->
  calculateLayout width height (organizeNodesByLayers nodes) !! key = Some p ->
  slotted width height nodes key p /\ inside width height p.
Proof.
  intros Hw Hh Hp. apply layout_slotted in Hp as Hs. split; [exact Hs|].
  destruct Hs as (_ & _ & layerIndex & nodeIndex & Hk & Hlt & Hx & Hy).
  destruct (layerX_inside width layerIndex _ Hw Hk) as [Hx0 Hx1].
  destruct (layerY_inside height _ nodeIndex Hh Hlt) as [Hy0 Hy1].
  unfold inside. rewrite Hx, Hy. repeat split; assumption.
Qed.

Lemma layout_places (width height : Q) (nodes : list NetworkNode)
    (n : NetworkNode) :
  In n nodes -> In (node_type n) layerOrder ->
  is_Some
    (calculateLayout width height (organizeNodesByLayers nodes) !! id n).
Proof.
  intros Hin Ht.
  unfold calculateLayout, Js.forEach. cbn [Js.forEachFrom layerOrder].
  cbv zeta. rewrite !organize_layer.
  assert (Hmember : In n (List.filter (ofType (node_type n)) nodes)).
  { apply filter_In. split; [exact Hin|]. apply String.eqb_refl. }
  cbn [In layerOrder] in Ht. destruct Ht as [Ht|[Ht|[Ht|[]]]];
    rewrite <- Ht in Hmember.
  - do 2 apply (forEachFrom_put_keeps (fun n j => Build_Placed _ _ n)).
    now apply (forEachFrom_put_adds (fun n j => Build_Placed _ _ n)).
  - apply (forEachFrom_put_keeps (fun n j => Build_Placed _ _ n)).
    now apply (forEachFrom_put_adds (fun n j => Build_Placed _ _ n)).
  - now apply (forEachFrom_put_adds (fun n j => Build_Placed _ _ n)).
Qed.

(** The layout holds exactly the identifiers of the nodes whose type is
    one of the three layers: a node of any other type is not laid out,
    hence not drawn, unless it shares its identifier with such a node. *)
Theorem layout_domain (width height : Q) (nodes : list NetworkNode) (key : Z) :
  is_Some (calculateLayout width height (organizeNodesByLayers nodes) !! key)
  <-> exists n, In n nodes /\ id n = key /\ In (node_type n) layerOrder.
Proof.
  split.
  - intros [p Hp]. apply layout_slotted in Hp.
    destruct Hp as (Hin & Hid & layerIndex & _ & Hk & _).
    exists (node p). repeat split; try assumption.
    apply list_elem_of_In. eapply list_elem_of_lookup_2, Hk.
  - intros (n & Hin & <- & Ht). now apply layout_places.
Qed.

Lemma same_id_same_node (nodes : list NetworkNode) (a b : NetworkNode) :
  NoDup (map id nodes) -> In a nodes -> In b nodes -> id a = id b -> a = b.
Proof.
  induction nodes as [|n nodes IH]; intros Hnd Ha Hb Hid; [destruct Ha|].
  cbn [map] in Hnd. apply NoDup_cons in Hnd as [Hfresh Hnd].
  assert (Hother : forall c, In c nodes -> id c <> id n).
  { intros c Hc Heq. apply Hfresh. rewrite <- Heq.
    apply list_elem_of_In, in_map, Hc. }
  destruct Ha as [<-|Ha], Hb as [<-|Hb]; auto.
  - now destruct (Hother b Hb).
  - destruct (Hother a Ha). congruence.
Qed.

(** When the identifiers are distinct, every node of one of the three
    layer types is laid out as itself. *)
Theorem distinct_nodes_all_placed (width height : Q)
    (nodes : list NetworkNode) (n : NetworkNode) :
  NoDup (map id nodes) -> In n nodes -> In (node_type n) layerOrder ->
  exists p,
    calculateLayout width height (organizeNodesByLayers nodes) !! id n = Some p
    /\ node p = n.
Proof.
  intros Hnd Hin Ht.
  destruct (layout_places width height nodes n Hin Ht) as [p Hp].
  exists p. split; [exact Hp|].
  apply layout_slotted in Hp. destruct Hp as (Hp & Hid & _).
  now apply (same_id_same_node nodes).
Qed.

(** *** Connections and nodes *)

Lemma hex_two_digits (n : Z) :
  16 <= n <= 255 ->
  Js.padStart2 (Js.toString16 n)
  = String (Js.hexDigit (n / 16)) (String (Js.hexDigit (n mod 16)) EmptyString).
Proof.
  intros Hn.
  assert (Hall :
    forallb
      (fun k =>
         let n := 16 + Z.of_nat k in
         String.eqb (Js.padStart2 (Js.toString16 n))
           (String (Js.hexDigit (n / 16))
              (String (Js.hexDigit (n mod 16)) EmptyString)))
      (seq 0 240) = true) by (vm_compute; reflexivity).
  rewrite forallb_forall in Hall.
  specialize (Hall (Z.to_nat (n - 16))). cbv zeta in Hall.
  replace (16 + Z.of_nat (Z.to_nat (n - 16))) with n in Hall by lia.
  apply String.eqb_eq, Hall, in_seq. lia.
Qed.

Lemma connectionAlpha_range (c : NetworkConnection) :
  (2 # 10 <= connectionAlpha c /\ connectionAlpha c <= 1)%Q.
Proof.
  unfold connectionAlpha, Js.abs.
  pose proof (Qabs_nonneg (weight c)) as Habs.
  split; [apply Q.min_glb; lra|apply Q.le_min_r].
Qed.

Lemma alphaByte_range (c : NetworkConnection) :
  51 <= Js.floor (connectionAlpha c * 255) <= 255.
Proof.
  destruct (connectionAlpha_range c) as [Hlo Hhi]. split.
  - apply JsFacts.floor_ge_Z. change (inject_Z 51) with 51%Q. lra.
  - apply JsFacts.floor_le_Z. change (inject_Z 255) with 255%Q. lra.
Qed.

(** A connection is drawn with an opacity between 0.2 and 1 and a line
    width between 0.5 and 4, whatever its weight. The opacity byte lies
    between 51 and 255, so it always prints as exactly two hexadecimal
    digits and the first colour stop of the gradient is a well-formed
    colour of nine characters. *)
Theorem connection_style_bounded (c : NetworkConnection) :
  let byte := Js.floor (connectionAlpha c * 255) in
  (2 # 10 <= connectionAlpha c /\ connectionAlpha c <= 1)%Q /\
  (1 # 2 <= connectionWidth c /\ connectionWidth c <= 4)%Q /\
  51 <= byte <= 255 /\
  alphaHex c
  = String (Js.hexDigit (byte / 16))
      (String (Js.hexDigit (byte mod 16)) EmptyString) /\
  forallb isHexDigit (String.list_ascii_of_string (alphaHex c)) = true /\
  String.length (gradientStart c) = 9%nat.
Proof.
  intros byte. pose proof (alphaByte_range c) as Hbyte. fold byte in Hbyte.
  assert (Hhex : alphaHex c
    = String (Js.hexDigit (byte / 16))
        (String (Js.hexDigit (byte mod 16)) EmptyString)).
  { unfold alphaHex. fold byte. apply hex_two_digits. lia. }
  split; [apply connectionAlpha_range|].
  split.
  { unfold connectionWidth. split; [apply Q.le_max_l|].
    apply Q.max_lub; [lra|apply Q.le_min_l]. }
  split; [exact Hbyte|]. split; [exact Hhex|]. split.
  - rewrite Hhex. cbn [String.list_ascii_of_string forallb].
    assert (Hdigit : forall d, 0 <= d < 16 -> isHexDigit (Js.hexDigit d) = true).
    { intros d Hd.
      assert (Hall : forallb (fun k => isHexDigit (Js.hexDigit (Z.of_nat k)))
                       (seq 0 16) = true) by (vm_compute; reflexivity).
      rewrite forallb_forall in Hall. specialize (Hall (Z.to_nat d)).
      rewrite Z2Nat.id in Hall by lia. apply Hall, in_seq. lia. }
    rewrite !Hdigit; [reflexivity|..].
    + apply Z.mod_pos_bound. lia.
    + split; [apply Z.div_pos; lia|apply Z.div_lt_upper_bound; lia].
  - unfold gradientStart, connectionColor. rewrite Hhex.
    destruct (Js.geb (weight c) 0); reflexivity.
Qed.

(** A node is drawn with a radius of at least 5, and of at most 15
    exactly when its activation lies between -1 and 1. *)
Theorem node_radius_bounded (n : NetworkNode) :
  (minNodeRadius <= nodeRadius n)%Q /\
  ((nodeRadius n <= maxNodeRadius)%Q <->
   (-1 <= activation n /\ activation n <= 1)%Q).
Proof.
  unfold nodeRadius, minNodeRadius, maxNodeRadius, Js.abs.
  pose proof (Qabs_nonneg (activation n)) as Habs.
  split; [lra|].
  rewrite <- (Qabs_Qle_condition (activation n) 1).
  split; intros H; lra.
Qed.

(** *** The theorems at a sample topology *)

Lemma layout_inside_canvas_witness :
  inside 800 600
    {| placed_x := layerX 800 1; placed_y := layerY 600 1 0;
       node := sampleHidden |}.
Proof.
  assert (Hw : (0 < 800)%Q) by reflexivity.
  assert (Hh : (0 < 600)%Q) by reflexivity.
  assert (Hp :
    calculateLayout 800 600 (organizeNodesByLayers sampleNodes) !! 2
    = Some {| placed_x := layerX 800 1; placed_y := layerY 600 1 0;
              node := sampleHidden |})
    by (vm_compute; reflexivity).
  destruct (layout_inside_canvas 800 600 sampleNodes 2 _ Hw Hh Hp) as [_ H].
  exact H.
Defined.

Lemma distinct_nodes_all_placed_witness :
  exists p,
    calculateLayout 800 600 (organizeNodesByLayers sampleNodes) !! 2 = Some p
    /\ node p = sampleHidden.
Proof.
  assert (Hnd : NoDup (map id sampleNodes)).
  { cbn. repeat (apply NoDup_cons; split;
      [intros Hx; apply list_elem_of_In in Hx; cbn in Hx;
       intuition discriminate|]).
    apply NoDup_nil_2. }
  assert (Hin : In sampleHidden sampleNodes) by (right; left; reflexivity).
  assert (Ht : In (node_type sampleHidden) layerOrder)
    by (right; left; reflexivity).
  exact (distinct_nodes_all_placed 800 600 sampleNodes sampleHidden Hnd Hin Ht).
Defined.

End NetworkRendererFacts.
